(** * LHUB.py: SSH tunnel and port-redirection management

    A shallow embedding of the networking section of [plugin/LHUB.py]
    (the helpers [_validate_command], [_run_cli_command],
    [_run_shell_command_with_pipes], [do_prompt_for_sudo] and the [BitBar]
    methods [do_terminate_tunnels], [do_execute_port_redirect],
    [do_verify_loopback_address] and [do_execute_ssh_tunnel]), of the
    actions built on them ([action_terminate_all], [port_redirect_custom],
    [ssh_tunnel_custom], [check_for_custom_networking_configs]), of
    [make_upgrade_command], of the menu methods [print_in_bitbar_menu] and
    [make_action], and of [convert_boolean] and [sort_dict], followed by the
    properties of that code.

    Conventions of the embedding:
    - a Python [str] is a list of characters; a character is a code point
      below 256 (Latin-1), so that [str.isspace], [\s], [\d] and [\w] are
      the standard classes restricted to that range;
    - a Python value that may be [None], a string or an integer is a [pyval];
    - the operating system is an oracle [OS] answering every command from
      the history of what the plugin has done so far; every effect of the
      plugin ([print], [subprocess.run], [subprocess.getoutput], [os.popen])
      is an [event] appended to that history;
    - a raised exception ends the computation and keeps the history. *)

From Stdlib Require Import Ascii String NArith ZArith Bool Lia DecimalPos List.
From Stdlib Require Import Sorted Permutation.
Import ListNotations.

#[local] Open Scope list_scope.
#[local] Open Scope N_scope.

(** ** Strings *)

Definition str := list ascii.

(** A Python string literal. *)
Definition lit (s : string) : str := list_ascii_of_string s.

Definition code (c : ascii) : N := N_of_ascii c.

Definition between (lo hi n : N) : bool := (lo <=? n) && (n <=? hi).

(** [str.isspace] on one character, which is also the class [\s]. *)
Definition isspace (c : ascii) : bool :=
  let n := code c in
  between 9 13 n || between 28 32 n || (n =? 133) || (n =? 160).

(** The class [\d]. *)
Definition isdigit (c : ascii) : bool := between 48 57 (code c).

(** The class [\w]: alphanumeric characters and the underscore. *)
Definition isword (c : ascii) : bool :=
  let n := code c in
  between 48 57 n || between 65 90 n || between 97 122 n || (n =? 95)
  || (n =? 170) || (n =? 178) || (n =? 179) || (n =? 181) || (n =? 185)
  || (n =? 186) || between 188 190 n || between 192 214 n
  || between 216 246 n || between 248 255 n.

Definition newline : ascii := ascii_of_N 10.
Definition tab : ascii := ascii_of_N 9.
Definition NL : str := [newline].
Definition TAB : str := [tab].

Definition ascii_eqb (a b : ascii) : bool := Ascii.eqb a b.

Fixpoint str_eqb (a b : str) : bool :=
  match a, b with
  | [], [] => true
  | x :: a', y :: b' => ascii_eqb x y && str_eqb a' b'
  | _, _ => false
  end.

(** [takewhile]/[dropwhile] in one pass: the longest prefix whose
    characters satisfy [p], and what follows it. *)
Fixpoint span (p : ascii -> bool) (s : str) : str * str :=
  match s with
  | [] => ([], [])
  | c :: t => if p c then let (a, b) := span p t in (c :: a, b) else ([], s)
  end.

Fixpoint dropwhile (p : ascii -> bool) (s : str) : str :=
  match s with
  | [] => []
  | c :: t => if p c then dropwhile p t else s
  end.

Definition lstrip (s : str) : str := dropwhile isspace s.
Definition rstrip (s : str) : str := rev (dropwhile isspace (rev s)).

(** [s.strip()] *)
Definition strip (s : str) : str := rstrip (lstrip s).

Fixpoint startswith (p s : str) : bool :=
  match p, s with
  | [], _ => true
  | x :: p', y :: s' => ascii_eqb x y && startswith p' s'
  | _ :: _, [] => false
  end.

(** [needle in hay] on strings. *)
Fixpoint contains (needle hay : str) : bool :=
  startswith needle hay ||
  match hay with
  | [] => false
  | _ :: t => contains needle t
  end.

(** [s.split(sep)] for a one-character separator. *)
Fixpoint str_split (sep : ascii) (s : str) : list str :=
  match s with
  | [] => [[]]
  | c :: t =>
      if ascii_eqb c sep then [] :: str_split sep t
      else match str_split sep t with
           | [] => [[c]]
           | h :: r => (c :: h) :: r
           end
  end.

(** [s.replace(a, b)] for a one-character [a]. *)
Definition replace_char (a : ascii) (b : str) (s : str) : str :=
  flat_map (fun c => if ascii_eqb c a then b else [c]) s.

Fixpoint repeat_str (n : nat) (s : str) : str :=
  match n with
  | O => []
  | S k => s ++ repeat_str k s
  end.

(** ** Integers and their decimal text *)

Definition digit_value (c : ascii) : N := code c - 48.

(** [int(s)] on a string of decimal digits. *)
Definition int_of_digits (s : str) : N :=
  fold_left (fun acc c => 10 * acc + digit_value c) s 0.

Fixpoint uint_chars (d : Decimal.uint) : str :=
  match d with
  | Decimal.Nil => []
  | Decimal.D0 d => ascii_of_N 48 :: uint_chars d
  | Decimal.D1 d => ascii_of_N 49 :: uint_chars d
  | Decimal.D2 d => ascii_of_N 50 :: uint_chars d
  | Decimal.D3 d => ascii_of_N 51 :: uint_chars d
  | Decimal.D4 d => ascii_of_N 52 :: uint_chars d
  | Decimal.D5 d => ascii_of_N 53 :: uint_chars d
  | Decimal.D6 d => ascii_of_N 54 :: uint_chars d
  | Decimal.D7 d => ascii_of_N 55 :: uint_chars d
  | Decimal.D8 d => ascii_of_N 56 :: uint_chars d
  | Decimal.D9 d => ascii_of_N 57 :: uint_chars d
  end.

(** [str(n)] for a natural number. *)
Definition str_of_N (n : N) : str := uint_chars (N.to_uint n).

(** [str(z)] for an integer. *)
Definition str_of_Z (z : Z) : str :=
  match z with
  | Z0 => str_of_N 0
  | Zpos p => str_of_N (Npos p)
  | Zneg p => lit "-" ++ str_of_N (Npos p)
  end.

(** ** Python values *)

Inductive pyval : Type :=
| PNone
| PStr (s : str)
| PInt (z : Z).

(** Truth value of an object in a condition. *)
Definition truthy (v : pyval) : bool :=
  match v with
  | PNone => false
  | PStr s => negb (str_eqb s [])
  | PInt z => negb (Z.eqb z 0)
  end.

(** [a or b] *)
Definition py_or (a b : pyval) : pyval := if truthy a then a else b.

(** [a == b] *)
Definition py_eq (a b : pyval) : bool :=
  match a, b with
  | PNone, PNone => true
  | PStr x, PStr y => str_eqb x y
  | PInt x, PInt y => Z.eqb x y
  | _, _ => false
  end.

(** The text of a value inside an f-string. *)
Definition fmt (v : pyval) : str :=
  match v with
  | PNone => lit "None"
  | PStr s => s
  | PInt z => str_of_Z z
  end.

(** Truth value and f-string text of a string that may be [None]. *)
Definition truthy_opt (o : option str) : bool :=
  match o with
  | Some s => negb (str_eqb s [])
  | None => false
  end.

Definition fmt_opt (o : option str) : str :=
  match o with
  | Some s => s
  | None => lit "None"
  end.

(** ** Regular expressions of the module

    Each pattern of the source is embedded as the matcher it denotes.  In
    all of them every repetition is greedy and followed by something its
    own characters cannot match, so the backtracking search of [re] takes
    the longest run at each repetition or fails. *)

(** [re.findall]: the pattern is tried at each position from left to
    right; [m s] is the pattern tried at the head of [s] and gives what
    [findall] reports for the match and the number of characters matched;
    the search resumes after a match. *)
Fixpoint findall_from (m : str -> option (str * nat)) (skip : nat) (s : str)
  : list str :=
  match s with
  | [] => []
  | _ :: t =>
      match skip with
      | S k => findall_from m k t
      | O =>
          match m s with
          | Some (g, n) => g :: findall_from m (pred n) t
          | None => findall_from m 0 t
          end
      end
  end.

Definition findall (m : str -> option (str * nat)) (s : str) : list str :=
  findall_from m 0 s.

(** [pid_pattern = re.compile(r"^\s*\d+\s+(\d+)")]: the group of a match
    at the start of the line. *)
Definition pid_pattern_match (line : str) : option str :=
  let (_, r0) := span isspace line in
  let (first, r1) := span isdigit r0 in
  let (gap, r2) := span isspace r1 in
  let (second, _) := span isdigit r2 in
  match first, gap, second with
  | _ :: _, _ :: _, _ :: _ => Some second
  | _, _, _ => None
  end.

(** [pid_pattern.findall(line)]: the pattern is anchored, so there is at
    most one match. *)
Definition pid_pattern_findall (line : str) : list str :=
  match pid_pattern_match line with
  | Some g => [g]
  | None => []
  end.

Definition is_colon (c : ascii) : bool := ascii_eqb c (ascii_of_N 58).

(** The class [[^\s:]]. *)
Definition host_char (c : ascii) : bool := negb (isspace c || is_colon c).

(** [r"[^\s:]+:\d+(?=:|\s)"] tried at the head of [s]. *)
Definition endpoint_match (s : str) : option (str * nat) :=
  let (host, r1) := span host_char s in
  match host, r1 with
  | _ :: _, c :: r2 =>
      if is_colon c then
        let (port, r3) := span isdigit r2 in
        match port, r3 with
        | _ :: _, d :: _ =>
            if is_colon d || isspace d
            then Some (host ++ c :: port, length (host ++ c :: port))
            else None
        | _, _ => None
        end
      else None
  | _, _ => None
  end.

(** [re.findall(r"[^\s:]+:\d+(?=:|\s)", tunnel)] *)
Definition endpoint_findall (tunnel : str) : list str :=
  findall endpoint_match tunnel.

Definition is_blank (c : ascii) : bool := ascii_eqb c (ascii_of_N 32).

(** [r'-f +(\S+)'] tried at the head of [s]; [findall] reports the group. *)
Definition server_match (s : str) : option (str * nat) :=
  if startswith (lit "-f") s then
    let (blanks, r) := span is_blank (skipn 2 s) in
    let (server, _) := span (fun c => negb (isspace c)) r in
    match blanks, server with
    | _ :: _, _ :: _ => Some (server, (2 + length blanks + length server)%nat)
    | _, _ => None
    end
  else None.

(** [re.findall(r'-f +(\S+)', tunnel)] *)
Definition server_findall (tunnel : str) : list str :=
  findall server_match tunnel.

(** [re.match(r"^127\..*", s)] succeeds exactly when [s] starts with
    ["127."]: [.*] also matches the empty string. *)
Definition loopback_prefix_match (s : str) : bool := startswith (lit "127.") s.

(** The pattern [rf"\b{loopback_ip}\b"] is built from the address itself.
    A word character of the address stands for itself and a dot for any
    character but a newline; an address with any other character is
    outside this embedding ([atoms_of] gives [None]). *)
Inductive atom : Type :=
| Lit (c : ascii)
| AnyChar.

Definition is_dot (c : ascii) : bool := ascii_eqb c (ascii_of_N 46).

Definition atom_of_char (c : ascii) : option atom :=
  if isword c then Some (Lit c)
  else if is_dot c then Some AnyChar
  else None.

Fixpoint atoms_of (s : str) : option (list atom) :=
  match s with
  | [] => Some []
  | c :: t =>
      match atom_of_char c, atoms_of t with
      | Some a, Some l => Some (a :: l)
      | _, _ => None
      end
  end.

Definition atom_matches (a : atom) (c : ascii) : bool :=
  match a with
  | Lit x => ascii_eqb x c
  | AnyChar => negb (ascii_eqb c newline)
  end.

Definition wordb (o : option ascii) : bool :=
  match o with
  | Some c => isword c
  | None => false
  end.

(** [\b] between the character before the position ([None] at the start
    of the text) and the one after it ([None] at the end). *)
Definition boundary (prev next : option ascii) : bool :=
  xorb (wordb prev) (wordb next).

Fixpoint atoms_match (atoms : list atom) (prev : option ascii) (s : str)
  : bool :=
  match atoms with
  | [] => boundary prev (hd_error s)
  | a :: atoms' =>
      match s with
      | c :: t => atom_matches a c && atoms_match atoms' (Some c) t
      | [] => false
      end
  end.

Definition loopback_match_at (atoms : list atom) (prev : option ascii)
  (s : str) : bool :=
  boundary prev (hd_error s) && atoms_match atoms prev s.

(** Whether [re.findall(rf"\b{loopback_ip}\b", text)] is non-empty. *)
Fixpoint loopback_search (atoms : list atom) (prev : option ascii) (s : str)
  : bool :=
  loopback_match_at atoms prev s ||
  match s with
  | [] => false
  | c :: t => loopback_search atoms (Some c) t
  end.

(** ** [shlex.split]

    The tokenizer of the standard library in the mode [shlex.split] uses:
    POSIX rules, splitting on whitespace only, no comments.  The left
    results are the messages of the [ValueError] it raises. *)

Inductive lex_state : Type :=
| InSpace
| InWord
| InQuote (q : ascii)
| InEscapeWord
| InEscapeQuote.

Definition shlex_space (c : ascii) : bool :=
  let n := code c in (n =? 32) || (n =? 9) || (n =? 13) || (n =? 10).

Definition squote : ascii := ascii_of_N 39.
Definition dquote : ascii := ascii_of_N 34.
Definition backslash : ascii := ascii_of_N 92.

Definition is_quote (c : ascii) : bool := ascii_eqb c squote || ascii_eqb c dquote.
Definition is_escape (c : ascii) : bool := ascii_eqb c backslash.

Definition push_token (tok : str) (r : str + list str) : str + list str :=
  match r with
  | inr toks => inr (tok :: toks)
  | inl msg => inl msg
  end.

Fixpoint shlex_run (st : lex_state) (tok : str) (s : str)
  : str + list str :=
  match s with
  | [] =>
      match st with
      | InSpace => inr []
      | InWord => inr [tok]
      | InQuote _ => inl (lit "No closing quotation")
      | InEscapeWord | InEscapeQuote => inl (lit "No escaped character")
      end
  | c :: t =>
      match st with
      | InSpace =>
          if shlex_space c then shlex_run InSpace [] t
          else if is_escape c then shlex_run InEscapeWord [] t
          else if is_quote c then shlex_run (InQuote c) [] t
          else shlex_run InWord [c] t
      | InWord =>
          if shlex_space c then push_token tok (shlex_run InSpace [] t)
          else if is_quote c then shlex_run (InQuote c) tok t
          else if is_escape c then shlex_run InEscapeWord tok t
          else shlex_run InWord (tok ++ [c]) t
      | InQuote q =>
          if ascii_eqb c q then shlex_run InWord tok t
          else if is_escape c && ascii_eqb q dquote
               then shlex_run InEscapeQuote tok t
          else shlex_run (InQuote q) (tok ++ [c]) t
      | InEscapeWord => shlex_run InWord (tok ++ [c]) t
      | InEscapeQuote =>
          if negb (is_escape c) && negb (ascii_eqb c dquote)
          then shlex_run (InQuote dquote) (tok ++ [backslash; c]) t
          else shlex_run (InQuote dquote) (tok ++ [c]) t
      end
  end.

Definition shlex_split (s : str) : str + list str := shlex_run InSpace [] s.

(** ** Effects

    What the plugin does to the outside world, in the order it does it. *)

Inductive event : Type :=
| Print (text : str)
    (** [print(text)] *)
| Run (cmd : str) (argv : list str) (timeout : option nat) (capture_output : bool)
    (** [subprocess.run(argv, ...)] for the command line [cmd] *)
| GetOutput (cmd : str)
    (** [subprocess.getoutput(cmd)]: [cmd] is run by the shell *)
| Popen (cmd : str).
    (** [os.popen(cmd)] *)

(** How a command started by [subprocess.run] ends: it exits, or it is
    still running when the time allowed for it is over.  A command that
    cannot be started at all (no such executable) is not part of the
    oracle. *)
Inductive run_outcome : Type :=
| Exited (returncode : Z) (stdout : str)
| TimedOut.

(** The operating system: what a command does, given everything the
    plugin has done before it. *)
Record OS : Type := {
  os_run : list event -> list str -> run_outcome;
  os_getoutput : list event -> str -> str
}.

(** [subprocess.CompletedProcess] *)
Record CompletedProcess : Type := {
  args : list str;
  returncode : Z;
  stdout : str
}.

Inductive exn : Type :=
| AssertionError (msg : str)
| ValueError (msg : str)
| IndexError (msg : str)
| CalledProcessError (code : Z) (cmd : list str)
| TimeoutExpired (cmd : list str)
| NeverReturns (cmd : list str)
| PatternOutsideModel (pattern_text : str).

(** A computation of the plugin: from the history so far to a result or
    an exception, and the history after it. *)
Definition M (A : Type) : Type := list event -> (exn + A) * list event.

Definition ret {A : Type} (a : A) : M A := fun h => (inr a, h).

Definition raise {A : Type} (e : exn) : M A := fun h => (inl e, h).

Definition bind {A B : Type} (m : M A) (k : A -> M B) : M B :=
  fun h =>
    match m h with
    | (inr a, h') => k a h'
    | (inl e, h') => (inl e, h')
    end.

Declare Scope py_scope.
Delimit Scope py_scope with py.
Notation "x <- m ;; k" := (bind m (fun x => k))
  (at level 61, m at next level, right associativity) : py_scope.
Notation "m ;; k" := (bind m (fun _ => k))
  (at level 61, right associativity) : py_scope.
#[local] Open Scope py_scope.

Definition emit (e : event) : M unit := fun h => (inr tt, h ++ [e]).

(** [print(text)] *)
Definition print (text : str) : M unit := emit (Print text).

(** [assert cond, msg] *)
Definition assert (cond : bool) (msg : str) : M unit :=
  if cond then ret tt else raise (AssertionError msg).

(** [for x in xs: body x] *)
Fixpoint for_each {A : Type} (xs : list A) (body : A -> M unit) : M unit :=
  match xs with
  | [] => ret tt
  | x :: rest => body x ;; for_each rest body
  end.

(** The result and the history of a computation started with nothing done. *)
Definition result_of {A : Type} (m : M A) : exn + A := fst (m []).
Definition history_of {A : Type} (m : M A) : list event := snd (m []).

(** ** The plugin *)

(** [default_loopback_interface] *)
Definition default_loopback_interface : str := lit "lo0".

(** The values [BitBar.__init__] gives to [self.title_default] and
    [self.loopback_interface]. *)
Definition title_default : str := lit "LogicHub_Utils".
Definition loopback_interface : str := default_loopback_interface.

(** The fields of [self.variables] the networking section reads. *)
Record UserVariables : Type := {
  local_user : str;
  default_ssh_key : str
}.

(** An SSH tunnel section of the configuration, as [do_execute_ssh_tunnel]
    reads it: [get_k cfg] is [config_dict.get("k")]. *)
Record tunnel_config : Type := {
  get_name : option str;
  get_remote_ip : option str;
  get_remote_port : pyval;
  get_local_address : option str;
  get_local_port : pyval;
  get_ssh_server : option str;
  get_ssh_port : pyval;
  get_ssh_user : option str;
  get_ssh_key : option str;
  get_ssh_options : option str
}.

(** A [dict] with integer keys, in insertion order: assigning to a key that
    is present replaces its value where it stands. *)
Fixpoint dict_set (d : list (N * str)) (k : N) (v : str) : list (N * str) :=
  match d with
  | [] => [(k, v)]
  | (k', v') :: rest =>
      if N.eqb k' k then (k, v) :: rest else (k', v') :: dict_set rest k v
  end.

Definition quoted (s : str) : str := dquote :: s ++ [dquote].

(** The command line of [do_prompt_for_sudo]. *)
Definition sudo_validate_cmd : str :=
  lit "sudo -v -p " ++ quoted (lit "sudo password: ").

(** [specific_loopback] of [do_terminate_tunnels]. *)
Definition specific_loopback_of (loopback_ip : option str) (loopback_port : pyval)
  : str :=
  let specific_loopback :=
    (if truthy_opt loopback_ip then strip (fmt_opt loopback_ip) else []) ++ lit ":" in
  if negb (str_eqb specific_loopback []) && truthy loopback_port
  then specific_loopback ++ fmt loopback_port ++ lit ":"
  else specific_loopback.

(** The condition of the comprehension that builds [tunnel_PIDs]. *)
Definition is_tunnel_line (specific_loopback _line : str) : bool :=
  contains (lit "ssh") _line && contains (lit "-L") _line
  && (match pid_pattern_match _line with Some _ => true | None => false end)
  && contains specific_loopback _line.

(** [tunnel_PIDs]: the comprehension over the lines of the process table.
    A line that passes the condition has a match of [pid_pattern], so
    [findall(...)[0]] exists. *)
Definition tunnel_PIDs_of (specific_loopback : str) (lines : list str)
  : list (N * str) :=
  fold_left
    (fun d _line =>
       if is_tunnel_line specific_loopback _line then
         match pid_pattern_findall _line with
         | g :: _ => dict_set d (int_of_digits g) _line
         | [] => d
         end
       else d)
    lines [].

(** The command line [displayNotification] gives to [os.popen], from the
    escaped content and the title. *)
Definition notification_cmd (content title : str) : str :=
  lit "osascript -e "
  ++ quoted (lit "display notification \" ++ quoted (content ++ lit "\")
             ++ lit " with title \" ++ quoted (title ++ lit "\")).

(** The command line that kills one process. *)
Definition kill_cmd (PID : N) : str := lit "sudo kill -9 " ++ str_of_N PID.

(** The rule and the command line of [do_execute_port_redirect]. *)
Definition redirect_rule (source_address source_port target_address target_port : str)
  : str :=
  lit "rdr pass inet proto tcp from any to " ++ source_address ++ lit " port "
  ++ source_port ++ lit " -> " ++ target_address ++ lit " port " ++ target_port.

Definition redirect_cmd (source_address source_port target_address target_port : str)
  : str :=
  lit "echo "
  ++ quoted (redirect_rule source_address source_port target_address target_port)
  ++ lit " | sudo -p " ++ quoted (lit "sudo password: ") ++ lit " pfctl -ef -".

(** The command line that creates a loopback alias. *)
Definition alias_cmd (loopback_ip : str) : str :=
  lit "sudo ifconfig " ++ loopback_interface ++ lit " alias $" ++ loopback_ip.

(** The options of the [ssh] command, from the stripped [ssh_options] of
    the configuration and the key. *)
Definition compose_ssh_options (ssh_key ssh_options : str) : str :=
  let default_ssh_options :=
    lit "-i " ++ ssh_key ++ lit " -o StrictHostKeyChecking=no" in
  if str_eqb ssh_options [] then default_ssh_options
  else if negb (contains (lit "-i") ssh_options)
       then lit "-i " ++ ssh_key ++ lit " " ++ ssh_options
  else ssh_options.

(** [ssh_command] of [do_execute_ssh_tunnel]. *)
Definition ssh_command_of (ssh_options local_address local_port remote_address
  remote_port ssh_user ssh_server_address ssh_server_port : str) : str :=
  lit "sudo ssh " ++ ssh_options ++ lit " -Y -L " ++ local_address ++ lit ":"
  ++ local_port ++ lit ":" ++ remote_address ++ lit ":" ++ remote_port
  ++ lit " -N -f " ++ ssh_user ++ lit "@" ++ ssh_server_address ++ lit " -p "
  ++ ssh_server_port.

(** The local variables [do_execute_ssh_tunnel] computes from the
    configuration before it checks anything. *)
Definition local_port_of (config_dict : tunnel_config) : pyval :=
  py_or (get_local_port config_dict) (get_remote_port config_dict).

Definition ssh_server_port_of (config_dict : tunnel_config) : pyval :=
  py_or (get_ssh_port config_dict) (PInt 22).

Definition ssh_user_of (variables : UserVariables) (config_dict : tunnel_config)
  : str :=
  if truthy_opt (get_ssh_user config_dict) then fmt_opt (get_ssh_user config_dict)
  else local_user variables.

Definition ssh_key_of (variables : UserVariables) (config_dict : tunnel_config)
  : str :=
  if truthy_opt (get_ssh_key config_dict) then fmt_opt (get_ssh_key config_dict)
  else default_ssh_key variables.

Definition ssh_options_of (config_dict : tunnel_config) : str :=
  strip (match get_ssh_options config_dict with Some o => o | None => [] end).

(** [ssh_command] for a configuration. *)
Definition ssh_command_for (variables : UserVariables) (config_dict : tunnel_config)
  : str :=
  ssh_command_of
    (compose_ssh_options (ssh_key_of variables config_dict) (ssh_options_of config_dict))
    (fmt_opt (get_local_address config_dict)) (fmt (local_port_of config_dict))
    (fmt_opt (get_remote_ip config_dict)) (fmt (get_remote_port config_dict))
    (ssh_user_of variables config_dict) (fmt_opt (get_ssh_server config_dict))
    (fmt (ssh_server_port_of config_dict)).

(** [_validate_command] on a command given as a string. *)
Definition _validate_command (cmd : str) : exn + list str :=
  let cmd := strip cmd in
  if str_eqb cmd [] then inl (ValueError (lit "No command provided"))
  else if contains (lit "|") cmd
       then inl (ValueError (lit "Pipe commands not supported at this time"))
  else match shlex_split (strip cmd) with
       | inl msg => inl (ValueError msg)
       | inr [] =>
           inl (ValueError (lit "Command failed to parse into a valid list of parts"))
       | inr formatted_cmd => inr formatted_cmd
       end.

Section Plugin.

Variable os : OS.

(** The module-level flag [debug_enabled]. *)
Variable debug_enabled : bool.

(** [self.variables] *)
Variable variables : UserVariables.

Definition print_debug (msg : str) : M unit :=
  if debug_enabled then print (lit "[DEBUG] " ++ msg) else ret tt.

(** [subprocess.run(_cmd, capture_output=..., universal_newlines=True,
    timeout=...)].  Without a timeout a command that never ends never
    returns: the computation stops there, which [NeverReturns] records.
    The [stdout] of a run whose output is not captured is not read by the
    source and is left empty. *)
Definition subprocess_run (cmd : str) (_cmd : list str) (timeout : option nat)
  (capture_output : bool) : M CompletedProcess :=
  fun h =>
    let h' := h ++ [Run cmd _cmd timeout capture_output] in
    match os_run os h _cmd with
    | Exited rc out =>
        (inr {| args := _cmd; returncode := rc;
                stdout := if capture_output then out else [] |}, h')
    | TimedOut =>
        (inl (match timeout with
              | Some _ => TimeoutExpired _cmd
              | None => NeverReturns _cmd
              end), h')
    end.

(** [_result.check_returncode()] *)
Definition check_returncode (_result : CompletedProcess) : M unit :=
  if Z.eqb (returncode _result) 0 then ret tt
  else raise (CalledProcessError (returncode _result) (args _result)).

Definition _run_cli_command (cmd : str) (timeout : option nat)
  (test capture_output : bool) : M CompletedProcess :=
  print_debug (lit "Executing command: " ++ cmd) ;;
  match _validate_command cmd with
  | inl e => raise e
  | inr _cmd =>
      _result <- subprocess_run cmd _cmd timeout capture_output ;;
      (if test then check_returncode _result else ret tt) ;;
      ret _result
  end.

Definition _run_shell_command_with_pipes (command : str) (print_result : bool)
  (indent : nat) : M str :=
  print_debug (lit "Executing command: " ++ command) ;;
  _output <- (fun h => (inr (os_getoutput os h command), h ++ [GetOutput command])) ;;
  (if print_result then
     match indent with
     | O => print _output
     | S _ =>
         for_each (str_split newline _output)
           (fun _line => print (repeat_str indent (lit " ") ++ _line))
     end
   else ret tt) ;;
  ret _output.

Definition do_prompt_for_sudo : M pyval :=
  _ <- _run_cli_command sudo_validate_cmd None true false ;;
  ret PNone.

Definition displayNotification (content : str) (title : option str) : M pyval :=
  let content := replace_char dquote [backslash; dquote] content in
  let title := if truthy_opt title then fmt_opt title else title_default in
  emit (Popen (notification_cmd content title)) ;;
  ret PNone.

(** The body of the loop of [do_terminate_tunnels] for one entry of
    [tunnel_PIDs]. *)
Definition kill_tunnel (entry : N * str) : M unit :=
  let (PID, tunnel) := entry in
  match firstn 2 (endpoint_findall tunnel) with
  | [local_host_info; remote_host_info] =>
      match server_findall tunnel with
      | _tmp_ssh_server :: _ =>
          print (lit "Killing " ++ local_host_info ++ lit " --> " ++ remote_host_info
                 ++ lit " via " ++ _tmp_ssh_server ++ lit " (PID " ++ str_of_N PID
                 ++ lit ")") ;;
          _ <- _run_cli_command (kill_cmd PID) (Some 30%nat) true true ;;
          ret tt
      | [] => raise (IndexError (lit "list index out of range"))
      end
  | found =>
      raise (ValueError (lit "not enough values to unpack (expected 2, got "
                         ++ str_of_N (N.of_nat (length found)) ++ lit ")"))
  end.

Definition do_terminate_tunnels (loopback_ip : option str) (loopback_port : pyval)
  : M pyval :=
  _cmd_result <- _run_cli_command (lit "ps -ef") (Some 30%nat) true true ;;
  let specific_loopback := specific_loopback_of loopback_ip loopback_port in
  let tunnel_PIDs :=
    tunnel_PIDs_of specific_loopback (str_split newline (stdout _cmd_result)) in
  match tunnel_PIDs with
  | [] =>
      print (lit "No existing SSH tunnels found") ;;
      displayNotification (lit "No existing SSH tunnels found") None ;;
      ret PNone
  | _ :: _ =>
      do_prompt_for_sudo ;;
      for_each tunnel_PIDs kill_tunnel ;;
      displayNotification (lit "Tunnels terminated") None ;;
      ret PNone
  end.

Definition do_verify_loopback_address (loopback_ip : str)
  (allow_all_loopback_ips : bool) : M pyval :=
  assert (negb (str_eqb loopback_ip [])) (lit "No loopback address provided") ;;
  assert (loopback_prefix_match loopback_ip)
    (lit "Invalid loopback address (" ++ loopback_ip ++ lit ")") ;;
  (if allow_all_loopback_ips then ret tt
   else assert (negb (str_eqb loopback_ip (lit "127.0.0.1")))
          (lit "Custom loopback IP is required. As a precaution, this script requires a loopback IP other than 127.0.0.1")) ;;
  let loopback_ip := strip loopback_ip in
  interfaces_output <- _run_cli_command (lit "ifconfig -a") (Some 30%nat) true true ;;
  match atoms_of loopback_ip with
  | None => raise (PatternOutsideModel loopback_ip)
  | Some atoms =>
      if loopback_search atoms None (stdout interfaces_output) then
        print_debug (lit "Existing loopback alias " ++ loopback_ip ++ lit " found") ;;
        ret PNone
      else
        print_debug (lit "Loopback alias " ++ loopback_ip ++ lit " not found; creating") ;;
        do_prompt_for_sudo ;;
        _ <- _run_cli_command (alias_cmd loopback_ip) (Some 30%nat) true true ;;
        ret PNone
  end.

Definition do_execute_port_redirect
  (source_address source_port target_address target_port : str) : M pyval :=
  do_verify_loopback_address source_address false ;;
  print_debug (lit "Making alias to redirect " ++ source_address ++ lit ":"
               ++ source_port ++ lit " --> " ++ target_address ++ lit ":"
               ++ target_port) ;;
  let _command := redirect_cmd source_address source_port target_address target_port in
  print [] ;;
  _ <- _run_shell_command_with_pipes _command true 5 ;;
  let result :=
    lit "Port Redirection Enabled:" ++ NL ++ NL ++ source_address ++ lit ":"
    ++ source_port ++ lit " --> " ++ target_address ++ lit ":" ++ target_port in
  print (NL ++ result ++ NL) ;;
  displayNotification result None ;;
  ret PNone.

Definition do_verify_ssh_tunnel_available (loopback_ip : str) (loopback_port : pyval)
  : M pyval :=
  print (lit "Checking for existing tunnels " ++ loopback_ip ++ lit ":"
         ++ fmt loopback_port ++ lit "...") ;;
  do_terminate_tunnels (Some loopback_ip) loopback_port ;;
  ret PNone.

Definition do_execute_ssh_tunnel (config_dict : tunnel_config) : M pyval :=
  do_prompt_for_sudo ;;
  let ssh_config_name := get_name config_dict in
  let remote_address := get_remote_ip config_dict in
  let remote_port := get_remote_port config_dict in
  let local_address := get_local_address config_dict in
  let local_port := local_port_of config_dict in
  let ssh_server_address := get_ssh_server config_dict in
  let ssh_server_port := ssh_server_port_of config_dict in
  assert (truthy_opt ssh_config_name) (lit "Error: SSH config must be given a name") ;;
  assert (truthy_opt ssh_server_address) (lit "Error: SSH server address not provided") ;;
  assert (truthy_opt remote_address)
    (lit "Error: Remote address for SSH tunnel not provided") ;;
  assert (truthy remote_port) (lit "Error: Remote port for SSH tunnel not provided") ;;
  assert (truthy_opt local_address) (lit "Error: Loopback address not provided") ;;
  assert (truthy local_port) (lit "Error: Loopback port not provided") ;;
  assert (negb (py_eq ssh_server_port (PInt 22))
          || negb (loopback_prefix_match (fmt_opt ssh_server_address)))
    (lit "Error: SSH server is a loopback IP, and the port is left at 22. This will create a tunnel to your own machine and won't work!") ;;
  do_verify_loopback_address (fmt_opt local_address) false ;;
  do_verify_ssh_tunnel_available (fmt_opt local_address) local_port ;;
  print (lit "Redirecting for " ++ fmt_opt ssh_config_name ++ NL) ;;
  print (lit "From Local:" ++ NL ++ TAB ++ fmt_opt local_address ++ lit ":"
         ++ fmt local_port ++ NL) ;;
  print (lit "To Remote:" ++ NL ++ TAB ++ fmt_opt remote_address ++ lit ":"
         ++ fmt remote_port ++ NL ++ NL) ;;
  let ssh_command := ssh_command_for variables config_dict in
  print (lit "Executing command:" ++ NL ++ NL ++ lit "    " ++ ssh_command ++ NL) ;;
  _ <- _run_cli_command ssh_command (Some 60%nat) true false ;;
  print (NL ++ lit "SSH tunnel complete" ++ NL ++ NL) ;;
  ret PNone.

End Plugin.

(** ** Sample inputs

    Process tables, interface listings and operating systems on which the
    properties below are exercised. *)

Fixpoint argv_eqb (a b : list str) : bool :=
  match a, b with
  | [], [] => true
  | x :: a', y :: b' => str_eqb x y && argv_eqb a' b'
  | _, _ => false
  end.

Definition join_lines (lines : list str) : str :=
  flat_map (fun l => l ++ NL) lines.

(** A line of [ps -ef] for an SSH tunnel: the user id, the process id, the
    parent and the command. *)
Definition ps_line (uid pid : string) (command : string) : str :=
  lit "  " ++ lit uid ++ lit "   " ++ lit pid ++ lit "     1   0 10:00AM ??  0:00.01 "
  ++ lit command.

Definition tunnel_command : string :=
  "ssh -i /keys/id -o StrictHostKeyChecking=no -Y -L 127.0.0.2:5432:10.0.0.5:5432 -N -f alice@bastion.example.com -p 22".

Definition ps_header : str :=
  lit "  UID   PID  PPID   C STIME   TTY           TIME CMD".

(** Three tunnels, with process ids 111, 222 and 333. *)
Definition ps_three : str :=
  join_lines [ps_header;
              ps_line "501" "111" tunnel_command;
              ps_line "501" "222" tunnel_command;
              ps_line "501" "333" tunnel_command].

(** Two tunnels; the command of the first has no [-f] argument. *)
Definition ps_no_server_first : str :=
  join_lines [ps_header;
              ps_line "501" "111" "ssh -Y -L 127.0.0.2:5432:10.0.0.5:5432 -N bastion";
              ps_line "501" "222" tunnel_command].

(** Two tunnels; the command of the first names one endpoint only. *)
Definition ps_one_endpoint_first : str :=
  join_lines [ps_header;
              ps_line "501" "111" "ssh -Y -L 127.0.0.2:5432 -N -f bastion";
              ps_line "501" "222" tunnel_command].

(** No tunnel at all. *)
Definition ps_none : str :=
  join_lines [ps_header; ps_line "0" "1" "/sbin/launchd"].


(** Interface listings with and without the alias 127.0.0.2. *)
Definition ifconfig_with_alias : str :=
  join_lines [lit "lo0: flags=8049<UP,LOOPBACK,RUNNING,MULTICAST> mtu 16384";
              TAB ++ lit "inet 127.0.0.1 netmask 0xff000000";
              TAB ++ lit "inet 127.0.0.2 netmask 0xff000000"].

Definition ifconfig_without_alias : str :=
  join_lines [lit "lo0: flags=8049<UP,LOOPBACK,RUNNING,MULTICAST> mtu 16384";
              TAB ++ lit "inet 127.0.0.1 netmask 0xff000000";
              TAB ++ lit "inet 127.0.0.25 netmask 0xff000000"].

(** An operating system with the process table [ps] and the interface
    listing [ifc], where every command succeeds but those killing a process
    of [failing]. *)
Definition sample_os (ps ifc : str) (failing : list N) : OS := {|
  os_run := fun _ argv =>
    if argv_eqb argv [lit "ps"; lit "-ef"] then Exited 0 ps
    else if argv_eqb argv [lit "ifconfig"; lit "-a"] then Exited 0 ifc
    else if existsb (fun p => argv_eqb argv [lit "sudo"; lit "kill"; lit "-9"; str_of_N p])
              failing
         then Exited 1 []
    else Exited 0 [];
  os_getoutput := fun _ _ => []
|}.

Definition sample_variables : UserVariables := {|
  local_user := lit "me";
  default_ssh_key := lit "/Users/me/.ssh/id_rsa"
|}.

(** The tunnel of the scenario: local 127.0.0.2:5432 to 10.0.0.5:5432
    through alice@bastion.example.com with the key /keys/id. *)
Definition db_config : tunnel_config := {|
  get_name := Some (lit "db");
  get_remote_ip := Some (lit "10.0.0.5");
  get_remote_port := PInt 5432;
  get_local_address := Some (lit "127.0.0.2");
  get_local_port := PInt 5432;
  get_ssh_server := Some (lit "bastion.example.com");
  get_ssh_port := PNone;
  get_ssh_user := Some (lit "alice");
  get_ssh_key := Some (lit "/keys/id");
  get_ssh_options := None
|}.

(** A tunnel through a loopback SSH server with the port left at 22. *)
Definition loopback_server_config : tunnel_config := {|
  get_name := Some (lit "jump");
  get_remote_ip := Some (lit "10.0.0.5");
  get_remote_port := PInt 5432;
  get_local_address := Some (lit "127.0.0.2");
  get_local_port := PNone;
  get_ssh_server := Some (lit "127.0.0.3");
  get_ssh_port := PNone;
  get_ssh_user := None;
  get_ssh_key := None;
  get_ssh_options := None
|}.

(** The external commands of a history: the argument vectors given to
    [subprocess.run], in order. *)
Definition runs (h : list event) : list (list str) :=
  flat_map (fun e => match e with Run _ argv _ _ => [argv] | _ => [] end) h.

(** The command lines given to the shell by [subprocess.getoutput]. *)
Definition shell_commands (h : list event) : list str :=
  flat_map (fun e => match e with GetOutput c => [c] | _ => [] end) h.

(** Every command the plugin starts, whatever the way: the lines given to
    [subprocess.run], to the shell and to [os.popen]. *)
Definition commands (h : list event) : list str :=
  flat_map (fun e => match e with
                     | Run c _ _ _ => [c]
                     | GetOutput c => [c]
                     | Popen c => [c]
                     | Print _ => []
                     end) h.

(** ** Vocabulary of the properties *)

(** [steps m h r evs]: started after the history [h], the computation [m]
    ends with the result [r] and has added the events [evs]. *)
Definition steps {A : Type} (m : M A) (h : list event) (r : exn + A)
  (evs : list event) : Prop :=
  m h = (r, h ++ evs).

(** A character that is part of a word for [strip], for [shlex.split] and
    for the pipe test of [_validate_command]. *)
Definition solid (c : ascii) : bool :=
  negb (isspace c) && negb (is_quote c) && negb (is_escape c)
  && negb (ascii_eqb (ascii_of_N 124) c).

(** The tokens [toks] followed by what the tokenizer gives from there. *)
Definition after_tokens (toks : list str) (r : str + list str) : str + list str :=
  fold_right push_token r toks.


(** Every character of [s] passes the test [p]. *)
Definition all_chars (p : ascii -> bool) (s : str) : Prop :=
  Forall (fun c => p c = true) s.




(** What [print_debug msg] adds to the history. *)
Definition debug_events (debug_enabled : bool) (msg : str) : list event :=
  if debug_enabled then [Print (lit "[DEBUG] " ++ msg)] else [].

(** What [_run_cli_command cmd] adds to the history when [cmd] is valid. *)
Definition run_events (debug_enabled : bool) (cmd : str) (argv : list str)
  (timeout : option nat) (capture_output : bool) : list event :=
  debug_events debug_enabled (lit "Executing command: " ++ cmd)
  ++ [Run cmd argv timeout capture_output].

(** The argument vectors of the commands of the module. *)
Definition ps_argv : list str := [lit "ps"; lit "-ef"].
Definition ifconfig_argv : list str := [lit "ifconfig"; lit "-a"].
Definition sudo_validate_argv : list str :=
  [lit "sudo"; lit "-v"; lit "-p"; lit "sudo password: "].
Definition kill_argv (PID : N) : list str :=
  [lit "sudo"; lit "kill"; lit "-9"; str_of_N PID].
Definition alias_argv (loopback_ip : str) : list str :=
  [lit "sudo"; lit "ifconfig"; lit "lo0"; lit "alias"; lit "$" ++ loopback_ip].

(** A command that exits with status 0 whenever it is run. *)
Definition succeeds (os : OS) (argv : list str) : Prop :=
  forall h, exists out, os_run os h argv = Exited 0 out.

(** A command that prints [out] and exits with status 0 whenever it is run. *)
Definition yields (os : OS) (argv : list str) (out : str) : Prop :=
  forall h, os_run os h argv = Exited 0 out.

(** A command that exits with the status [rc] whenever it is run. *)
Definition exits_with (os : OS) (argv : list str) (rc : Z) : Prop :=
  forall h, exists out, os_run os h argv = Exited rc out.

(** The loop body of [do_terminate_tunnels] gets through its two
    extractions on this line: there are two endpoint tokens and an
    argument after [-f]. *)
Definition extractable (tunnel : str) : bool :=
  match firstn 2 (endpoint_findall tunnel), server_findall tunnel with
  | [_; _], _ :: _ => true
  | _, _ => false
  end.

(** [address] stands in [text] as a word of its own: the characters next
    to it, if any, are not word characters. *)
Definition occurs_as_word (address text : str) : Prop :=
  exists before after,
    text = before ++ address ++ after
    /\ wordb (last (map Some before) None) = false
    /\ wordb (hd_error after) = false.

(** The process table has the text [table], and [specific_loopback]
    selects these entries of it. *)
Definition selected (loopback_ip : option str) (loopback_port : pyval)
  (table : str) : list (N * str) :=
  tunnel_PIDs_of (specific_loopback_of loopback_ip loopback_port)
    (str_split newline table).

(** Is this exception one of the two a line without its tokens raises? *)
Definition is_parse_error (e : exn) : bool :=
  match e with
  | ValueError _ | IndexError _ => true
  | _ => false
  end.

Definition is_assertion_error (e : exn) : bool :=
  match e with
  | AssertionError _ => true
  | _ => false
  end.

(** The message of the last assertion of [do_execute_ssh_tunnel]. *)
Definition loopback_server_message : str :=
  lit "Error: SSH server is a loopback IP, and the port is left at 22. This will create a tunnel to your own machine and won't work!".

(** ** Actions that end the program

    The methods behind the menu entries may end with [sys.exit] or with an
    exception other than those of [exn]: a [halt] is how such a call stops,
    and an [Act] is a computation that may stop that way. *)

Inductive halt : Type :=
| Raised (e : exn)
| KeyError (key : str)
| AttributeError (msg : str)
| SystemExit (code : option Z).

Definition Act (A : Type) : Type := list event -> (halt + A) * list event.

Definition act_ret {A : Type} (a : A) : Act A := fun h => (inr a, h).

Definition halt_with {A : Type} (x : halt) : Act A := fun h => (inl x, h).

Definition act_bind {A B : Type} (m : Act A) (k : A -> Act B) : Act B :=
  fun h =>
    match m h with
    | (inr a, h') => k a h'
    | (inl x, h') => (inl x, h')
    end.

(** A computation of the networking section run inside an action. *)
Definition lift {A : Type} (m : M A) : Act A :=
  fun h =>
    match m h with
    | (inr a, h') => (inr a, h')
    | (inl e, h') => (inl (Raised e), h')
    end.

(** [sys.exit(code)]; [sys.exit()] is [sys_exit None]. *)
Definition sys_exit {A : Type} (code : option Z) : Act A :=
  halt_with (SystemExit code).

Declare Scope act_scope.
Delimit Scope act_scope with act.
Notation "x <- m ;; k" := (act_bind m (fun x => k))
  (at level 61, m at next level, right associativity) : act_scope.
Notation "m ;; k" := (act_bind m (fun _ => k))
  (at level 61, right associativity) : act_scope.

(** [acts m h r evs]: started after [h], the action [m] ends with [r] and
    has added the events [evs]. *)
Definition acts {A : Type} (m : Act A) (h : list event) (r : halt + A)
  (evs : list event) : Prop :=
  m h = (r, h ++ evs).

(** [s.replace(old, new)] for a non-empty [old]: the occurrences are
    replaced from left to right and do not overlap. *)
Fixpoint replace_from (old new : str) (skip : nat) (s : str) : str :=
  match s with
  | [] => []
  | c :: t =>
      match skip with
      | S k => replace_from old new k t
      | O =>
          if startswith old s then new ++ replace_from old new (pred (length old)) t
          else c :: replace_from old new 0 t
      end
  end.

Definition replace (old new s : str) : str := replace_from old new 0 s.

(** [re.sub('^' + prefix, '', s)] for a [prefix] of plain characters. *)
Definition remove_prefix (prefix s : str) : str :=
  if startswith prefix s then skipn (length prefix) s else s.

(** A section of the configuration: names and the text of their values.
    (Values that the loader has turned into lists or into booleans are not
    modelled.) *)
Definition section : Type := list (str * str).

(** [d.get(key)] *)
Fixpoint sec_get (key : str) (d : section) : option str :=
  match d with
  | [] => None
  | (k, v) :: rest => if str_eqb k key then Some v else sec_get key rest
  end.

(** A value of the section [BitBar.networking]: a plain value or a
    subsection. *)
Inductive net_value : Type :=
| Scalar (s : str)
| Section_ (d : section).

Definition networking : Type := list (str * net_value).

Fixpoint net_get (key : str) (cfg : networking) : option net_value :=
  match cfg with
  | [] => None
  | (k, v) :: rest => if str_eqb k key then Some v else net_get key rest
  end.

(** Truth value of what [cfg.get(name)] gives. *)
Definition net_truthy (o : option net_value) : bool :=
  match o with
  | None => false
  | Some (Scalar s) => negb (str_eqb s [])
  | Some (Section_ d) => match d with [] => false | _ :: _ => true end
  end.

Definition pyval_of (o : option str) : pyval :=
  match o with
  | Some s => PStr s
  | None => PNone
  end.

(** A subsection as [do_execute_ssh_tunnel] reads it. *)
Definition tunnel_config_of (d : section) : tunnel_config := {|
  get_name := sec_get (lit "name") d;
  get_remote_ip := sec_get (lit "remote_ip") d;
  get_remote_port := pyval_of (sec_get (lit "remote_port") d);
  get_local_address := sec_get (lit "local_address") d;
  get_local_port := pyval_of (sec_get (lit "local_port") d);
  get_ssh_server := sec_get (lit "ssh_server") d;
  get_ssh_port := pyval_of (sec_get (lit "ssh_port") d);
  get_ssh_user := sec_get (lit "ssh_user") d;
  get_ssh_key := sec_get (lit "ssh_key") d;
  get_ssh_options := sec_get (lit "ssh_options") d
|}.

(** [check_for_custom_networking_configs]: the entries appended to
    [ssh_tunnel_configs] and to [port_redirect_configs], each the name of
    the subsection and the identifier of its action. *)
Fixpoint check_for_custom_networking_configs (cfg : networking)
  : list (option str * str) * list (option str * str) :=
  match cfg with
  | [] => ([], [])
  | (_var, v) :: rest =>
      let (ssh_tunnel_configs, port_redirect_configs) :=
        check_for_custom_networking_configs rest in
      match v with
      | Section_ d =>
          match sec_get (lit "type") d with
          | Some t =>
              if str_eqb t (lit "ssh") then
                ((sec_get (lit "name") d, lit "ssh_tunnel_custom_" ++ _var)
                   :: ssh_tunnel_configs, port_redirect_configs)
              else if str_eqb t (lit "redirect") then
                (ssh_tunnel_configs,
                 (sec_get (lit "name") d, lit "port_redirect_custom_" ++ _var)
                   :: port_redirect_configs)
              else (ssh_tunnel_configs, port_redirect_configs)
          | None => (ssh_tunnel_configs, port_redirect_configs)
          end
      | Scalar _ => (ssh_tunnel_configs, port_redirect_configs)
      end
  end.

(** The title [displayNotificationError] passes on. *)
Definition beep_cmd : str := lit "osascript -e " ++ quoted (lit "beep").

(** The command line of [do_terminate_port_redirection]. *)
Definition pfctl_reset_cmd : str := lit "sudo pfctl -f /etc/pf.conf".
Definition pfctl_reset_argv : list str :=
  [lit "sudo"; lit "pfctl"; lit "-f"; lit "/etc/pf.conf"].

(** The command [make_upgrade_command] returns for a version. *)
Definition upgrade_command_for (version : str) : str :=
  lit "bash <(curl https://s3-us-west-1.amazonaws.com/lhub-installer/installer-m"
  ++ version ++ lit ".sh)".

(** [re.match(r'^\d{2,}\.\d+$', version)]: at least two digits, a dot, at
    least one digit, and then the end of the text or a last newline. *)
Definition upgrade_version_match (version : str) : bool :=
  let (major, r1) := span isdigit version in
  match r1 with
  | c :: r2 =>
      let (minor, r3) := span isdigit r2 in
      (2 <=? length major)%nat && is_dot c && (1 <=? length minor)%nat
      && (str_eqb r3 [] || str_eqb r3 NL)
  | [] => false
  end.

Section Actions.

Variable os : OS.
Variable debug_enabled : bool.
Variable variables : UserVariables.

#[local] Close Scope py_scope.
#[local] Open Scope act_scope.

Definition displayNotificationError (content : str) (title : option str)
  (print_stderr : bool) : Act pyval :=
  lift (emit (Popen beep_cmd)) ;;
  (if print_stderr
   then lift (print (NL ++ lit "Failed with error: " ++ content ++ NL))
   else act_ret tt) ;;
  lift (displayNotification (lit "Failed with error: " ++ content) title) ;;
  sys_exit (Some 1%Z).

Definition make_upgrade_command (version : option str) : Act str :=
  if negb (truthy_opt version) then act_ret (upgrade_command_for (lit "XX.YY"))
  else
    let version := strip (replace (lit "m") [] (fmt_opt version)) in
    (if str_eqb (strip version) [] || negb (upgrade_version_match version)
     then displayNotificationError (lit "Invalid LogicHub version") None false
     else act_ret PNone) ;;
    act_ret (upgrade_command_for version).

Definition do_terminate_port_redirection : M pyval :=
  bind (print (lit "Resetting port forwarding/redirection...")) (fun _ =>
  bind (_run_cli_command os debug_enabled pfctl_reset_cmd (Some 30%nat) true true)
    (fun _ =>
  let output_msg := lit "Port redirection terminated" in
  bind (print output_msg) (fun _ =>
  bind (displayNotification output_msg None) (fun _ =>
  ret PNone)))).

Definition action_terminate_port_redirection : M pyval :=
  bind (do_prompt_for_sudo os debug_enabled) (fun _ => do_terminate_port_redirection).

Definition do_terminate_loopback_aliases : M pyval :=
  bind (print (lit "Feature not yet enabled")) (fun _ => ret PNone).

Definition action_terminate_loopback_aliases : M pyval :=
  do_terminate_loopback_aliases.

Definition action_terminate_tunnels : M pyval :=
  do_terminate_tunnels os debug_enabled None PNone.

Definition action_terminate_all : Act pyval :=
  lift (do_prompt_for_sudo os debug_enabled) ;;
  lift (print (NL ++ lit "Terminating all SSH tunnels tunnels..." ++ NL)) ;;
  lift (do_terminate_tunnels os debug_enabled None PNone) ;;
  lift (print (NL ++ lit "Terminating port redirection..." ++ NL)) ;;
  lift do_terminate_port_redirection ;;
  lift (print (NL ++ lit "Terminating all loopback aliases..." ++ NL)) ;;
  lift do_terminate_loopback_aliases ;;
  lift (print (NL ++ lit "Done. You may close the terminal." ++ NL)) ;;
  sys_exit None.

(** [get_var] of [port_redirect_custom]. *)
Definition get_var (config_dict : section) (var_name : str) : Act str :=
  let var := strip (match sec_get var_name config_dict with
                    | Some v => v
                    | None => []
                    end) in
  (if str_eqb var []
   then displayNotificationError
          (lit "variable " ++ var_name ++ lit " not found in redirect config")
          None true
   else act_ret PNone) ;;
  act_ret var.

(** [port_redirect_custom] for the action identifier [argv1] (which is
    [sys.argv[1]]) and the section [BitBar.networking]. *)
Definition port_redirect_custom (argv1 : str) (cfg : networking) : Act pyval :=
  let config_name := remove_prefix (lit "port_redirect_custom_") argv1 in
  let config_dict := net_get config_name cfg in
  (if negb (net_truthy config_dict)
   then displayNotificationError
          (lit "Port redirect config [" ++ config_name ++ lit "] not found") None true
   else act_ret PNone) ;;
  match config_dict with
  | Some (Section_ d) =>
      source_address <- get_var d (lit "source_address") ;;
      source_port <- get_var d (lit "source_port") ;;
      target_address <- get_var d (lit "target_address") ;;
      target_port <- get_var d (lit "target_port") ;;
      let optional_exit_message := sec_get (lit "optional_exit_message") d in
      lift (do_prompt_for_sudo os debug_enabled) ;;
      match sec_get (lit "name") d with
      | None => halt_with (KeyError (lit "name"))
      | Some name =>
          lift (print (NL ++ lit "Setting up redirection for config "
                       ++ quoted name ++ lit "..." ++ NL)) ;;
          lift (do_execute_port_redirect os debug_enabled source_address source_port
                  target_address target_port) ;;
          lift (print (lit "Done. You may close the terminal." ++ NL)) ;;
          (if truthy_opt optional_exit_message
           then lift (print (replace (lit "\t") TAB
                               (replace (lit "\n") NL (fmt_opt optional_exit_message))))
           else act_ret tt) ;;
          act_ret PNone
      end
  | _ => halt_with (AttributeError (lit "'str' object has no attribute 'get'"))
  end.

(** [ssh_tunnel_custom] for the action identifier [argv1] and the section
    [BitBar.networking]. *)
Definition ssh_tunnel_custom (argv1 : str) (cfg : networking) : Act pyval :=
  let config_name := remove_prefix (lit "ssh_tunnel_custom_") argv1 in
  (if negb (net_truthy (net_get config_name cfg))
   then displayNotificationError
          (lit "SSH tunnel config [" ++ config_name ++ lit "] not found") None true
   else act_ret PNone) ;;
  match net_get config_name cfg with
  | Some (Section_ d) =>
      lift (do_execute_ssh_tunnel os debug_enabled variables (tunnel_config_of d))
  | _ =>
      lift (do_prompt_for_sudo os debug_enabled) ;;
      halt_with (AttributeError (lit "'str' object has no attribute 'get'"))
  end.

End Actions.

(** ** The menu

    The text of the menu and the table of the actions, which
    [BitBar.__init__] builds with the methods below. *)

(** [namedtuple("Action", ["id", "name", "action"])]; [callable] is the
    type of the bound methods given as actions. *)
Module Action.
Record t (callable : Type) : Type := make {
  id : str;
  name : option str;
  action : callable
}.
Arguments make {callable}.
Arguments id {callable}.
Arguments name {callable}.
Arguments action {callable}.
End Action.

(** A [dict] with text keys, in insertion order: [d[k] = v] and [d.get(k)]. *)
Fixpoint set_item {V : Type} (d : list (str * V)) (k : str) (v : V)
  : list (str * V) :=
  match d with
  | [] => [(k, v)]
  | (k', v') :: rest =>
      if str_eqb k' k then (k, v) :: rest else (k', v') :: set_item rest k v
  end.

Fixpoint get_item {V : Type} (d : list (str * V)) (k : str) : option V :=
  match d with
  | [] => None
  | (k', v) :: rest => if str_eqb k' k then Some v else get_item rest k
  end.

(** The fields of a [BitBar] object that the menu methods use. *)
Record BitBar (callable : Type) : Type := {
  script_name : str;
  bitbar_menu_output : str;
  action_list : list (str * Action.t callable)
}.
Arguments script_name {callable}.
Arguments bitbar_menu_output {callable}.
Arguments action_list {callable}.

(** The [TypeError] of an operation on [None] where text is required. *)
Inductive type_error : Type := TypeError.

Definition underscore : ascii := ascii_of_N 95.

(** [re.sub(r'\W', "_", name)] *)
Definition sub_nonword (name : str) : str :=
  map (fun c => if isword c then c else underscore) name.

Section Menu.

Variable callable : Type.

Definition print_in_bitbar_menu (self : BitBar callable) (msg : str)
  : BitBar callable :=
  let output :=
    if negb (str_eqb (bitbar_menu_output self) [])
    then bitbar_menu_output self ++ NL
    else bitbar_menu_output self in
  {| script_name := script_name self;
     bitbar_menu_output := output ++ msg;
     action_list := action_list self |}.

(** [make_action]: the object after the call and the value returned, or
    the [TypeError] of a [name] that is [None] where its text is needed;
    nothing has been changed when that error is raised. *)
Definition make_action (self : BitBar callable) (name : option str)
  (action : option callable) (action_id : option str) (menu_depth : nat)
  (alternate terminal : bool)
  : type_error + BitBar callable * option (Action.t callable) :=
  match
    match menu_depth, name with
    | O, _ => inr (fmt_opt name)
    | S _, Some text => inr (repeat_str menu_depth (lit "--") ++ lit " " ++ text)
    | S _, None => inl TypeError
    end
  with
  | inl e => inl e
  | inr menu_name =>
      let action_string := if alternate then lit " alternate=true" else [] in
      match action with
      | None =>
          inr (print_in_bitbar_menu self (menu_name ++ lit " | " ++ action_string),
               None)
      | Some action =>
          match
            if truthy_opt action_id then inr (fmt_opt action_id)
            else match name with
                 | Some text => inr (sub_nonword text)
                 | None => inl TypeError
                 end
          with
          | inl e => inl e
          | inr action_id =>
              let _var := Action.make action_id name action in
              let self := {| script_name := script_name self;
                             bitbar_menu_output := bitbar_menu_output self;
                             action_list := set_item (action_list self) action_id _var |} in
              let terminal := if terminal then lit "true" else lit "false" in
              inr (print_in_bitbar_menu self
                     (menu_name ++ lit " | " ++ action_string ++ lit " bash="
                      ++ quoted (script_name self) ++ lit " param1="
                      ++ quoted action_id ++ lit " terminal=" ++ terminal),
                   Some _var)
          end
      end
  end.

End Menu.

Arguments print_in_bitbar_menu {callable}.
Arguments make_action {callable}.

(** ** The values of the configuration

    What [json.loads(json.dumps(x))] returns: [None], booleans, integers,
    text, lists, and dicts with text keys in the order of their
    insertion.  On such a value the round trip through JSON changes
    nothing. *)

#[warnings="-register-all"]
Inductive json : Type :=
| JNull
| JBool (b : bool)
| JInt (z : Z)
| JStr (s : str)
| JList (items : list json)
| JDict (items : list (str * json)).

(** [c.lower()] for a character of Latin-1. *)
Definition lower_char (c : ascii) : ascii :=
  let n := code c in
  if between 65 90 n || between 192 214 n || between 216 222 n
  then ascii_of_N (n + 32)
  else c.

(** [s.lower()] *)
Definition lower (s : str) : str := map lower_char s.

Definition convert_boolean (_var : json) : json :=
  match _var with
  | JStr s =>
      let _var2 := lower (strip s) in
      if str_eqb _var2 (lit "yes") || str_eqb _var2 (lit "true") then JBool true
      else if str_eqb _var2 (lit "no") || str_eqb _var2 (lit "false") then JBool false
      else _var
  | _ => _var
  end.

(** [a < b] on text: the order of the code points, then of the lengths. *)
Fixpoint str_ltb (a b : str) : bool :=
  match a, b with
  | _, [] => false
  | [], _ :: _ => true
  | x :: a', y :: b' =>
      (code x <? code y) || ((code x =? code y) && str_ltb a' b')
  end.

Definition str_leb (a b : str) : bool := negb (str_ltb b a).

(** [sorted(keys)] on text: the keys in ascending order, equal keys in the
    order they had. *)
Fixpoint insert_sorted (k : str) (l : list str) : list str :=
  match l with
  | [] => [k]
  | x :: rest => if str_ltb x k then x :: insert_sorted k rest else k :: l
  end.

Definition sorted (l : list str) : list str := fold_right insert_sorted [] l.

(** [d[k]] for a key that is present. *)
Definition item {V : Type} (default : V) (d : list (str * V)) (k : str) : V :=
  match get_item d k with
  | Some v => v
  | None => default
  end.

(** [sort_dict].  The test [_safe_dict is list] compares the value with
    the type [list] itself and never holds, so a list is handled by
    [convert_boolean] as any value that is not a dict.  [values] is the
    table of [sort_dict(_safe_dict[_key])] for the keys of the dict. *)
Fixpoint sort_dict (_var : json) : json :=
  match _var with
  | JDict _safe_dict =>
      let values :=
        (fix values (items : list (str * json)) : list (str * json) :=
           match items with
           | [] => []
           | (_key, v) :: rest => (_key, sort_dict v) :: values rest
           end) _safe_dict in
      JDict (fold_left
               (fun new_dict _key => set_item new_dict _key (item JNull values _key))
               (sorted (map fst _safe_dict)) [])
  | _ => convert_boolean _var
  end.

(** ** Vocabulary of the further properties *)

(** [sep.join(parts)] *)
Fixpoint join (sep : str) (parts : list str) : str :=
  match parts with
  | [] => []
  | [p] => p
  | p :: rest => p ++ sep ++ join sep rest
  end.

Definition pipe : ascii := ascii_of_N 124.

(** [text] is [address] where each dot of [address] may have become any
    character but a newline. *)
Definition dot_similar (address text : str) : Prop :=
  Forall2 (fun a c => if is_dot a then ascii_eqb c newline = false else a = c)
    address text.

(** The parameters [do_execute_ssh_tunnel] requires are all present. *)
Definition required_present (config_dict : tunnel_config) : bool :=
  truthy_opt (get_name config_dict) && truthy_opt (get_ssh_server config_dict)
  && truthy_opt (get_remote_ip config_dict) && truthy (get_remote_port config_dict)
  && truthy_opt (get_local_address config_dict)
  && truthy (local_port_of config_dict).

(** The runs of [do_terminate_tunnels] when everything succeeds: [ps -ef],
    and with entries selected the sudo validation and a kill for each. *)
Definition termination_runs (entries : list (N * str)) : list (list str) :=
  ps_argv ::
  match entries with
  | [] => []
  | _ :: _ => sudo_validate_argv :: map kill_argv (map fst entries)
  end.

(** The keys of a dictionary. *)
Definition keys (d : list (N * str)) : list N := map fst d.

(** What [displayNotificationError content] adds to the history before it
    ends the program. *)
Definition error_events (content : str) (print_stderr : bool) : list event :=
  Popen beep_cmd
  :: (if print_stderr
      then [Print (NL ++ lit "Failed with error: " ++ content ++ NL)]
      else [])
  ++ [Popen (notification_cmd
               (replace_char dquote [backslash; dquote]
                  (lit "Failed with error: " ++ content))
               title_default)].

(** The value [get_var] of [port_redirect_custom] reads for a name. *)
Definition var_of (d : section) (var_name : str) : str :=
  strip (match sec_get var_name d with
         | Some v => v
         | None => []
         end).

(** The variables [port_redirect_custom] reads, in the order it reads
    them, and the first of them that is missing or blank. *)
Definition redirect_vars : list str :=
  [lit "source_address"; lit "source_port"; lit "target_address";
   lit "target_port"].

Definition first_blank (d : section) : option str :=
  find (fun v => str_eqb (var_of d v) []) redirect_vars.

(** The prefixes of the identifiers of the custom actions. *)
Definition ssh_prefix : str := lit "ssh_tunnel_custom_".
Definition redirect_prefix : str := lit "port_redirect_custom_".

(** The names of the subsections of [BitBar.networking]. *)
Definition names (cfg : networking) : list str := map fst cfg.

(** What [action_terminate_all] does before it terminates the tunnels. *)
Definition terminate_all_prelude (debug_enabled : bool) : list event :=
  run_events debug_enabled sudo_validate_cmd sudo_validate_argv None false
  ++ [Print (NL ++ lit "Terminating all SSH tunnels tunnels..." ++ NL)].

(** The letter that [make_upgrade_command] removes. *)
Definition em : ascii := ascii_of_N 109.

(** What a computation adds to the history [h]. *)
Definition added {A : Type} (m : M A) (h : list event) : list event :=
  skipn (length h) (snd (m h)).

(** The messages without the empty ones they start with. *)
Fixpoint skip_empty (msgs : list str) : list str :=
  match msgs with
  | [] :: rest => skip_empty rest
  | _ => msgs
  end.

(** Two names that differ only where neither has a word character. *)
Definition same_words (name1 name2 : str) : Prop :=
  Forall2 (fun c1 c2 => c1 = c2 \/ (isword c1 = false /\ isword c2 = false))
    name1 name2.

(** The identifier [make_action] registers an action under. *)
Definition identifier_of (name : str) (action_id : option str) : str :=
  if truthy_opt action_id then fmt_opt action_id else sub_nonword name.

(** Keys in ascending order. *)
Definition ascending (l : list str) : Prop :=
  Sorted (fun a b => str_leb a b = true) l.

(** No dict of the value, at any depth of dicts, has a key twice. *)
Fixpoint distinct_keys (v : json) : Prop :=
  match v with
  | JDict d =>
      NoDup (map fst d)
      /\ (fix all (items : list (str * json)) : Prop :=
            match items with
            | [] => True
            | (_, x) :: rest => distinct_keys x /\ all rest
            end) d
  | _ => True
  end.

(** The notification of a finished reset of the port redirection. *)
Definition reset_notification : event :=
  Popen (notification_cmd (lit "Port redirection terminated") title_default).

(** The text [do_execute_port_redirect] prints and notifies at its end. *)
Definition redirect_result (source_address source_port target_address
  target_port : str) : str :=
  lit "Port Redirection Enabled:" ++ NL ++ NL ++ source_address ++ lit ":"
  ++ source_port ++ lit " --> " ++ target_address ++ lit ":" ++ target_port.

(** A command that has exited with the status 0. *)
Definition exited_ok (answer : run_outcome) : bool :=
  match answer with
  | Exited rc _ => Z.eqb rc 0
  | TimedOut => false
  end.

(** What the system answers to the sudo validation of
    [action_terminate_port_redirection] started after [h], and to the
    reset that follows it. *)
Definition sudo_answer (os : OS) (debug_enabled : bool) (h : list event)
  : run_outcome :=
  os_run os
    (h ++ debug_events debug_enabled (lit "Executing command: " ++ sudo_validate_cmd))
    sudo_validate_argv.

Definition reset_answer (os : OS) (debug_enabled : bool) (h : list event)
  : run_outcome :=
  os_run os
    (((h ++ run_events debug_enabled sudo_validate_cmd sudo_validate_argv None false)
      ++ [Print (lit "Resetting port forwarding/redirection...")])
     ++ debug_events debug_enabled (lit "Executing command: " ++ pfctl_reset_cmd))
    pfctl_reset_argv.

(** ** Further sample inputs *)

(** A system like [sample_os] on which every [sudo ssh] command exits with
    the status 255. *)
Definition ssh_failing_os (ps ifc : str) : OS := {|
  os_run := fun h argv =>
    match argv with
    | _ :: second :: _ =>
        if str_eqb second (lit "ssh") then Exited 255 []
        else os_run (sample_os ps ifc []) h argv
    | _ => os_run (sample_os ps ifc []) h argv
    end;
  os_getoutput := fun _ _ => []
|}.

(** A system like [sample_os] on which the sudo validation is refused. *)
Definition sudo_refusing_os (ps ifc : str) : OS := {|
  os_run := fun h argv =>
    if argv_eqb argv [lit "sudo"; lit "-v"; lit "-p"; lit "sudo password: "]
    then Exited 1 []
    else os_run (sample_os ps ifc []) h argv;
  os_getoutput := fun _ _ => []
|}.

(** The argument vector of the [ssh] command of [db_config]. *)
Definition db_ssh_argv : list str :=
  [lit "sudo"; lit "ssh"; lit "-i"; lit "/keys/id"; lit "-o";
   lit "StrictHostKeyChecking=no"; lit "-Y"; lit "-L";
   lit "127.0.0.2:5432:10.0.0.5:5432"; lit "-N"; lit "-f";
   lit "alice@bastion.example.com"; lit "-p"; lit "22"].

(** The tunnel of the scenario with a pipe in its options. *)
Definition pipe_config : tunnel_config := {|
  get_name := Some (lit "db");
  get_remote_ip := Some (lit "10.0.0.5");
  get_remote_port := PInt 5432;
  get_local_address := Some (lit "127.0.0.2");
  get_local_port := PInt 5432;
  get_ssh_server := Some (lit "bastion.example.com");
  get_ssh_port := PNone;
  get_ssh_user := Some (lit "alice");
  get_ssh_key := Some (lit "/keys/id");
  get_ssh_options := Some (lit "-o ProxyCommand='nc jump | cat'")
|}.

(** A tunnel through a loopback SSH server whose port is the text 22, as
    read from the configuration file. *)
Definition text_port_config : tunnel_config := {|
  get_name := Some (lit "jump");
  get_remote_ip := Some (lit "10.0.0.5");
  get_remote_port := PStr (lit "5432");
  get_local_address := Some (lit "127.0.0.2");
  get_local_port := PNone;
  get_ssh_server := Some (lit "127.0.0.3");
  get_ssh_port := PStr (lit "22");
  get_ssh_user := None;
  get_ssh_key := None;
  get_ssh_options := None
|}.

Definition text_port_ssh_argv : list str :=
  [lit "sudo"; lit "ssh"; lit "-i"; lit "/Users/me/.ssh/id_rsa"; lit "-o";
   lit "StrictHostKeyChecking=no"; lit "-Y"; lit "-L";
   lit "127.0.0.2:5432:10.0.0.5:5432"; lit "-N"; lit "-f";
   lit "me@127.0.0.3"; lit "-p"; lit "22"].


(** A tunnel, a redirect whose values have blanks around them, and a
    redirect whose target address is blank and whose target port is
    missing. *)
Definition db_section : section :=
  [(lit "type", lit "ssh"); (lit "name", lit "db");
   (lit "remote_ip", lit "10.0.0.5"); (lit "remote_port", lit "5432");
   (lit "local_address", lit "127.0.0.2");
   (lit "ssh_server", lit "bastion.example.com"); (lit "ssh_user", lit "alice");
   (lit "ssh_key", lit "/keys/id")].

Definition web_section : section :=
  [(lit "type", lit "redirect"); (lit "name", lit "web");
   (lit "source_address", lit " 127.0.0.2 "); (lit "source_port", lit "443");
   (lit "target_address", lit "10.0.0.5"); (lit "target_port", lit "8443 ");
   (lit "optional_exit_message", lit "Open https://127.0.0.2\nwhen ready")].

Definition broken_section : section :=
  [(lit "type", lit "redirect"); (lit "name", lit "broken");
   (lit "source_address", lit "127.0.0.2"); (lit "source_port", lit "443");
   (lit "target_address", lit "  ")].

(** The section [BitBar.networking] of the scenario. *)
Definition sample_networking : networking :=
  [(lit "broken", Section_ broken_section); (lit "db", Section_ db_section);
   (lit "interface", Scalar (lit "lo0")); (lit "web", Section_ web_section)].

(** A menu with nothing printed and no action, whose actions are numbers. *)
Definition empty_menu : BitBar nat := {|
  script_name := lit "/plugins/LHUB.py";
  bitbar_menu_output := [];
  action_list := []
|}.

(** A configuration as the loader gives it to [sort_dict]. *)
Definition sample_config : json :=
  JDict [(lit "main", JDict [(lit "local_user", JStr (lit "me"));
                             (lit "default_ssh_key", JStr (lit "id_rsa"))]);
         (lit "BitBar", JDict [(lit "status_bar_style", JStr (lit "logo"));
                               (lit "debug_output_enabled", JStr (lit " Yes "));
                               (lit "clipboard_update_notifications",
                                JStr (lit "false"))]);
         (lit "BitBar.networking",
          JDict [(lit "web", JDict [(lit "type", JStr (lit "redirect"));
                                    (lit "name", JStr (lit "web"))]);
                 (lit "db", JDict [(lit "type", JStr (lit "ssh"));
                                   (lit "name", JStr (lit "db"))])])].

Definition sample_config_items : list (str * json) :=
  match sample_config with
  | JDict d => d
  | _ => []
  end.

(** A system like [sample_os] whose shell answers every command with a
    refusal of sudo. *)
Definition refusing_shell_os (ps ifc : str) : OS := {|
  os_run := os_run (sample_os ps ifc []);
  os_getoutput := fun _ _ => lit "sudo: 3 incorrect password attempts"
|}.








(** Closes the goals of a list of entries computed from a sample table. *)
Ltac sample_entries :=
  match goal with
  | |- Forall _ ?l =>
      let l' := eval vm_compute in l in
      replace l with l' by (vm_compute; reflexivity);
      repeat (constructor;
              [first [ vm_compute; reflexivity
                     | intros ?; eexists; vm_compute; reflexivity ] |]);
      try constructor
  end.

(** Closes the goal that the names of a sample configuration differ. *)
Ltac distinct_names :=
  repeat (constructor; [vm_compute; intuition discriminate|]); constructor.

(** * Properties *)

(** ** Characters and strings *)

Ltac ascii_cases c :=
  destruct c as [[] [] [] [] [] [] [] []]; vm_compute;
  try reflexivity; try discriminate; try congruence.

Lemma digit_not_space (c : ascii) : isdigit c = true -> isspace c = false.
Proof. ascii_cases c. Qed.


Lemma digit_is_word (c : ascii) : isdigit c = true -> isword c = true.
Proof. ascii_cases c. Qed.

Lemma word_not_space (c : ascii) : isword c = true -> isspace c = false.
Proof. ascii_cases c. Qed.


Lemma colon_not_host (c : ascii) : is_colon c = true -> host_char c = false.
Proof. unfold host_char. intros ->. rewrite orb_true_r. reflexivity. Qed.

Lemma blank_is_space (c : ascii) : is_blank c = true -> isspace c = true.
Proof. ascii_cases c. Qed.

Lemma shlex_space_is_space (c : ascii) : shlex_space c = true -> isspace c = true.
Proof. ascii_cases c. Qed.

Lemma ascii_eqb_refl (c : ascii) : ascii_eqb c c = true.
Proof. apply Ascii.eqb_refl. Qed.

Lemma ascii_eqb_eq (a b : ascii) : ascii_eqb a b = true <-> a = b.
Proof. apply Ascii.eqb_eq. Qed.

Lemma str_eqb_refl (s : str) : str_eqb s s = true.
Proof.
  induction s as [|c s IH]; simpl; [reflexivity|].
  rewrite ascii_eqb_refl. exact IH.
Qed.

Lemma str_eqb_eq (a b : str) : str_eqb a b = true <-> a = b.
Proof.
  split.
  - revert b. induction a as [|x a IH]; intros [|y b]; simpl; try easy.
    intros H. apply andb_true_iff in H as [Hxy Hab].
    apply ascii_eqb_eq in Hxy. apply IH in Hab. congruence.
  - intros ->. apply str_eqb_refl.
Qed.

Lemma argv_eqb_refl (a : list str) : argv_eqb a a = true.
Proof.
  induction a as [|x a IH]; simpl; [reflexivity|].
  rewrite str_eqb_refl. exact IH.
Qed.

(** [span] splits its argument, and where it stops is decided by the
    first character that fails the test. *)
Lemma span_app (p : ascii -> bool) (xs rest : str) :
  Forall (fun c => p c = true) xs ->
  (match rest with [] => True | c :: _ => p c = false end) ->
  span p (xs ++ rest) = (xs, rest).
Proof.
  intros Hxs Hrest. induction Hxs as [|c xs Hc _ IH]; simpl.
  - destruct rest as [|c r]; simpl; [reflexivity|]. rewrite Hrest. reflexivity.
  - rewrite Hc, IH. reflexivity.
Qed.

Lemma span_eq (p : ascii -> bool) (s : str) : fst (span p s) ++ snd (span p s) = s.
Proof.
  induction s as [|c s IH]; simpl; [reflexivity|].
  destruct (p c); simpl; [|reflexivity].
  destruct (span p s) as [a b]. simpl in *. congruence.
Qed.

Lemma span_stop (p : ascii -> bool) (s : str) :
  match snd (span p s) with [] => True | c :: _ => p c = false end.
Proof.
  induction s as [|c s IH]; simpl; [exact I|].
  destruct (p c) eqn:Hc; simpl; [|exact Hc].
  destruct (span p s) as [a b]. exact IH.
Qed.



Lemma dropwhile_stop (p : ascii -> bool) (c : ascii) (s : str) :
  p c = false -> dropwhile p (c :: s) = c :: s.
Proof. intros H. simpl. rewrite H. reflexivity. Qed.

(** [strip] leaves alone a string that neither starts nor ends with
    whitespace. *)
Lemma strip_id (c : ascii) (mid : str) (d : ascii) :
  isspace c = false -> isspace d = false ->
  strip (c :: mid ++ [d]) = c :: mid ++ [d].
Proof.
  intros Hc Hd. unfold strip, lstrip, rstrip.
  rewrite dropwhile_stop by exact Hc.
  assert (E : rev (c :: mid ++ [d]) = d :: rev (c :: mid)).
  { change (c :: mid ++ [d]) with ((c :: mid) ++ [d]).
    rewrite rev_app_distr. reflexivity. }
  rewrite E. rewrite dropwhile_stop by exact Hd.
  rewrite <- E. apply rev_involutive.
Qed.

Lemma strip_single (c : ascii) : isspace c = false -> strip [c] = [c].
Proof. intros Hc. unfold strip, lstrip, rstrip. simpl. rewrite Hc. simpl. rewrite Hc. reflexivity. Qed.

(** [contains] over a concatenation whose left part cannot start a match
    that reaches across. *)
Lemma contains_char_false (x : ascii) (s : str) :
  Forall (fun c => ascii_eqb x c = false) s -> contains [x] s = false.
Proof.
  induction 1 as [|c s Hc _ IH]; simpl; [reflexivity|].
  rewrite Hc, IH. reflexivity.
Qed.

Lemma contains_char_app (x : ascii) (a b : str) :
  contains [x] (a ++ b) = contains [x] a || contains [x] b.
Proof.
  induction a as [|c a IH]; simpl.
  - destruct b; reflexivity.
  - rewrite IH. destruct (ascii_eqb x c); simpl; [reflexivity|].
    reflexivity.
Qed.

(** ** Decimal text *)

Lemma uint_chars_digits (d : Decimal.uint) :
  Forall (fun c => isdigit c = true) (uint_chars d).
Proof. induction d; simpl; constructor; auto. Qed.

Lemma str_of_N_digits (n : N) : Forall (fun c => isdigit c = true) (str_of_N n).
Proof. apply uint_chars_digits. Qed.

Lemma str_of_N_nonempty (n : N) : str_of_N n <> [].
Proof.
  unfold str_of_N. destruct n as [|p]; simpl; [discriminate|].
  pose proof (Unsigned.to_uint_nonnil p) as H.
  destruct (Pos.to_uint p); simpl; congruence.
Qed.

Lemma nonempty_last (s : str) : s <> [] -> exists mid d, s = mid ++ [d].
Proof.
  intros H. destruct (exists_last H) as [mid [d E]]. eauto.
Qed.

(** ** Command lines *)

Lemma digit_solid (c : ascii) : isdigit c = true -> solid c = true.
Proof. ascii_cases c. Qed.

Lemma word_solid (c : ascii) : isword c = true -> solid c = true.
Proof. ascii_cases c. Qed.

Lemma dot_solid (c : ascii) : is_dot c = true -> solid c = true.
Proof. ascii_cases c. Qed.

Lemma solid_not_space (c : ascii) : solid c = true -> isspace c = false.
Proof. ascii_cases c. Qed.

Lemma solid_not_pipe (c : ascii) :
  solid c = true -> ascii_eqb (ascii_of_N 124) c = false.
Proof. ascii_cases c. Qed.

Lemma solid_word_step (c : ascii) (tok rest : str) :
  solid c = true ->
  shlex_run InWord tok (c :: rest) = shlex_run InWord (tok ++ [c]) rest.
Proof.
  intros H. simpl.
  assert (shlex_space c = false /\ is_quote c = false /\ is_escape c = false)
    as (-> & -> & ->) by (revert H; ascii_cases c; intros; repeat split; reflexivity).
  reflexivity.
Qed.

Lemma solid_space_step (c : ascii) (rest : str) :
  solid c = true ->
  shlex_run InSpace [] (c :: rest) = shlex_run InWord [c] rest.
Proof.
  intros H. simpl.
  assert (shlex_space c = false /\ is_quote c = false /\ is_escape c = false)
    as (-> & -> & ->) by (revert H; ascii_cases c; intros; repeat split; reflexivity).
  reflexivity.
Qed.

(** A run of solid characters is taken into the current token. *)
Lemma shlex_word_run (xs : str) :
  Forall (fun c => solid c = true) xs ->
  forall tok, shlex_run InWord tok xs = inr [tok ++ xs].
Proof.
  induction 1 as [|c xs Hc _ IH]; intros tok.
  - simpl. rewrite app_nil_r. reflexivity.
  - rewrite solid_word_step by exact Hc. rewrite IH, <- app_assoc. reflexivity.
Qed.

Lemma shlex_space_run (xs : str) :
  Forall (fun c => solid c = true) xs -> xs <> [] ->
  shlex_run InSpace [] xs = inr [xs].
Proof.
  intros H Hne. destruct H as [|c xs Hc Hxs]; [congruence|].
  rewrite solid_space_step by exact Hc. apply (shlex_word_run xs Hxs [c]).
Qed.

(** [_validate_command] on a fixed beginning [pre] followed by solid
    characters [xs]: when the tokenizer has read [toks] and is in the state
    [st] with the token [tok] after [pre], the command is valid and [xs]
    completes the last argument. *)
Lemma validate_with_suffix (c0 : ascii) (pre xs : str) (toks : list str)
  (st : lex_state) (tok : str) :
  isspace c0 = false ->
  contains [ascii_of_N 124] (c0 :: pre) = false ->
  (st = InWord \/ (st = InSpace /\ tok = [])) ->
  (forall rest, shlex_split ((c0 :: pre) ++ rest)
                = after_tokens toks (shlex_run st tok rest)) ->
  Forall (fun c => solid c = true) xs -> xs <> [] ->
  _validate_command ((c0 :: pre) ++ xs) = inr (toks ++ [tok ++ xs]).
Proof.
  intros Hc0 Hpipe Hst Hpre Hxs Hne.
  destruct (nonempty_last xs Hne) as (mid & d & ->).
  assert (Hd : isspace d = false).
  { apply solid_not_space. rewrite Forall_forall in Hxs. apply Hxs.
    apply in_or_app. right. left. reflexivity. }
  assert (Hstrip : strip ((c0 :: pre) ++ mid ++ [d]) = (c0 :: pre) ++ mid ++ [d]).
  { simpl. rewrite app_assoc. apply strip_id; assumption. }
  unfold _validate_command. rewrite !Hstrip.
  assert (Hp : contains [ascii_of_N 124] ((c0 :: pre) ++ mid ++ [d]) = false).
  { rewrite contains_char_app, Hpipe. simpl.
    apply contains_char_false. eapply Forall_impl; [|exact Hxs].
    intros a Ha. apply solid_not_pipe. exact Ha. }
  change (lit "|") with [ascii_of_N 124]. rewrite Hp.
  simpl str_eqb. cbv iota.
  rewrite Hpre.
  assert (Hrun : shlex_run st tok (mid ++ [d]) = inr [tok ++ mid ++ [d]]).
  { destruct Hst as [-> | [-> ->]].
    - apply shlex_word_run. exact Hxs.
    - apply shlex_space_run; assumption. }
  rewrite Hrun. clear.
  assert (E : forall l, after_tokens toks (inr l) = inr (toks ++ l)).
  { induction toks as [|t toks IH]; intros l; simpl; [reflexivity|].
    rewrite IH. reflexivity. }
  rewrite E. destruct toks; reflexivity.
Qed.

Lemma validate_ps : _validate_command (lit "ps -ef") = inr ps_argv.
Proof. vm_compute. reflexivity. Qed.

Lemma validate_ifconfig : _validate_command (lit "ifconfig -a") = inr ifconfig_argv.
Proof. vm_compute. reflexivity. Qed.

Lemma validate_sudo : _validate_command sudo_validate_cmd = inr sudo_validate_argv.
Proof. vm_compute. reflexivity. Qed.

Lemma validate_kill (PID : N) : _validate_command (kill_cmd PID) = inr (kill_argv PID).
Proof.
  unfold kill_cmd, kill_argv.
  change (lit "sudo kill -9 ") with (ascii_of_N 115 :: lit "udo kill -9 ").
  rewrite (validate_with_suffix (ascii_of_N 115) (lit "udo kill -9 ") (str_of_N PID)
             [lit "sudo"; lit "kill"; lit "-9"] InSpace []).
  - reflexivity.
  - reflexivity.
  - reflexivity.
  - right. split; reflexivity.
  - intros rest. reflexivity.
  - eapply Forall_impl; [|apply str_of_N_digits]. intros a. apply digit_solid.
  - apply str_of_N_nonempty.
Qed.

Lemma atoms_of_chars (s : str) (atoms : list atom) :
  atoms_of s = Some atoms ->
  Forall (fun c => isword c = true \/ is_dot c = true) s.
Proof.
  revert atoms. induction s as [|c s IH]; intros atoms H; [constructor|].
  simpl in H. unfold atom_of_char in H.
  destruct (isword c) eqn:Hw.
  - destruct (atoms_of s) as [l|] eqn:Hs; [|discriminate].
    constructor; [left; exact Hw | eapply IH; reflexivity].
  - destruct (is_dot c) eqn:Hd; [|discriminate].
    destruct (atoms_of s) as [l|] eqn:Hs; [|discriminate].
    constructor; [right; exact Hd | eapply IH; reflexivity].
Qed.

Lemma atoms_of_solid (s : str) (atoms : list atom) :
  atoms_of s = Some atoms -> Forall (fun c => solid c = true) s.
Proof.
  intros H. eapply Forall_impl; [|eapply atoms_of_chars; exact H].
  intros c [Hc | Hc]; [apply word_solid | apply dot_solid]; exact Hc.
Qed.

Lemma validate_alias (loopback_ip : str) (atoms : list atom) :
  atoms_of loopback_ip = Some atoms -> loopback_ip <> [] ->
  _validate_command (alias_cmd loopback_ip) = inr (alias_argv loopback_ip).
Proof.
  intros Hat Hne. unfold alias_argv.
  change (alias_cmd loopback_ip)
    with ((ascii_of_N 115 :: lit "udo ifconfig lo0 alias $") ++ loopback_ip).
  rewrite (validate_with_suffix (ascii_of_N 115) (lit "udo ifconfig lo0 alias $")
             loopback_ip [lit "sudo"; lit "ifconfig"; lit "lo0"; lit "alias"]
             InWord (lit "$")).
  - reflexivity.
  - reflexivity.
  - reflexivity.
  - left. reflexivity.
  - intros rest. reflexivity.
  - eapply atoms_of_solid. exact Hat.
  - exact Hne.
Qed.

(** ** Computations *)

Lemma steps_ret {A : Type} (a : A) (h : list event) : steps (ret a) h (inr a) [].
Proof. unfold steps, ret. rewrite app_nil_r. reflexivity. Qed.

Lemma steps_raise {A : Type} (e : exn) (h : list event) :
  steps (@raise A e) h (inl e) [].
Proof. unfold steps, raise. rewrite app_nil_r. reflexivity. Qed.

Lemma steps_emit (e : event) (h : list event) : steps (emit e) h (inr tt) [e].
Proof. reflexivity. Qed.

Lemma steps_print (text : str) (h : list event) :
  steps (print text) h (inr tt) [Print text].
Proof. reflexivity. Qed.

Lemma steps_bind {A B : Type} (m : M A) (k : A -> M B) (h : list event) (a : A)
  (e1 : list event) (r : exn + B) (e2 : list event) :
  steps m h (inr a) e1 -> steps (k a) (h ++ e1) r e2 ->
  steps (bind m k) h r (e1 ++ e2).
Proof.
  unfold steps, bind. intros -> ->. rewrite app_assoc. reflexivity.
Qed.

Lemma steps_bind_raise {A B : Type} (m : M A) (k : A -> M B) (h : list event)
  (e : exn) (e1 : list event) :
  steps m h (inl e) e1 -> steps (bind m k) h (inl e) e1.
Proof. unfold steps, bind. intros ->. reflexivity. Qed.

(** A first step that adds nothing to the history. *)
Lemma steps_bind_silent {A B : Type} (m : M A) (k : A -> M B) (h : list event)
  (a : A) (r : exn + B) (e2 : list event) :
  steps m h (inr a) [] -> steps (k a) h r e2 -> steps (bind m k) h r e2.
Proof.
  unfold steps, bind. rewrite app_nil_r. intros -> ->. reflexivity.
Qed.

Lemma steps_fun {A : Type} (m : M A) (h : list event) (r r' : exn + A)
  (e e' : list event) :
  steps m h r e -> steps m h r' e' -> r = r' /\ e = e'.
Proof.
  unfold steps. intros H H'. rewrite H in H'. injection H' as Hr He.
  split; [exact Hr | eapply app_inv_head; exact He].
Qed.

Lemma steps_assert_true (msg : str) (h : list event) :
  steps (assert true msg) h (inr tt) [].
Proof. apply steps_ret. Qed.

Lemma steps_assert_false (msg : str) (h : list event) :
  steps (assert false msg) h (inl (AssertionError msg)) [].
Proof. apply steps_raise. Qed.

Lemma runs_app (a b : list event) : runs (a ++ b) = runs a ++ runs b.
Proof. apply flat_map_app. Qed.

Lemma commands_app (a b : list event) : commands (a ++ b) = commands a ++ commands b.
Proof. apply flat_map_app. Qed.

Lemma shell_commands_app (a b : list event) :
  shell_commands (a ++ b) = shell_commands a ++ shell_commands b.
Proof. apply flat_map_app. Qed.

Lemma runs_debug (dbg : bool) (msg : str) : runs (debug_events dbg msg) = [].
Proof. destruct dbg; reflexivity. Qed.

Lemma commands_debug (dbg : bool) (msg : str) : commands (debug_events dbg msg) = [].
Proof. destruct dbg; reflexivity. Qed.

Lemma shell_commands_debug (dbg : bool) (msg : str) :
  shell_commands (debug_events dbg msg) = [].
Proof. destruct dbg; reflexivity. Qed.

Lemma runs_run_events (dbg : bool) (cmd : str) (argv : list str) (t : option nat)
  (cap : bool) : runs (run_events dbg cmd argv t cap) = [argv].
Proof. unfold run_events. rewrite runs_app, runs_debug. reflexivity. Qed.

Lemma commands_run_events (dbg : bool) (cmd : str) (argv : list str)
  (t : option nat) (cap : bool) : commands (run_events dbg cmd argv t cap) = [cmd].
Proof. unfold run_events. rewrite commands_app, commands_debug. reflexivity. Qed.

Lemma shell_commands_run_events (dbg : bool) (cmd : str) (argv : list str)
  (t : option nat) (cap : bool) :
  shell_commands (run_events dbg cmd argv t cap) = [].
Proof. unfold run_events. rewrite shell_commands_app, shell_commands_debug. reflexivity. Qed.

Section Properties.

Variable os : OS.
Variable debug_enabled : bool.
Variable variables : UserVariables.

Lemma steps_print_debug (msg : str) (h : list event) :
  steps (print_debug debug_enabled msg) h (inr tt) (debug_events debug_enabled msg).
Proof.
  unfold print_debug, debug_events. destruct debug_enabled.
  - apply steps_print.
  - apply steps_ret.
Qed.

(** A valid command whose process exits with the status [rc]. *)
Lemma steps_run_cli (cmd : str) (argv : list str) (t : option nat)
  (test cap : bool) (h : list event) (rc : Z) (out : str) :
  _validate_command cmd = inr argv ->
  os_run os (h ++ debug_events debug_enabled (lit "Executing command: " ++ cmd)) argv
  = Exited rc out ->
  steps (_run_cli_command os debug_enabled cmd t test cap) h
    (if test && negb (Z.eqb rc 0) then inl (CalledProcessError rc argv)
     else inr {| args := argv; returncode := rc;
                 stdout := if cap then out else [] |})
    (run_events debug_enabled cmd argv t cap).
Proof.
  intros Hv Hos. unfold _run_cli_command, run_events.
  eapply steps_bind; [apply steps_print_debug|].
  rewrite Hv. unfold steps, bind, subprocess_run. rewrite Hos.
  unfold check_returncode. simpl returncode.
  destruct test; simpl.
  - destruct (Z.eqb rc 0); simpl; reflexivity.
  - reflexivity.
Qed.

Lemma steps_run_cli_ok (cmd : str) (argv : list str) (t : option nat)
  (cap : bool) (h : list event) (out : str) :
  _validate_command cmd = inr argv ->
  yields os argv out ->
  steps (_run_cli_command os debug_enabled cmd t true cap) h
    (inr {| args := argv; returncode := 0; stdout := if cap then out else [] |})
    (run_events debug_enabled cmd argv t cap).
Proof.
  intros Hv Hy. apply (steps_run_cli cmd argv t true cap h 0 out Hv (Hy _)).
Qed.

Lemma steps_sudo (h : list event) :
  succeeds os sudo_validate_argv ->
  steps (do_prompt_for_sudo os debug_enabled) h (inr PNone)
    (run_events debug_enabled sudo_validate_cmd sudo_validate_argv None false).
Proof.
  intros Hs. unfold do_prompt_for_sudo.
  destruct (Hs (h ++ debug_events debug_enabled
                       (lit "Executing command: " ++ sudo_validate_cmd))) as [out Hout].
  rewrite <- (app_nil_r (run_events _ _ _ _ _)).
  eapply steps_bind.
  - apply (steps_run_cli sudo_validate_cmd sudo_validate_argv None true false h 0 out
             validate_sudo Hout).
  - apply steps_ret.
Qed.

Lemma steps_notify (content : str) (h : list event) :
  steps (displayNotification content None) h (inr PNone)
    [Popen (notification_cmd (replace_char dquote [backslash; dquote] content)
              title_default)].
Proof.
  unfold displayNotification.
  change [Popen ?c] with ([Popen c] ++ []).
  eapply steps_bind; [apply steps_emit | apply steps_ret].
Qed.

End Properties.

(** ** The loop of [do_terminate_tunnels] *)

Section Termination.

Variable os : OS.
Variable debug_enabled : bool.

Lemma steps_for_each_nil {A : Type} (body : A -> M unit) (h : list event) :
  steps (for_each [] body) h (inr tt) [].
Proof. apply steps_ret. Qed.

Lemma steps_for_each_cons {A : Type} (body : A -> M unit) (x : A) (rest : list A)
  (h : list event) (e1 : list event) (r : exn + unit) (e2 : list event) :
  steps (body x) h (inr tt) e1 ->
  steps (for_each rest body) (h ++ e1) r e2 ->
  steps (for_each (x :: rest) body) h r (e1 ++ e2).
Proof. intros H1 H2. simpl. eapply steps_bind; eassumption. Qed.

Lemma steps_for_each_raise {A : Type} (body : A -> M unit) (x : A) (rest : list A)
  (h : list event) (e : exn) (e1 : list event) :
  steps (body x) h (inl e) e1 ->
  steps (for_each (x :: rest) body) h (inl e) e1.
Proof. intros H. simpl. apply steps_bind_raise. exact H. Qed.

(** One turn of the loop on a line with its tokens, when the kill exits
    with [rc]. *)
Lemma steps_kill_tunnel (PID : N) (tunnel : str) (rc : Z) (h : list event) :
  extractable tunnel = true ->
  exits_with os (kill_argv PID) rc ->
  exists evs,
    steps (kill_tunnel os debug_enabled (PID, tunnel)) h
      (if Z.eqb rc 0 then inr tt else inl (CalledProcessError rc (kill_argv PID))) evs
    /\ runs evs = [kill_argv PID].
Proof.
  intros Hx Hrc. unfold extractable in Hx. unfold kill_tunnel.
  destruct (firstn 2 (endpoint_findall tunnel)) as [|a [|b [|c l]]]; try discriminate.
  destruct (server_findall tunnel) as [|srv l]; [discriminate|].
  set (line := lit "Killing " ++ _).
  destruct (Hrc ((h ++ [Print line])
                 ++ debug_events debug_enabled
                      (lit "Executing command: " ++ kill_cmd PID))) as [out Hout].
  pose proof (steps_run_cli os debug_enabled (kill_cmd PID) (kill_argv PID)
                (Some 30%nat) true true (h ++ [Print line]) rc out
                (validate_kill PID) Hout) as Hrun.
  simpl andb in Hrun.
  exists ([Print line] ++ run_events debug_enabled (kill_cmd PID) (kill_argv PID)
                           (Some 30%nat) true).
  split.
  - eapply steps_bind; [apply steps_print|].
    destruct (Z.eqb rc 0); simpl negb in Hrun; cbv iota in Hrun.
    + rewrite <- (app_nil_r (run_events _ _ _ _ _)).
      eapply steps_bind; [exact Hrun | apply steps_ret].
    + apply steps_bind_raise. exact Hrun.
  - rewrite runs_app, runs_run_events. reflexivity.
Qed.

(** One turn of the loop on a line that lacks a token: an exception, and
    nothing is run. *)
Lemma steps_kill_tunnel_unparsed (PID : N) (tunnel : str) :
  extractable tunnel = false ->
  exists e,
    is_parse_error e = true
    /\ forall h, steps (kill_tunnel os debug_enabled (PID, tunnel)) h (inl e) [].
Proof.
  intros Hx. unfold extractable in Hx. unfold kill_tunnel.
  destruct (firstn 2 (endpoint_findall tunnel)) as [|a [|b [|c l]]];
    try (eexists; split; cycle 1; [intros h; apply steps_raise | reflexivity]).
  destruct (server_findall tunnel) as [|srv l]; [|discriminate].
  eexists; split; cycle 1; [intros h; apply steps_raise | reflexivity].
Qed.

(** The loop over entries that all have their tokens and whose kills all
    succeed: every process is killed, in order. *)
Lemma steps_kill_all (entries : list (N * str)) :
  Forall (fun e => extractable (snd e) = true) entries ->
  Forall (fun e => succeeds os (kill_argv (fst e))) entries ->
  forall h, exists evs,
    steps (for_each entries (kill_tunnel os debug_enabled)) h (inr tt) evs
    /\ runs evs = map kill_argv (map fst entries).
Proof.
  induction entries as [|[PID tunnel] rest IH]; intros Hx Hk h.
  - exists []. split; [apply steps_for_each_nil | reflexivity].
  - inversion Hx as [|? ? Hx1 Hx2]; subst. inversion Hk as [|? ? Hk1 Hk2]; subst.
    simpl in Hx1, Hk1.
    destruct (steps_kill_tunnel PID tunnel 0 h Hx1 Hk1) as (e1 & He1 & Hr1).
    simpl in He1.
    destruct (IH Hx2 Hk2 (h ++ e1)) as (e2 & He2 & Hr2).
    exists (e1 ++ e2). split.
    + eapply steps_for_each_cons; eassumption.
    + rewrite runs_app, Hr1, Hr2. reflexivity.
Qed.

(** The loop stops at the first entry whose turn raises. *)
Lemma steps_kill_until (before : list (N * str)) (entry : N * str)
  (after : list (N * str)) (e : exn) (rs : list (list str)) :
  Forall (fun e => extractable (snd e) = true) before ->
  Forall (fun e => succeeds os (kill_argv (fst e))) before ->
  (forall h, exists evs,
      steps (kill_tunnel os debug_enabled entry) h (inl e) evs /\ runs evs = rs) ->
  forall h, exists evs,
    steps (for_each (before ++ entry :: after) (kill_tunnel os debug_enabled)) h
      (inl e) evs
    /\ runs evs = map kill_argv (map fst before) ++ rs.
Proof.
  intros Hx Hk Hentry.
  induction before as [|[PID tunnel] rest IH]; intros h.
  - destruct (Hentry h) as (evs & He & Hr). exists evs. split.
    + simpl app. apply steps_for_each_raise. exact He.
    + exact Hr.
  - inversion Hx as [|? ? Hx1 Hx2]; subst. inversion Hk as [|? ? Hk1 Hk2]; subst.
    simpl in Hx1, Hk1.
    destruct (steps_kill_tunnel PID tunnel 0 h Hx1 Hk1) as (e1 & He1 & Hr1).
    simpl in He1.
    destruct (IH Hx2 Hk2 (h ++ e1)) as (e2 & He2 & Hr2).
    exists (e1 ++ e2). split.
    + simpl app. eapply steps_for_each_cons; eassumption.
    + rewrite runs_app, Hr1, Hr2. reflexivity.
Qed.

(** [do_terminate_tunnels] up to its loop: the process table is read, and
    with at least one entry selected the sudo session is validated and the
    loop runs over the selection. *)
Lemma steps_terminate_loop (loopback_ip : option str) (loopback_port : pyval)
  (table : str) (h : list event) (e : exn) (evs : list event) :
  yields os ps_argv table ->
  succeeds os sudo_validate_argv ->
  selected loopback_ip loopback_port table <> [] ->
  steps (for_each (selected loopback_ip loopback_port table)
           (kill_tunnel os debug_enabled))
    (h ++ run_events debug_enabled (lit "ps -ef") ps_argv (Some 30%nat) true
       ++ run_events debug_enabled sudo_validate_cmd sudo_validate_argv None false)
    (inl e) evs ->
  steps (do_terminate_tunnels os debug_enabled loopback_ip loopback_port) h (inl e)
    (run_events debug_enabled (lit "ps -ef") ps_argv (Some 30%nat) true
     ++ run_events debug_enabled sudo_validate_cmd sudo_validate_argv None false
     ++ evs).
Proof.
  intros Hps Hsudo Hne Hloop. unfold do_terminate_tunnels.
  eapply steps_bind.
  { apply (steps_run_cli_ok os debug_enabled (lit "ps -ef") ps_argv (Some 30%nat) true h
             table validate_ps Hps). }
  simpl stdout. fold (selected loopback_ip loopback_port table).
  destruct (selected loopback_ip loopback_port table) as [|x l] eqn:Hsel; [congruence|].
  eapply steps_bind; [apply steps_sudo; exact Hsudo|].
  apply steps_bind_raise. rewrite <- app_assoc. exact Hloop.
Qed.

Lemma tunnel_PIDs_of_none (specific_loopback : str) (lines : list str) :
  (forall _line, In _line lines -> is_tunnel_line specific_loopback _line = false) ->
  tunnel_PIDs_of specific_loopback lines = [].
Proof.
  unfold tunnel_PIDs_of. generalize (@nil (N * str)) as d.
  induction lines as [|l lines IH]; intros d H; simpl; [reflexivity|].
  rewrite (H l (or_introl eq_refl)). apply IH.
  intros x Hx. apply H. right. exact Hx.
Qed.

End Termination.

(** ** Terminating tunnels *)

Section TerminateTunnels.

Variable os : OS.
Variable debug_enabled : bool.

(** C1, as the code has it.  The kills are attempted in the order of the
    process table and a kill that exits with a non-zero status raises
    [CalledProcessError]: the processes selected before it have been killed,
    its own kill has been attempted, and no kill is attempted for the
    processes selected after it.  The call ends with that exception and
    reports no count. *)
Theorem terminate_tunnels_stops_at_failed_kill
  (loopback_ip : option str) (loopback_port : pyval) (table : str)
  (before : list (N * str)) (PID : N) (tunnel : str) (after : list (N * str))
  (rc : Z) (h : list event) :
  yields os ps_argv table ->
  selected loopback_ip loopback_port table = before ++ (PID, tunnel) :: after ->
  succeeds os sudo_validate_argv ->
  Forall (fun e => extractable (snd e) = true) (before ++ [(PID, tunnel)]) ->
  Forall (fun e => succeeds os (kill_argv (fst e))) before ->
  exits_with os (kill_argv PID) rc ->
  rc <> 0%Z ->
  exists evs,
    steps (do_terminate_tunnels os debug_enabled loopback_ip loopback_port) h
      (inl (CalledProcessError rc (kill_argv PID))) evs
    /\ runs evs = [ps_argv; sudo_validate_argv]
                  ++ map kill_argv (map fst before) ++ [kill_argv PID].
Proof.
  intros Hps Hsel Hsudo Hx Hk Hrc Hnz.
  apply Forall_app in Hx as [Hx1 Hx2]. inversion Hx2 as [|? ? Hx3 _]; subst.
  simpl in Hx3.
  assert (Hturn : forall h', exists evs,
             steps (kill_tunnel os debug_enabled (PID, tunnel)) h'
               (inl (CalledProcessError rc (kill_argv PID))) evs
             /\ runs evs = [kill_argv PID]).
  { intros h'. destruct (steps_kill_tunnel os debug_enabled PID tunnel rc h' Hx3 Hrc)
      as (evs & He & Hr).
    apply Z.eqb_neq in Hnz. rewrite Hnz in He. exists evs. split; assumption. }
  destruct (steps_kill_until os debug_enabled before (PID, tunnel) after _ _
              Hx1 Hk Hturn
              (h ++ run_events debug_enabled (lit "ps -ef") ps_argv (Some 30%nat) true
                 ++ run_events debug_enabled sudo_validate_cmd sudo_validate_argv
                      None false))
    as (evs & He & Hr).
  eexists. split.
  - apply (steps_terminate_loop os debug_enabled loopback_ip loopback_port table h _ evs
             Hps Hsudo).
    + rewrite Hsel. destruct before; discriminate.
    + rewrite Hsel. exact He.
  - rewrite !runs_app, !runs_run_events, Hr. reflexivity.
Qed.

(** C2, as the code has it.  A selected line without two endpoint tokens
    or without an argument after [-f] raises ([ValueError] from the
    unpacking, [IndexError] from the index) when the loop reaches it: the
    processes selected before it have been killed, and neither its process
    nor any process selected after it is killed. *)
Theorem terminate_tunnels_stops_at_unparsed_line
  (loopback_ip : option str) (loopback_port : pyval) (table : str)
  (before : list (N * str)) (PID : N) (tunnel : str) (after : list (N * str))
  (h : list event) :
  yields os ps_argv table ->
  selected loopback_ip loopback_port table = before ++ (PID, tunnel) :: after ->
  succeeds os sudo_validate_argv ->
  Forall (fun e => extractable (snd e) = true) before ->
  Forall (fun e => succeeds os (kill_argv (fst e))) before ->
  extractable tunnel = false ->
  exists e evs,
    steps (do_terminate_tunnels os debug_enabled loopback_ip loopback_port) h
      (inl e) evs
    /\ is_parse_error e = true
    /\ runs evs = [ps_argv; sudo_validate_argv] ++ map kill_argv (map fst before).
Proof.
  intros Hps Hsel Hsudo Hx Hk Hbad.
  destruct (steps_kill_tunnel_unparsed os debug_enabled PID tunnel Hbad)
    as (e & Hpe & Hraise).
  assert (Hturn : forall h', exists evs,
             steps (kill_tunnel os debug_enabled (PID, tunnel)) h' (inl e) evs
             /\ runs evs = []).
  { intros h'. exists []. split; [apply Hraise | reflexivity]. }
  destruct (steps_kill_until os debug_enabled before (PID, tunnel) after _ _
              Hx Hk Hturn
              (h ++ run_events debug_enabled (lit "ps -ef") ps_argv (Some 30%nat) true
                 ++ run_events debug_enabled sudo_validate_cmd sudo_validate_argv
                      None false))
    as (evs & He & Hr).
  exists e. eexists. split; [|split].
  - apply (steps_terminate_loop os debug_enabled loopback_ip loopback_port table h _ evs
             Hps Hsudo).
    + rewrite Hsel. destruct before; discriminate.
    + rewrite Hsel. exact He.
  - exact Hpe.
  - rewrite !runs_app, !runs_run_events, Hr, app_nil_r. reflexivity.
Qed.

(** C8, as the code has it.  When no line of the process table passes the
    filters, the call prints and notifies "No existing SSH tunnels found",
    raises nothing and returns [None] (the function returns no count); the
    only commands it starts are [ps -ef] and the notification, so there is
    no kill and no sudo validation. *)
Theorem terminate_tunnels_none_found
  (loopback_ip : option str) (loopback_port : pyval) (table : str)
  (h : list event) :
  yields os ps_argv table ->
  (forall _line, In _line (str_split newline table) ->
     is_tunnel_line (specific_loopback_of loopback_ip loopback_port) _line = false) ->
  exists evs,
    steps (do_terminate_tunnels os debug_enabled loopback_ip loopback_port) h
      (inr PNone) evs
    /\ In (Print (lit "No existing SSH tunnels found")) evs
    /\ commands evs
       = [lit "ps -ef";
          notification_cmd (lit "No existing SSH tunnels found") title_default].
Proof.
  intros Hps Hnone.
  exists (run_events debug_enabled (lit "ps -ef") ps_argv (Some 30%nat) true
          ++ [Print (lit "No existing SSH tunnels found")]
          ++ [Popen (notification_cmd (lit "No existing SSH tunnels found")
                       title_default)] ++ []).
  split; [|split].
  - unfold do_terminate_tunnels.
    eapply steps_bind.
    { apply (steps_run_cli_ok os debug_enabled (lit "ps -ef") ps_argv (Some 30%nat) true h
               table validate_ps Hps). }
    simpl stdout. rewrite (tunnel_PIDs_of_none _ _ Hnone).
    eapply steps_bind; [apply steps_print|].
    eapply steps_bind; [apply steps_notify|].
    apply steps_ret.
  - apply in_or_app. right. left. reflexivity.
  - rewrite commands_app, commands_run_events. reflexivity.
Qed.

(** When every selected line has its tokens and every kill succeeds, each
    selected process is killed by a command of its own, in the order of the
    process table, and the call returns [None] after the notification. *)
Lemma terminate_tunnels_kills_every_selected
  (loopback_ip : option str) (loopback_port : pyval) (table : str)
  (h : list event) :
  yields os ps_argv table ->
  selected loopback_ip loopback_port table <> [] ->
  succeeds os sudo_validate_argv ->
  Forall (fun e => extractable (snd e) = true)
    (selected loopback_ip loopback_port table) ->
  Forall (fun e => succeeds os (kill_argv (fst e)))
    (selected loopback_ip loopback_port table) ->
  exists evs,
    steps (do_terminate_tunnels os debug_enabled loopback_ip loopback_port) h
      (inr PNone) evs
    /\ runs evs = [ps_argv; sudo_validate_argv]
                  ++ map kill_argv (map fst (selected loopback_ip loopback_port table)).
Proof.
  intros Hps Hne Hsudo Hx Hk.
  destruct (steps_kill_all os debug_enabled _ Hx Hk
              ((h ++ run_events debug_enabled (lit "ps -ef") ps_argv (Some 30%nat) true)
               ++ run_events debug_enabled sudo_validate_cmd sudo_validate_argv
                    None false))
    as (evs & He & Hr).
  eexists. split.
  - unfold do_terminate_tunnels.
    eapply steps_bind.
    { apply (steps_run_cli_ok os debug_enabled (lit "ps -ef") ps_argv (Some 30%nat) true h
               table validate_ps Hps). }
    simpl stdout. fold (selected loopback_ip loopback_port table).
    destruct (selected loopback_ip loopback_port table) as [|x l] eqn:Hsel;
      [congruence|].
    eapply steps_bind; [apply steps_sudo; exact Hsudo|].
    eapply steps_bind; [exact He|].
    eapply steps_bind; [apply steps_notify | apply steps_ret].
  - rewrite !runs_app, !runs_run_events, Hr. simpl. rewrite app_nil_r. reflexivity.
Qed.

End TerminateTunnels.

(** *** On the sample process tables *)

(** C1 does not hold as stated: with the processes 111, 222 and 333
    selected and the kill of 222 failing, the kill of 333 is never
    attempted, and the call ends with [CalledProcessError] instead of
    reporting a count of 3. *)
Lemma failed_kill_aborts_remaining_kills :
  let r := do_terminate_tunnels (sample_os ps_three [] [222]) false None PNone [] in
  map fst (selected None PNone ps_three) = [111; 222; 333]
  /\ runs (snd r) = [ps_argv; sudo_validate_argv; kill_argv 111; kill_argv 222]
  /\ ~ In (kill_argv 333) (runs (snd r))
  /\ fst r = inl (CalledProcessError 1 (kill_argv 222))
  /\ fst r <> inr (PInt 3).
Proof.
  vm_compute. repeat split; try discriminate.
  intros [H | [H | [H | [H | []]]]]; discriminate.
Qed.

Lemma terminate_tunnels_stops_at_failed_kill_witness :
  exists evs,
    steps (do_terminate_tunnels (sample_os ps_three [] [222]) false None PNone) []
      (inl (CalledProcessError 1 (kill_argv 222))) evs
    /\ runs evs = [ps_argv; sudo_validate_argv]
                  ++ map kill_argv (map fst [(111, ps_line "501" "111" tunnel_command)])
                  ++ [kill_argv 222].
Proof.
  apply (terminate_tunnels_stops_at_failed_kill (sample_os ps_three [] [222]) false
           None PNone ps_three
           [(111, ps_line "501" "111" tunnel_command)]
           222 (ps_line "501" "222" tunnel_command)
           [(333, ps_line "501" "333" tunnel_command)] 1 []).
  - intros h. reflexivity.
  - vm_compute. reflexivity.
  - intros h. eexists. reflexivity.
  - repeat constructor; vm_compute; reflexivity.
  - repeat constructor. intros h. eexists. vm_compute. reflexivity.
  - intros h. eexists. vm_compute. reflexivity.
  - discriminate.
Defined.

(** C2 does not hold as stated: the first selected line has no [-f]
    argument (or names one endpoint only) and the second is complete; the
    call ends with an exception at the first line and the process of the
    second is never killed. *)
Lemma unparsed_line_aborts_remaining_lines :
  let r := do_terminate_tunnels (sample_os ps_no_server_first [] []) false None PNone [] in
  let r' := do_terminate_tunnels (sample_os ps_one_endpoint_first [] []) false None PNone [] in
  map fst (selected None PNone ps_no_server_first) = [111; 222]
  /\ map (fun e => extractable (snd e)) (selected None PNone ps_no_server_first)
     = [false; true]
  /\ fst r = inl (IndexError (lit "list index out of range"))
  /\ runs (snd r) = [ps_argv; sudo_validate_argv]
  /\ map fst (selected None PNone ps_one_endpoint_first) = [111; 222]
  /\ map (fun e => extractable (snd e)) (selected None PNone ps_one_endpoint_first)
     = [false; true]
  /\ fst r' = inl (ValueError (lit "not enough values to unpack (expected 2, got 1)"))
  /\ runs (snd r') = [ps_argv; sudo_validate_argv].
Proof. vm_compute. repeat split. Qed.

Lemma terminate_tunnels_stops_at_unparsed_line_witness :
  exists e evs,
    steps (do_terminate_tunnels (sample_os ps_no_server_first [] []) false None PNone) []
      (inl e) evs
    /\ is_parse_error e = true
    /\ runs evs = [ps_argv; sudo_validate_argv]
                  ++ map kill_argv (map fst (@nil (N * str))).
Proof.
  apply (terminate_tunnels_stops_at_unparsed_line (sample_os ps_no_server_first [] [])
           false None PNone ps_no_server_first (@nil (N * str))
           111 (ps_line "501" "111" "ssh -Y -L 127.0.0.2:5432:10.0.0.5:5432 -N bastion")
           [(222, ps_line "501" "222" tunnel_command)] []).
  - intros h. reflexivity.
  - vm_compute. reflexivity.
  - intros h. eexists. reflexivity.
  - constructor.
  - constructor.
  - vm_compute. reflexivity.
Defined.

(** C8 does not hold as stated in one point: with no tunnel in the process
    table the call returns [None], not the count 0. *)
Lemma none_found_returns_no_count :
  let r := do_terminate_tunnels (sample_os ps_none [] []) false None PNone [] in
  selected None PNone ps_none = []
  /\ fst r = inr PNone
  /\ fst r <> inr (PInt 0).
Proof. vm_compute. repeat split. discriminate. Qed.

Lemma terminate_tunnels_none_found_witness :
  exists evs,
    steps (do_terminate_tunnels (sample_os ps_none [] []) false None PNone) []
      (inr PNone) evs
    /\ In (Print (lit "No existing SSH tunnels found")) evs
    /\ commands evs
       = [lit "ps -ef";
          notification_cmd (lit "No existing SSH tunnels found") title_default].
Proof.
  apply (terminate_tunnels_none_found (sample_os ps_none [] []) false None PNone
           ps_none []).
  - intros h. reflexivity.
  - intros _line Hin. vm_compute in Hin.
    destruct Hin as [<- | [<- | [<- | []]]]; vm_compute; reflexivity.
Defined.

(** ** Validation *)

Section Validation.

Variable os : OS.
Variable debug_enabled : bool.
Variable variables : UserVariables.

(** C7.  [do_verify_loopback_address] rejects an address that does not
    start with 127. whatever the override, and without the override it
    rejects 127.0.0.1; both with an [AssertionError] and before any command
    has been started.  [do_execute_port_redirect] verifies its source
    address first, so a redirect from 127.0.0.1 is rejected the same way:
    the history is unchanged, no redirect command has been given to the
    shell. *)
Theorem verify_loopback_rejects (loopback_ip : str) (allow_all_loopback_ips : bool)
  (source_port target_address target_port : str) (h : list event) :
  loopback_prefix_match loopback_ip = false ->
  (exists msg,
      steps (do_verify_loopback_address os debug_enabled loopback_ip
               allow_all_loopback_ips) h (inl (AssertionError msg)) [])
  /\ steps (do_verify_loopback_address os debug_enabled (lit "127.0.0.1") false) h
       (inl (AssertionError (lit "Custom loopback IP is required. As a precaution, this script requires a loopback IP other than 127.0.0.1")))
       []
  /\ steps (do_execute_port_redirect os debug_enabled (lit "127.0.0.1") source_port
              target_address target_port) h
       (inl (AssertionError (lit "Custom loopback IP is required. As a precaution, this script requires a loopback IP other than 127.0.0.1")))
       [].
Proof.
  intros Hprefix. unfold steps. rewrite app_nil_r. split; [|split].
  - unfold do_verify_loopback_address, bind, assert.
    destruct (str_eqb loopback_ip []); simpl.
    + eexists. reflexivity.
    + rewrite Hprefix. simpl. eexists. reflexivity.
  - reflexivity.
  - reflexivity.
Qed.

(** C3, as the code has it.  [do_execute_ssh_tunnel] validates the sudo
    session before it checks anything.  When that command succeeds, a
    configuration whose SSH port is 22 and whose SSH server starts with
    127. is rejected with an [AssertionError]; [sudo -v] is the one command
    started before the rejection.  When no required parameter is missing
    the message is the one about the loopback server. *)
Theorem ssh_tunnel_loopback_server_rejected (config_dict : tunnel_config)
  (h : list event) :
  py_eq (ssh_server_port_of config_dict) (PInt 22) = true ->
  loopback_prefix_match (fmt_opt (get_ssh_server config_dict)) = true ->
  succeeds os sudo_validate_argv ->
  exists msg evs,
    steps (do_execute_ssh_tunnel os debug_enabled variables config_dict) h
      (inl (AssertionError msg)) evs
    /\ commands evs = [sudo_validate_cmd]
    /\ runs evs = [sudo_validate_argv]
    /\ (truthy_opt (get_name config_dict) = true ->
        truthy_opt (get_remote_ip config_dict) = true ->
        truthy (get_remote_port config_dict) = true ->
        truthy_opt (get_local_address config_dict) = true ->
        truthy (local_port_of config_dict) = true ->
        msg = loopback_server_message).
Proof.
  intros Hport Hserver Hsudo.
  assert (Hsrv : truthy_opt (get_ssh_server config_dict) = true).
  { destruct (get_ssh_server config_dict) as [[|c s]|]; try discriminate; reflexivity. }
  pose proof (steps_sudo os debug_enabled h Hsudo) as Hs.
  set (e1 := run_events debug_enabled sudo_validate_cmd sudo_validate_argv None false)
    in *.
  assert (Hrest : exists msg,
             steps (do_execute_ssh_tunnel os debug_enabled variables config_dict) h
               (inl (AssertionError msg)) e1
             /\ (truthy_opt (get_name config_dict) = true ->
                 truthy_opt (get_remote_ip config_dict) = true ->
                 truthy (get_remote_port config_dict) = true ->
                 truthy_opt (get_local_address config_dict) = true ->
                 truthy (local_port_of config_dict) = true ->
                 msg = loopback_server_message)).
  { unfold do_execute_ssh_tunnel.
    destruct (truthy_opt (get_name config_dict)) eqn:H1;
    [destruct (truthy_opt (get_remote_ip config_dict)) eqn:H2;
     [destruct (truthy (get_remote_port config_dict)) eqn:H3;
      [destruct (truthy_opt (get_local_address config_dict)) eqn:H4;
       [destruct (truthy (local_port_of config_dict)) eqn:H5|]|]|]|];
    (eexists; split;
     [ rewrite <- (app_nil_r e1); eapply steps_bind; [exact Hs|];
       unfold steps; rewrite app_nil_r; unfold bind, assert;
       rewrite ?H1, ?Hsrv, ?H2, ?H3, ?H4, ?H5, ?Hport, ?Hserver; simpl; reflexivity
     | intros; try discriminate; reflexivity ]). }
  destruct Hrest as (msg & Hsteps & Hmsg).
  exists msg, e1. repeat split.
  - exact Hsteps.
  - unfold e1. apply commands_run_events.
  - unfold e1. apply runs_run_events.
  - exact Hmsg.
Qed.

End Validation.

(** C3 does not hold as stated: the configuration is rejected, but the
    sudo validation has been run by then. *)
Lemma loopback_server_rejected_after_sudo :
  let r := do_execute_ssh_tunnel (sample_os ps_none ifconfig_with_alias [])
             false sample_variables loopback_server_config [] in
  py_eq (ssh_server_port_of loopback_server_config) (PInt 22) = true
  /\ loopback_prefix_match (fmt_opt (get_ssh_server loopback_server_config)) = true
  /\ fst r = inl (AssertionError loopback_server_message)
  /\ runs (snd r) = [sudo_validate_argv]
  /\ commands (snd r) <> [].
Proof. vm_compute. repeat split. discriminate. Qed.

Lemma ssh_tunnel_loopback_server_rejected_witness :
  exists msg evs,
    steps (do_execute_ssh_tunnel (sample_os ps_none ifconfig_with_alias [])
             false sample_variables loopback_server_config) []
      (inl (AssertionError msg)) evs
    /\ commands evs = [sudo_validate_cmd]
    /\ runs evs = [sudo_validate_argv]
    /\ (truthy_opt (get_name loopback_server_config) = true ->
        truthy_opt (get_remote_ip loopback_server_config) = true ->
        truthy (get_remote_port loopback_server_config) = true ->
        truthy_opt (get_local_address loopback_server_config) = true ->
        truthy (local_port_of loopback_server_config) = true ->
        msg = loopback_server_message).
Proof.
  apply (ssh_tunnel_loopback_server_rejected (sample_os ps_none ifconfig_with_alias [])
           false sample_variables loopback_server_config []).
  - vm_compute. reflexivity.
  - vm_compute. reflexivity.
  - intros h. eexists. reflexivity.
Defined.

Lemma verify_loopback_rejects_witness :
  (exists msg,
      steps (do_verify_loopback_address (sample_os ps_none ifconfig_with_alias [])
               false (lit "10.0.0.1") true) [] (inl (AssertionError msg)) [])
  /\ steps (do_verify_loopback_address (sample_os ps_none ifconfig_with_alias [])
              false (lit "127.0.0.1") false) []
       (inl (AssertionError (lit "Custom loopback IP is required. As a precaution, this script requires a loopback IP other than 127.0.0.1")))
       []
  /\ steps (do_execute_port_redirect (sample_os ps_none ifconfig_with_alias [])
              false (lit "127.0.0.1") (lit "443") (lit "10.0.0.5") (lit "8443")) []
       (inl (AssertionError (lit "Custom loopback IP is required. As a precaution, this script requires a loopback IP other than 127.0.0.1")))
       [].
Proof.
  apply (verify_loopback_rejects (sample_os ps_none ifconfig_with_alias []) false
           (lit "10.0.0.1") true (lit "443") (lit "10.0.0.5") (lit "8443") []).
  vm_compute. reflexivity.
Defined.

(** ** Port redirection *)

Section Redirect.

Variable os : OS.
Variable debug_enabled : bool.

Lemma steps_print_lines (indent : str) (lines : list str) (h : list event) :
  steps (for_each lines (fun _line => print (indent ++ _line))) h (inr tt)
    (map (fun _line => Print (indent ++ _line)) lines).
Proof.
  revert h. induction lines as [|l lines IH]; intros h.
  - apply steps_ret.
  - simpl map. change (?x :: ?l) with ([x] ++ l).
    eapply steps_bind; [apply steps_print | apply IH].
Qed.

Lemma shell_commands_prints (f : str -> str) (lines : list str) :
  shell_commands (map (fun l => Print (f l)) lines) = [].
Proof. induction lines; simpl; auto. Qed.

Lemma runs_prints (f : str -> str) (lines : list str) :
  runs (map (fun l => Print (f l)) lines) = [].
Proof. induction lines; simpl; auto. Qed.

(** What [do_execute_port_redirect] does after the verification of its
    source address. *)
Lemma steps_port_redirect
  (source_address source_port target_address target_port : str)
  (h ev1 : list event) :
  steps (do_verify_loopback_address os debug_enabled source_address false) h
    (inr PNone) ev1 ->
  exists ev2,
    steps (do_execute_port_redirect os debug_enabled source_address source_port
             target_address target_port) h (inr PNone) (ev1 ++ ev2)
    /\ shell_commands ev2
       = [redirect_cmd source_address source_port target_address target_port]
    /\ runs ev2 = [].
Proof.
  intros Hverify.
  set (cmd := redirect_cmd source_address source_port target_address target_port).
  set (dbg1 := debug_events debug_enabled
                 (lit "Making alias to redirect " ++ source_address ++ lit ":"
                  ++ source_port ++ lit " --> " ++ target_address ++ lit ":"
                  ++ target_port)).
  set (dbg2 := debug_events debug_enabled (lit "Executing command: " ++ cmd)).
  set (result := lit "Port Redirection Enabled:" ++ NL ++ NL ++ source_address
                 ++ lit ":" ++ source_port ++ lit " --> " ++ target_address
                 ++ lit ":" ++ target_port).
  set (out := os_getoutput os ((((h ++ ev1) ++ dbg1) ++ [Print []]) ++ dbg2) cmd).
  exists (dbg1 ++ [Print []]
          ++ ((dbg2 ++ [GetOutput cmd]
               ++ map (fun l => Print (repeat_str 5 (lit " ") ++ l))
                    (str_split newline out) ++ [])
              ++ [Print (NL ++ result ++ NL)]
              ++ [Popen (notification_cmd
                           (replace_char dquote [backslash; dquote] result)
                           title_default)] ++ [])).
  split; [|split].
  - unfold do_execute_port_redirect.
    eapply steps_bind; [exact Hverify|].
    eapply steps_bind; [apply steps_print_debug|].
    eapply steps_bind; [apply steps_print|].
    eapply steps_bind.
    { unfold _run_shell_command_with_pipes.
      eapply steps_bind; [apply steps_print_debug|].
      eapply steps_bind; [unfold steps; reflexivity|].
      eapply steps_bind; [apply steps_print_lines|].
      apply steps_ret. }
    eapply steps_bind; [apply steps_print|].
    eapply steps_bind; [apply steps_notify|].
    apply steps_ret.
  - unfold dbg1, dbg2.
    rewrite !shell_commands_app, !shell_commands_debug, shell_commands_prints.
    reflexivity.
  - unfold dbg1, dbg2.
    rewrite !runs_app, !runs_debug, runs_prints. reflexivity.
Qed.

(** C9.  Once the source address has been verified, [do_execute_port_redirect]
    gives the shell exactly one command: an [echo] of the single rule
    [rdr pass inet proto tcp from any to <source> port <port> -> <target>
    port <port>] piped into [pfctl -ef -], which loads the rules it reads
    from its standard input.  The command is made of the four parameters of
    the call only: a second redirect loads its own rule alone, without the
    rule of the first. *)
Theorem port_redirect_single_rule
  (source_address source_port target_address target_port : str)
  (h ev1 : list event) :
  steps (do_verify_loopback_address os debug_enabled source_address false) h
    (inr PNone) ev1 ->
  exists ev2,
    steps (do_execute_port_redirect os debug_enabled source_address source_port
             target_address target_port) h (inr PNone) (ev1 ++ ev2)
    /\ shell_commands ev2
       = [lit "echo "
          ++ quoted (lit "rdr pass inet proto tcp from any to " ++ source_address
                     ++ lit " port " ++ source_port ++ lit " -> " ++ target_address
                     ++ lit " port " ++ target_port)
          ++ lit " | sudo -p " ++ quoted (lit "sudo password: ")
          ++ lit " pfctl -ef -"]
    /\ runs ev2 = []
    /\ forall source_address' source_port' target_address' target_port' ev1',
        steps (do_verify_loopback_address os debug_enabled source_address' false)
          (h ++ ev1 ++ ev2) (inr PNone) ev1' ->
        exists ev2',
          steps (do_execute_port_redirect os debug_enabled source_address'
                   source_port' target_address' target_port')
            (h ++ ev1 ++ ev2) (inr PNone) (ev1' ++ ev2')
          /\ shell_commands ev2'
             = [lit "echo "
                ++ quoted (redirect_rule source_address' source_port' target_address'
                             target_port')
                ++ lit " | sudo -p " ++ quoted (lit "sudo password: ")
                ++ lit " pfctl -ef -"].
Proof.
  intros Hverify.
  destruct (steps_port_redirect source_address source_port target_address
              target_port h ev1 Hverify) as (ev2 & Hsteps & Hsh & Hruns).
  exists ev2. repeat split; try assumption.
  intros sa' sp' ta' tp' ev1' Hverify'.
  destruct (steps_port_redirect sa' sp' ta' tp' (h ++ ev1 ++ ev2) ev1' Hverify')
    as (ev2' & Hsteps' & Hsh' & _).
  exists ev2'. split; assumption.
Qed.

End Redirect.

Lemma port_redirect_single_rule_witness :
  let os := sample_os ps_none ifconfig_with_alias [] in
  let ev1 := [Run (lit "ifconfig -a") ifconfig_argv (Some 30%nat) true] in
  exists ev2,
    steps (do_execute_port_redirect os false
             (lit "127.0.0.2") (lit "443") (lit "10.0.0.5") (lit "8443")) []
      (inr PNone) (ev1 ++ ev2)
    /\ shell_commands ev2
       = [lit "echo "
          ++ quoted (lit "rdr pass inet proto tcp from any to " ++ lit "127.0.0.2"
                     ++ lit " port " ++ lit "443" ++ lit " -> " ++ lit "10.0.0.5"
                     ++ lit " port " ++ lit "8443")
          ++ lit " | sudo -p " ++ quoted (lit "sudo password: ")
          ++ lit " pfctl -ef -"]
    /\ runs ev2 = []
    /\ forall source_address' source_port' target_address' target_port' ev1',
        steps (do_verify_loopback_address os false source_address' false)
          ([] ++ ev1 ++ ev2) (inr PNone) ev1' ->
        exists ev2',
          steps (do_execute_port_redirect os false source_address'
                   source_port' target_address' target_port')
            ([] ++ ev1 ++ ev2) (inr PNone) (ev1' ++ ev2')
          /\ shell_commands ev2'
             = [lit "echo "
                ++ quoted (redirect_rule source_address' source_port' target_address'
                             target_port')
                ++ lit " | sudo -p " ++ quoted (lit "sudo password: ")
                ++ lit " pfctl -ef -"].
Proof.
  apply (port_redirect_single_rule (sample_os ps_none ifconfig_with_alias []) false
           (lit "127.0.0.2") (lit "443") (lit "10.0.0.5") (lit "8443") []
           [Run (lit "ifconfig -a") ifconfig_argv (Some 30%nat) true]).
  vm_compute. reflexivity.
Defined.

(** ** Loopback aliases *)

Lemma last_cons {A : Type} (x : A) (l : list A) (d : A) :
  last (x :: l) d = last l x.
Proof.
  revert x d. induction l as [|y l IH]; intros x d; [reflexivity|].
  change (last (x :: y :: l) d) with (last (y :: l) d).
  rewrite (IH y d), (IH y x). reflexivity.
Qed.

Lemma dot_not_newline (c : ascii) : is_dot c = true -> ascii_eqb c newline = false.
Proof. ascii_cases c. Qed.

Lemma atom_of_char_matches (c : ascii) (a : atom) :
  atom_of_char c = Some a -> atom_matches a c = true.
Proof.
  unfold atom_of_char. destruct (isword c).
  - intros [= <-]. apply ascii_eqb_refl.
  - destruct (is_dot c) eqn:Hd; [|discriminate].
    intros [= <-]. simpl. rewrite (dot_not_newline c Hd). reflexivity.
Qed.

(** The pattern built from an address matches the address itself, up to
    the closing word boundary. *)
Lemma atoms_match_self (address : str) :
  forall atoms prev after,
    atoms_of address = Some atoms ->
    atoms_match atoms prev (address ++ after)
    = boundary (last (map Some address) prev) (hd_error after).
Proof.
  induction address as [|c t IH]; intros atoms prev after H.
  - injection H as <-. reflexivity.
  - simpl in H. destruct (atom_of_char c) as [a|] eqn:Ha; [|discriminate].
    destruct (atoms_of t) as [l|] eqn:Hl; [|discriminate].
    injection H as <-. simpl app. simpl atoms_match.
    rewrite (atom_of_char_matches c a Ha). simpl andb.
    rewrite (IH l (Some c) after eq_refl).
    simpl map. rewrite last_cons. reflexivity.
Qed.

(** A match anywhere in the text is found by the search. *)
Lemma loopback_search_found (atoms : list atom) (before s : str) :
  forall prev,
    loopback_match_at atoms (last (map Some before) prev) s = true ->
    loopback_search atoms prev (before ++ s) = true.
Proof.
  induction before as [|c t IH]; intros prev H.
  - simpl in *. destruct s; simpl; rewrite H; reflexivity.
  - simpl app. simpl loopback_search.
    rewrite (IH (Some c)); [apply orb_true_r|].
    simpl map in H. rewrite last_cons in H. exact H.
Qed.

Lemma dropwhile_app_last (p : ascii -> bool) (l : str) (c : ascii) :
  p c = false -> dropwhile p (l ++ [c]) = dropwhile p l ++ [c].
Proof.
  intros Hc. induction l as [|x l IH]; simpl.
  - rewrite Hc. reflexivity.
  - destruct (p x); [exact IH | reflexivity].
Qed.

(** [strip] keeps a first character that is not whitespace. *)
Lemma strip_head (c : ascii) (s : str) :
  isspace c = false -> exists t, strip (c :: s) = c :: t.
Proof.
  intros Hc. unfold strip, lstrip, rstrip.
  rewrite dropwhile_stop by exact Hc.
  simpl rev. rewrite dropwhile_app_last by exact Hc.
  rewrite rev_app_distr. simpl. eexists. reflexivity.
Qed.

Lemma loopback_prefix_head (s : str) :
  loopback_prefix_match s = true -> exists t, s = ascii_of_N 49 :: t.
Proof.
  unfold loopback_prefix_match. destruct s as [|c t]; [discriminate|].
  intros H.
  change (ascii_eqb (ascii_of_N 49) c && startswith (lit "27.") t = true) in H.
  apply andb_true_iff in H as [H _]. apply ascii_eqb_eq in H.
  exists t. rewrite <- H. reflexivity.
Qed.

Lemma strip_loopback_head (s : str) :
  loopback_prefix_match s = true -> exists t, strip s = ascii_of_N 49 :: t.
Proof.
  intros H. destruct (loopback_prefix_head s H) as [t ->].
  apply strip_head. reflexivity.
Qed.

Section LoopbackAlias.

Variable os : OS.
Variable debug_enabled : bool.

(** A valid command, however its process ends. *)
Lemma steps_run_cli_any (cmd : str) (argv : list str) (t : option nat)
  (test cap : bool) (h : list event) :
  _validate_command cmd = inr argv ->
  exists r,
    steps (_run_cli_command os debug_enabled cmd t test cap) h r
      (run_events debug_enabled cmd argv t cap).
Proof.
  intros Hv.
  destruct (os_run os (h ++ debug_events debug_enabled
                              (lit "Executing command: " ++ cmd)) argv)
    as [rc out|] eqn:Hos.
  - eexists. apply (steps_run_cli os debug_enabled cmd argv t test cap h rc out Hv Hos).
  - eexists. unfold _run_cli_command, run_events.
    eapply steps_bind; [apply steps_print_debug|].
    rewrite Hv. unfold steps, bind, subprocess_run. rewrite Hos. reflexivity.
Qed.

(** The checks of [do_verify_loopback_address] pass on an address that
    starts with 127. and is allowed; the call goes on with [ifconfig -a]. *)
Lemma verify_after_checks (loopback_ip : str) (allow_all_loopback_ips : bool)
  (text : str) (h : list event) :
  loopback_prefix_match loopback_ip = true ->
  (allow_all_loopback_ips = false -> loopback_ip <> lit "127.0.0.1") ->
  yields os ifconfig_argv text ->
  forall (r : exn + pyval) (evs : list event),
    steps (match atoms_of (strip loopback_ip) with
           | None => raise (PatternOutsideModel (strip loopback_ip))
           | Some atoms =>
               if loopback_search atoms None text then
                 bind (print_debug debug_enabled
                         (lit "Existing loopback alias " ++ strip loopback_ip
                          ++ lit " found"))
                   (fun _ => ret PNone)
               else
                 bind (print_debug debug_enabled
                         (lit "Loopback alias " ++ strip loopback_ip
                          ++ lit " not found; creating"))
                   (fun _ =>
                      bind (do_prompt_for_sudo os debug_enabled)
                        (fun _ =>
                           bind (_run_cli_command os debug_enabled
                                   (alias_cmd (strip loopback_ip)) (Some 30%nat)
                                   true true)
                             (fun _ => ret PNone)))
           end)
      (h ++ run_events debug_enabled (lit "ifconfig -a") ifconfig_argv (Some 30%nat) true)
      r evs ->
    steps (do_verify_loopback_address os debug_enabled loopback_ip
             allow_all_loopback_ips) h r
      (run_events debug_enabled (lit "ifconfig -a") ifconfig_argv (Some 30%nat) true
       ++ evs).
Proof.
  intros Hprefix Hallow Hifc r evs Hrest.
  unfold do_verify_loopback_address.
  assert (H1 : negb (str_eqb loopback_ip []) = true).
  { destruct (loopback_prefix_head loopback_ip Hprefix) as [t ->]. reflexivity. }
  rewrite H1, Hprefix.
  rewrite <- (app_nil_l (run_events _ _ _ _ _ ++ evs)).
  eapply steps_bind; [apply steps_assert_true|].
  rewrite <- (app_nil_l (run_events _ _ _ _ _ ++ evs)).
  eapply steps_bind; [apply steps_assert_true|].
  rewrite <- (app_nil_l (run_events _ _ _ _ _ ++ evs)).
  eapply steps_bind.
  { instantiate (1 := tt). destruct allow_all_loopback_ips; [apply steps_ret|].
    assert (H3 : str_eqb loopback_ip (lit "127.0.0.1") = false).
    { destruct (str_eqb loopback_ip (lit "127.0.0.1")) eqn:E; [|reflexivity].
      apply str_eqb_eq in E. exfalso. exact (Hallow eq_refl E). }
    rewrite H3. apply steps_assert_true. }
  rewrite !app_nil_r.
  eapply steps_bind.
  { apply (steps_run_cli_ok os debug_enabled (lit "ifconfig -a") ifconfig_argv
             (Some 30%nat) true h text validate_ifconfig Hifc). }
  simpl stdout. exact Hrest.
Qed.

(** C6.  When the address already stands in the interface listing as a
    word of its own, [do_verify_loopback_address] returns normally and the
    only command it starts is [ifconfig -a]: no sudo validation and no
    alias creation.  This holds from any history, so a second call with
    the same address starts no alias creation either. *)
Theorem verify_loopback_existing_alias (loopback_ip : str)
  (allow_all_loopback_ips : bool) (atoms : list atom) (text : str)
  (h : list event) :
  loopback_prefix_match loopback_ip = true ->
  (allow_all_loopback_ips = false -> loopback_ip <> lit "127.0.0.1") ->
  atoms_of (strip loopback_ip) = Some atoms ->
  wordb (last (map Some (strip loopback_ip)) None) = true ->
  yields os ifconfig_argv text ->
  occurs_as_word (strip loopback_ip) text ->
  exists evs,
    (forall h',
        steps (do_verify_loopback_address os debug_enabled loopback_ip
                 allow_all_loopback_ips) h' (inr PNone) evs)
    /\ commands evs = [lit "ifconfig -a"]
    /\ runs evs = [ifconfig_argv]
    /\ steps (bind (do_verify_loopback_address os debug_enabled loopback_ip
                      allow_all_loopback_ips)
                (fun _ => do_verify_loopback_address os debug_enabled loopback_ip
                            allow_all_loopback_ips))
         h (inr PNone) (evs ++ evs).
Proof.
  intros Hprefix Hallow Hatoms Hlast Hifc (before & after & Htext & Hb & Ha).
  assert (Hfound : loopback_search atoms None text = true).
  { rewrite Htext. apply loopback_search_found.
    unfold loopback_match_at.
    destruct (strip_loopback_head loopback_ip Hprefix) as [t Ht].
    rewrite (atoms_match_self (strip loopback_ip) atoms _ after Hatoms).
    assert (Hlast' : forall p, wordb (last (map Some (strip loopback_ip)) p) = true).
    { intros p. rewrite Ht in *. simpl map in *. rewrite last_cons in *.
      destruct (map Some t); [reflexivity|]. rewrite last_cons in *. exact Hlast. }
    unfold boundary. rewrite Hlast', Ha, Hb. rewrite Ht. reflexivity. }
  set (evs := run_events debug_enabled (lit "ifconfig -a") ifconfig_argv
                (Some 30%nat) true
              ++ debug_events debug_enabled
                   (lit "Existing loopback alias " ++ strip loopback_ip
                    ++ lit " found") ++ []).
  assert (Hcall : forall h',
             steps (do_verify_loopback_address os debug_enabled loopback_ip
                      allow_all_loopback_ips) h' (inr PNone) evs).
  { intros h'. apply (verify_after_checks loopback_ip allow_all_loopback_ips text h'
                        Hprefix Hallow Hifc).
    rewrite Hatoms, Hfound.
    eapply steps_bind; [apply steps_print_debug | apply steps_ret]. }
  exists evs. split; [exact Hcall|]. split; [|split].
  - unfold evs. rewrite commands_app, commands_run_events, commands_app,
      commands_debug. reflexivity.
  - unfold evs. rewrite runs_app, runs_run_events, runs_app, runs_debug. reflexivity.
  - eapply steps_bind; apply Hcall.
Qed.

(** C10.  When the search for the address in the interface listing finds
    nothing, the commands of [do_verify_loopback_address] are [ifconfig -a],
    the sudo validation and the alias creation, whose command line is
    ["sudo ifconfig lo0 alias $"] followed by the address: the last
    argument given to [ifconfig] is the address with a dollar sign before
    it, and no command asks for an alias of the address itself. *)
Theorem verify_loopback_alias_command (loopback_ip : str)
  (allow_all_loopback_ips : bool) (atoms : list atom) (text : str)
  (h : list event) :
  loopback_prefix_match loopback_ip = true ->
  (allow_all_loopback_ips = false -> loopback_ip <> lit "127.0.0.1") ->
  atoms_of (strip loopback_ip) = Some atoms ->
  yields os ifconfig_argv text ->
  loopback_search atoms None text = false ->
  succeeds os sudo_validate_argv ->
  exists r evs,
    steps (do_verify_loopback_address os debug_enabled loopback_ip
             allow_all_loopback_ips) h r evs
    /\ commands evs
       = [lit "ifconfig -a"; sudo_validate_cmd;
          lit "sudo ifconfig lo0 alias $" ++ strip loopback_ip]
    /\ runs evs
       = [ifconfig_argv; sudo_validate_argv;
          [lit "sudo"; lit "ifconfig"; lit "lo0"; lit "alias";
           lit "$" ++ strip loopback_ip]]
    /\ ~ In [lit "sudo"; lit "ifconfig"; lit "lo0"; lit "alias"; strip loopback_ip]
           (runs evs).
Proof.
  intros Hprefix Hallow Hatoms Hifc Hnone Hsudo.
  destruct (strip_loopback_head loopback_ip Hprefix) as [t Ht].
  assert (Hne : strip loopback_ip <> []) by (rewrite Ht; discriminate).
  pose proof (validate_alias (strip loopback_ip) atoms Hatoms Hne) as Hv.
  set (e0 := run_events debug_enabled (lit "ifconfig -a") ifconfig_argv
               (Some 30%nat) true).
  set (e1 := debug_events debug_enabled
               (lit "Loopback alias " ++ strip loopback_ip
                ++ lit " not found; creating")).
  set (e2 := run_events debug_enabled sudo_validate_cmd sudo_validate_argv None false).
  destruct (steps_run_cli_any (alias_cmd (strip loopback_ip))
              (alias_argv (strip loopback_ip)) (Some 30%nat) true true
              (((h ++ e0) ++ e1) ++ e2) Hv) as [r3 H3].
  set (e3 := run_events debug_enabled (alias_cmd (strip loopback_ip))
               (alias_argv (strip loopback_ip)) (Some 30%nat) true) in *.
  assert (Hruns : runs (e0 ++ e1 ++ e2 ++ e3)
                  = [ifconfig_argv; sudo_validate_argv; alias_argv (strip loopback_ip)]).
  { unfold e0, e1, e2, e3.
    rewrite !runs_app, !runs_run_events, runs_debug. reflexivity. }
  assert (Hcmds : commands (e0 ++ e1 ++ e2 ++ e3)
                  = [lit "ifconfig -a"; sudo_validate_cmd; alias_cmd (strip loopback_ip)]).
  { unfold e0, e1, e2, e3.
    rewrite !commands_app, !commands_run_events, commands_debug. reflexivity. }
  assert (Hsteps : exists r,
             steps (do_verify_loopback_address os debug_enabled loopback_ip
                      allow_all_loopback_ips) h r (e0 ++ e1 ++ e2 ++ e3)).
  { destruct r3 as [e | cp].
    - exists (inl e).
      apply (verify_after_checks loopback_ip allow_all_loopback_ips text h
               Hprefix Hallow Hifc).
      rewrite Hatoms, Hnone.
      eapply steps_bind; [apply steps_print_debug|].
      eapply steps_bind; [apply steps_sudo; exact Hsudo|].
      apply steps_bind_raise. exact H3.
    - exists (inr PNone).
      apply (verify_after_checks loopback_ip allow_all_loopback_ips text h
               Hprefix Hallow Hifc).
      rewrite Hatoms, Hnone.
      eapply steps_bind; [apply steps_print_debug|].
      eapply steps_bind; [apply steps_sudo; exact Hsudo|].
      rewrite <- (app_nil_r e3).
      eapply steps_bind; [exact H3 | apply steps_ret]. }
  destruct Hsteps as [r Hr].
  exists r, (e0 ++ e1 ++ e2 ++ e3). split; [exact Hr|]. split; [|split].
  - rewrite Hcmds. reflexivity.
  - rewrite Hruns. reflexivity.
  - rewrite Hruns. intros [H | [H | [H | []]]]; try discriminate.
    unfold alias_argv in H. injection H as H.
    apply (f_equal (@length ascii)) in H. simpl in H. lia.
Qed.

End LoopbackAlias.

Lemma verify_loopback_existing_alias_witness :
  let os := sample_os ps_none ifconfig_with_alias [] in
  exists evs,
    (forall h',
        steps (do_verify_loopback_address os false (lit "127.0.0.2") false) h'
          (inr PNone) evs)
    /\ commands evs = [lit "ifconfig -a"]
    /\ runs evs = [ifconfig_argv]
    /\ steps (bind (do_verify_loopback_address os false (lit "127.0.0.2") false)
                (fun _ => do_verify_loopback_address os false (lit "127.0.0.2") false))
         [] (inr PNone) (evs ++ evs).
Proof.
  eapply (verify_loopback_existing_alias (sample_os ps_none ifconfig_with_alias [])
            false (lit "127.0.0.2") false _ ifconfig_with_alias []).
  - vm_compute. reflexivity.
  - intros _ H. vm_compute in H. discriminate H.
  - reflexivity.
  - vm_compute. reflexivity.
  - intros h. reflexivity.
  - exists (lit "lo0: flags=8049<UP,LOOPBACK,RUNNING,MULTICAST> mtu 16384" ++ NL
            ++ TAB ++ lit "inet 127.0.0.1 netmask 0xff000000" ++ NL
            ++ TAB ++ lit "inet ").
    exists (lit " netmask 0xff000000" ++ NL).
    vm_compute. repeat split.
Defined.

Lemma verify_loopback_alias_command_witness :
  let os := sample_os ps_none ifconfig_without_alias [] in
  exists r evs,
    steps (do_verify_loopback_address os false (lit "127.0.0.2") false) [] r evs
    /\ commands evs
       = [lit "ifconfig -a"; sudo_validate_cmd;
          lit "sudo ifconfig lo0 alias $" ++ strip (lit "127.0.0.2")]
    /\ runs evs
       = [ifconfig_argv; sudo_validate_argv;
          [lit "sudo"; lit "ifconfig"; lit "lo0"; lit "alias";
           lit "$" ++ strip (lit "127.0.0.2")]]
    /\ ~ In [lit "sudo"; lit "ifconfig"; lit "lo0"; lit "alias";
             strip (lit "127.0.0.2")]
           (runs evs).
Proof.
  eapply (verify_loopback_alias_command (sample_os ps_none ifconfig_without_alias [])
            false (lit "127.0.0.2") false _ ifconfig_without_alias []).
  - vm_compute. reflexivity.
  - intros _ H. vm_compute in H. discriminate H.
  - reflexivity.
  - intros h. reflexivity.
  - vm_compute. reflexivity.
  - intros h. eexists. reflexivity.
Defined.

(** ** Reading a line of the process table *)















#[local] Arguments ascii_eqb : simpl never.






Section Discovery.

Variable os : OS.
Variable debug_enabled : bool.


End Discovery.



(** * Further properties of the module *)

(** ** Command validation *)

Lemma dropwhile_all (p : ascii -> bool) (xs rest : str) :
  all_chars p xs -> dropwhile p (xs ++ rest) = dropwhile p rest.
Proof. induction 1 as [|c xs Hc _ IH]; simpl; [reflexivity|]. rewrite Hc. exact IH. Qed.

Lemma all_chars_rev (p : ascii -> bool) (xs : str) :
  all_chars p xs -> all_chars p (rev xs).
Proof. unfold all_chars. intros H. apply Forall_rev. exact H. Qed.

Lemma strip_blank (s : str) : all_chars isspace s -> strip s = [].
Proof.
  intros H. unfold strip, lstrip, rstrip.
  rewrite <- (app_nil_r s) at 1. rewrite (dropwhile_all isspace s [] H). reflexivity.
Qed.

(** [strip] removes whitespace after a last character that is not
    whitespace. *)
Lemma strip_trailing (c : ascii) (mid : str) (d : ascii) (w : str) :
  isspace c = false -> isspace d = false -> all_chars isspace w ->
  strip ((c :: mid ++ [d]) ++ w) = c :: mid ++ [d].
Proof.
  intros Hc Hd Hw. unfold strip, lstrip, rstrip.
  simpl app at 1. rewrite dropwhile_stop by exact Hc.
  change (c :: (mid ++ [d]) ++ w) with ((c :: mid ++ [d]) ++ w).
  rewrite rev_app_distr.
  rewrite (dropwhile_all isspace (rev w) _ (all_chars_rev isspace w Hw)).
  assert (E : rev (c :: mid ++ [d]) = d :: rev (c :: mid)).
  { change (c :: mid ++ [d]) with ((c :: mid) ++ [d]).
    rewrite rev_app_distr. reflexivity. }
  rewrite E, dropwhile_stop by exact Hd. rewrite <- E. apply rev_involutive.
Qed.

Lemma contains_char_in (x : ascii) (s : str) : contains [x] s = true <-> In x s.
Proof.
  induction s as [|c s IH]; simpl; [split; [discriminate | contradiction]|].
  rewrite orb_true_iff, IH, andb_true_r. unfold ascii_eqb.
  rewrite Ascii.eqb_eq. split; intros [H | H]; auto.
Qed.

Lemma in_dropwhile (p : ascii -> bool) (x : ascii) (s : str) :
  p x = false -> In x s -> In x (dropwhile p s).
Proof.
  intros Hx. induction s as [|c s IH]; simpl; [contradiction|].
  intros [-> | H].
  - rewrite Hx. left. reflexivity.
  - destruct (p c); [apply IH; exact H | right; exact H].
Qed.

Lemma in_strip (x : ascii) (s : str) : isspace x = false -> In x s -> In x (strip s).
Proof.
  intros Hx H. unfold strip, lstrip, rstrip.
  apply in_rev. rewrite rev_involutive. apply in_dropwhile; [exact Hx|].
  apply in_rev. rewrite rev_involutive. apply in_dropwhile; assumption.
Qed.

Lemma validate_pipe (cmd : str) :
  contains (lit "|") cmd = true ->
  _validate_command cmd
  = inl (ValueError (lit "Pipe commands not supported at this time")).
Proof.
  intros Hpipe. change (lit "|") with [pipe] in Hpipe.
  apply contains_char_in in Hpipe.
  pose proof (in_strip pipe cmd eq_refl Hpipe) as Hin.
  unfold _validate_command. change (lit "|") with [pipe].
  destruct (strip cmd) as [|c s] eqn:Hs; [contradiction|].
  change (str_eqb (c :: s) []) with false. cbv iota.
  apply contains_char_in in Hin. rewrite Hin. reflexivity.
Qed.

Section CommandValidation.

Variable os : OS.
Variable debug_enabled : bool.

(** X1.  A command that is empty or made of whitespace only is refused
    with [ValueError("No command provided")], and [_run_cli_command] starts
    no process for it. *)
Theorem blank_command_is_refused (cmd : str) (timeout : option nat)
  (test capture_output : bool) (h : list event) :
  all_chars isspace cmd ->
  _validate_command cmd = inl (ValueError (lit "No command provided"))
  /\ exists evs,
       steps (_run_cli_command os debug_enabled cmd timeout test capture_output) h
         (inl (ValueError (lit "No command provided"))) evs
       /\ commands evs = [].
Proof.
  intros Hblank.
  assert (Hv : _validate_command cmd = inl (ValueError (lit "No command provided"))).
  { unfold _validate_command. rewrite (strip_blank cmd Hblank). reflexivity. }
  split; [exact Hv|].
  exists (debug_events debug_enabled (lit "Executing command: " ++ cmd) ++ []).
  split.
  - unfold _run_cli_command. eapply steps_bind; [apply steps_print_debug|].
    rewrite Hv. apply steps_raise.
  - rewrite app_nil_r. apply commands_debug.
Qed.

(** X2.  A command line with a pipe character anywhere in it is refused
    with [ValueError("Pipe commands not supported at this time")], and
    [_run_cli_command] starts no process for it. *)
Theorem pipe_command_is_refused (cmd : str) (timeout : option nat)
  (test capture_output : bool) (h : list event) :
  contains (lit "|") cmd = true ->
  _validate_command cmd
  = inl (ValueError (lit "Pipe commands not supported at this time"))
  /\ exists evs,
       steps (_run_cli_command os debug_enabled cmd timeout test capture_output) h
         (inl (ValueError (lit "Pipe commands not supported at this time"))) evs
       /\ commands evs = [].
Proof.
  intros Hpipe. pose proof (validate_pipe cmd Hpipe) as Hv.
  split; [exact Hv|].
  exists (debug_events debug_enabled (lit "Executing command: " ++ cmd) ++ []).
  split.
  - unfold _run_cli_command. eapply steps_bind; [apply steps_print_debug|].
    rewrite Hv. apply steps_raise.
  - rewrite app_nil_r. apply commands_debug.
Qed.

End CommandValidation.

Lemma shlex_word_then_space (w rest : str) :
  all_chars solid w -> w <> [] ->
  shlex_run InSpace [] (w ++ ascii_of_N 32 :: rest)
  = push_token w (shlex_run InSpace [] rest).
Proof.
  intros Hw Hne. destruct Hw as [|c w Hc Hw]; [congruence|].
  simpl app. rewrite solid_space_step by exact Hc.
  assert (E : forall tok, shlex_run InWord tok (w ++ ascii_of_N 32 :: rest)
                          = push_token (tok ++ w) (shlex_run InSpace [] rest)).
  { clear Hne Hc. induction Hw as [|d w Hd _ IH]; intros tok.
    - simpl. rewrite app_nil_r. reflexivity.
    - simpl app. rewrite solid_word_step by exact Hd.
      rewrite IH, <- app_assoc. reflexivity. }
  apply (E [c]).
Qed.

Lemma shlex_split_join (words : list str) :
  Forall (fun w => all_chars solid w /\ w <> []) words ->
  shlex_split (join (lit " ") words) = inr words.
Proof.
  unfold shlex_split. induction 1 as [|w rest [Hw Hne] Hrest IH]; [reflexivity|].
  destruct rest as [|w' rest'].
  - simpl join. rewrite shlex_space_run by assumption. reflexivity.
  - change (join (lit " ") (w :: w' :: rest'))
      with (w ++ ascii_of_N 32 :: join (lit " ") (w' :: rest')).
    rewrite shlex_word_then_space by assumption. rewrite IH. reflexivity.
Qed.

Lemma all_chars_join (p : ascii -> bool) (words : list str) :
  p (ascii_of_N 32) = true ->
  Forall (all_chars p) words -> all_chars p (join (lit " ") words).
Proof.
  intros Hsp. induction 1 as [|w rest Hw Hrest IH]; [constructor|].
  destruct rest as [|w' rest']; [exact Hw|].
  change (join (lit " ") (w :: w' :: rest'))
    with (w ++ ascii_of_N 32 :: join (lit " ") (w' :: rest')).
  apply Forall_app. split; [exact Hw|]. constructor; [exact Hsp | exact IH].
Qed.

Lemma join_ends (words : list str) :
  words <> [] ->
  Forall (fun w => all_chars solid w /\ w <> []) words ->
  exists c mid, (join (lit " ") words = [c] \/ exists d, join (lit " ") words = c :: mid ++ [d] /\ isspace d = false)
                /\ isspace c = false.
Proof.
  intros Hne Hall.
  assert (Hlast : forall ws, ws <> [] ->
            Forall (fun w => all_chars solid w /\ w <> []) ws ->
            exists pre d, join (lit " ") ws = pre ++ [d] /\ solid d = true).
  { induction ws as [|w rest IH]; [congruence|]. intros _ H.
    inversion H as [|? ? [Hw Hwne] Hrest]; subst.
    destruct rest as [|w' rest'].
    - simpl join. destruct (exists_last Hwne) as (pre & d & ->).
      exists pre, d. split; [reflexivity|].
      unfold all_chars in Hw. rewrite Forall_forall in Hw. apply Hw.
      apply in_or_app. right. left. reflexivity.
    - destruct (IH ltac:(discriminate) Hrest) as (pre & d & E & Hd).
      exists (w ++ ascii_of_N 32 :: pre), d. split; [|exact Hd].
      change (join (lit " ") (w :: w' :: rest'))
        with (w ++ ascii_of_N 32 :: join (lit " ") (w' :: rest')).
      rewrite E, <- app_assoc. reflexivity. }
  destruct (Hlast words Hne Hall) as (pre & d & E & Hd).
  destruct words as [|w rest]; [congruence|].
  inversion Hall as [|? ? [Hw Hwne] _]; subst.
  destruct w as [|c w]; [congruence|].
  assert (Hc : solid c = true) by (inversion Hw; assumption).
  assert (Hhead : exists t, join (lit " ") ((c :: w) :: rest) = c :: t)
    by (destruct rest; eexists; reflexivity).
  destruct Hhead as [t Ht].
  pose proof (eq_trans (eq_sym Ht) E) as E2. clear E. rename E2 into E.
  exists c. destruct (list_eq_dec ascii_dec t []) as [-> | Hne'].
  - exists []. split; [left; exact Ht | apply solid_not_space; exact Hc].
  - destruct (exists_last Hne') as (mid & x & ->).
    exists mid. split; [|apply solid_not_space; exact Hc].
    right. exists x. split; [exact Ht|].
    assert (E' : (c :: mid) ++ [x] = pre ++ [d]) by exact E.
    apply app_inj_tail in E' as [_ ->]. apply solid_not_space. exact Hd.
Qed.

(** X3.  A command line made of words without whitespace, quotes,
    backslashes or pipes, separated by single spaces, is valid, and its
    argument vector is the list of those words. *)
Theorem validate_command_words (words : list str) :
  words <> [] ->
  Forall (fun w => all_chars solid w /\ w <> []) words ->
  _validate_command (join (lit " ") words) = inr words.
Proof.
  intros Hne Hall.
  assert (Hstrip : strip (join (lit " ") words) = join (lit " ") words).
  { destruct (join_ends words Hne Hall) as (c & mid & [E | (d & E & Hd)] & Hc);
      rewrite E.
    - apply strip_single. exact Hc.
    - apply strip_id; assumption. }
  assert (Hnopipe : contains [pipe] (join (lit " ") words) = false).
  { apply contains_char_false.
    assert (Hnp : Forall (all_chars (fun c => negb (ascii_eqb pipe c))) words).
    { eapply Forall_impl; [|exact Hall]. intros w [Hw _].
      eapply Forall_impl; [|exact Hw]. intros a Ha. cbv beta.
      unfold pipe. rewrite (solid_not_pipe a Ha). reflexivity. }
    pose proof (all_chars_join _ words eq_refl Hnp) as Hj.
    eapply Forall_impl; [|exact Hj]. intros a Ha.
    apply negb_true_iff in Ha. exact Ha. }
  unfold _validate_command. rewrite !Hstrip.
  change (lit "|") with [pipe]. rewrite Hnopipe.
  rewrite (shlex_split_join words Hall).
  destruct (join_ends words Hne Hall) as (c & mid & [E | (d & E & Hd)] & Hc);
    rewrite E; destruct words; try congruence; reflexivity.
Qed.

(** ** The selection of tunnel processes *)

Lemma in_dict_set (d : list (N * str)) (k : N) (v : str) (e : N * str) :
  In e (dict_set d k v) -> e = (k, v) \/ In e d.
Proof.
  induction d as [|[k' v'] rest IH]; simpl.
  - intros [<- | []]. left. reflexivity.
  - destruct (N.eqb k' k).
    + intros [<- | H]; [left; reflexivity | right; right; exact H].
    + intros [<- | H]; [right; left; reflexivity|].
      destruct (IH H) as [-> | H']; [left; reflexivity | right; right; exact H'].
Qed.

Lemma in_keys_dict_set (d : list (N * str)) (k : N) (v : str) (k' : N) :
  In k' (keys (dict_set d k v)) <-> k' = k \/ In k' (keys d).
Proof.
  unfold keys. induction d as [|[k0 v0] rest IH]; simpl.
  - split; [intros [<- | []]; left; reflexivity | intros [-> | []]; left; reflexivity].
  - destruct (N.eqb k0 k) eqn:E; simpl.
    + apply N.eqb_eq in E. subst k0. intuition (subst; auto).
    + rewrite IH. intuition (subst; auto).
Qed.

Lemma nodup_dict_set (d : list (N * str)) (k : N) (v : str) :
  NoDup (keys d) -> NoDup (keys (dict_set d k v)).
Proof.
  unfold keys. induction d as [|[k0 v0] rest IH]; simpl; intros H.
  - constructor; [intros [] | constructor].
  - inversion H as [|? ? Hnotin Hrest]; subst.
    destruct (N.eqb k0 k) eqn:E; simpl.
    + apply N.eqb_eq in E. subst k0. constructor; assumption.
    + constructor; [|apply IH; exact Hrest].
      intros Hin. apply (in_keys_dict_set rest k v k0) in Hin.
      destruct Hin as [-> | Hin]; [|exact (Hnotin Hin)].
      rewrite N.eqb_refl in E. discriminate.
Qed.

(** One step of the comprehension that builds [tunnel_PIDs]. *)
Lemma tunnel_PIDs_of_snoc (specific_loopback : str) (lines : list str) (l : str) :
  tunnel_PIDs_of specific_loopback (lines ++ [l])
  = if is_tunnel_line specific_loopback l then
      match pid_pattern_findall l with
      | g :: _ => dict_set (tunnel_PIDs_of specific_loopback lines) (int_of_digits g) l
      | [] => tunnel_PIDs_of specific_loopback lines
      end
    else tunnel_PIDs_of specific_loopback lines.
Proof. unfold tunnel_PIDs_of. rewrite fold_left_app. reflexivity. Qed.

(** X4.  The entries [do_terminate_tunnels] selects from a process table:
    no process id is selected twice; every selected line is a line of the
    table that contains [ssh], [-L] and the bind filter, and its key is the
    integer [pid_pattern] captures on it; and every line of the table that
    passes these tests has its process id among the keys. *)
Theorem selected_entries_are_tunnel_lines (loopback_ip : option str)
  (loopback_port : pyval) (table : str) :
  let specific_loopback := specific_loopback_of loopback_ip loopback_port in
  NoDup (keys (selected loopback_ip loopback_port table))
  /\ (forall PID _line,
         In (PID, _line) (selected loopback_ip loopback_port table) ->
         In _line (str_split newline table)
         /\ contains (lit "ssh") _line = true
         /\ contains (lit "-L") _line = true
         /\ contains specific_loopback _line = true
         /\ exists g, pid_pattern_match _line = Some g /\ PID = int_of_digits g)
  /\ (forall _line g,
         In _line (str_split newline table) ->
         is_tunnel_line specific_loopback _line = true ->
         pid_pattern_match _line = Some g ->
         In (int_of_digits g) (keys (selected loopback_ip loopback_port table))).
Proof.
  intros spec. unfold selected. fold spec.
  generalize (str_split newline table) as lines.
  induction lines as [|l lines IH] using rev_ind.
  - split; [constructor|]. split; [intros ? ? []|intros ? ? []].
  - destruct IH as (Hnd & Hsound & Hcomplete).
    rewrite tunnel_PIDs_of_snoc.
    destruct (is_tunnel_line spec l) eqn:Hl.
    + unfold pid_pattern_findall.
      pose proof Hl as Hl'. unfold is_tunnel_line in Hl'.
      destruct (pid_pattern_match l) as [g|] eqn:Hg;
        [|rewrite andb_false_r in Hl'; discriminate].
      rewrite andb_true_r in Hl'.
      apply andb_true_iff in Hl' as [Hl' Hspec].
      apply andb_true_iff in Hl' as [Hssh HL].
      split; [apply nodup_dict_set; exact Hnd|]. split.
      * intros PID _line Hin. apply in_dict_set in Hin as [E | Hin].
        -- injection E as -> ->. split; [apply in_or_app; right; left; reflexivity|].
           repeat split; try assumption. exists g. split; [exact Hg | reflexivity].
        -- destruct (Hsound PID _line Hin) as (H1 & H2).
           split; [apply in_or_app; left; exact H1 | exact H2].
      * intros _line g' Hin Hline Hg'. apply in_keys_dict_set.
        apply in_app_or in Hin as [Hin | [<- | []]].
        -- right. apply (Hcomplete _line g' Hin Hline Hg').
        -- left. congruence.
    + split; [exact Hnd|]. split.
      * intros PID _line Hin. destruct (Hsound PID _line Hin) as (H1 & H2).
        split; [apply in_or_app; left; exact H1 | exact H2].
      * intros _line g Hin Hline Hg.
        apply in_app_or in Hin as [Hin | [<- | []]].
        -- apply (Hcomplete _line g Hin Hline Hg).
        -- congruence.
Qed.

Section TerminateAnySystem.

Variable os : OS.
Variable debug_enabled : bool.

Lemma steps_sudo_any (h : list event) :
  exists r,
    steps (do_prompt_for_sudo os debug_enabled) h r
      (run_events debug_enabled sudo_validate_cmd sudo_validate_argv None false).
Proof.
  destruct (steps_run_cli_any os debug_enabled sudo_validate_cmd sudo_validate_argv
              None true false h validate_sudo) as [[e | cp] H].
  - exists (inl e). apply steps_bind_raise. exact H.
  - exists (inr PNone). unfold do_prompt_for_sudo.
    rewrite <- (app_nil_r (run_events _ _ _ _ _)).
    eapply steps_bind; [exact H | apply steps_ret].
Qed.

Lemma steps_run_cli_timed_out (cmd : str) (argv : list str) (t : option nat)
  (test cap : bool) (h : list event) :
  _validate_command cmd = inr argv ->
  os_run os (h ++ debug_events debug_enabled (lit "Executing command: " ++ cmd)) argv
  = TimedOut ->
  steps (_run_cli_command os debug_enabled cmd t test cap) h
    (inl (match t with
          | Some _ => TimeoutExpired argv
          | None => NeverReturns argv
          end))
    (run_events debug_enabled cmd argv t cap).
Proof.
  intros Hv Hos. unfold _run_cli_command, run_events.
  eapply steps_bind; [apply steps_print_debug|].
  rewrite Hv. unfold steps, bind, subprocess_run. rewrite Hos. reflexivity.
Qed.

(** One turn of the loop on any system: it starts the kill of its own
    process, or nothing at all. *)
Lemma kill_tunnel_any (entry : N * str) (h : list event) :
  exists r evs,
    steps (kill_tunnel os debug_enabled entry) h r evs
    /\ ((runs evs = [] /\ exists e, r = inl e) \/ runs evs = [kill_argv (fst entry)]).
Proof.
  destruct entry as [PID tunnel]. destruct (extractable tunnel) eqn:Hx.
  - unfold extractable in Hx. unfold kill_tunnel.
    destruct (firstn 2 (endpoint_findall tunnel)) as [|a [|b [|c l]]]; try discriminate.
    destruct (server_findall tunnel) as [|srv l]; [discriminate|].
    set (line := lit "Killing " ++ _).
    destruct (steps_run_cli_any os debug_enabled (kill_cmd PID) (kill_argv PID)
                (Some 30%nat) true true (h ++ [Print line]) (validate_kill PID))
      as [r Hr].
    exists (match r with inl e => inl e | inr _ => inr tt end).
    exists ([Print line] ++ run_events debug_enabled (kill_cmd PID) (kill_argv PID)
                             (Some 30%nat) true).
    split.
    + eapply steps_bind; [apply steps_print|].
      destruct r as [e | cp].
      * apply steps_bind_raise. exact Hr.
      * rewrite <- (app_nil_r (run_events _ _ _ _ _)).
        eapply steps_bind; [exact Hr | apply steps_ret].
    + right. rewrite runs_app, runs_run_events. reflexivity.
  - destruct (steps_kill_tunnel_unparsed os debug_enabled PID tunnel Hx)
      as (e & _ & He).
    exists (inl e), []. split; [apply He|]. left. split; [reflexivity | eauto].
Qed.

(** The loop on any system: the kills it starts are those of a beginning
    of the selection, in order. *)
Lemma kill_loop_any (entries : list (N * str)) :
  forall h, exists r evs n,
    steps (for_each entries (kill_tunnel os debug_enabled)) h r evs
    /\ runs evs = map kill_argv (keys (firstn n entries)).
Proof.
  induction entries as [|entry rest IH]; intros h.
  - exists (inr tt), [], 0%nat. split; [apply steps_for_each_nil | reflexivity].
  - destruct (kill_tunnel_any entry h) as (r & e1 & Hstep & Hruns).
    destruct r as [e | []].
    + destruct Hruns as [[Hr _] | Hr].
      * exists (inl e), e1, 0%nat. split; [|exact Hr].
        apply steps_for_each_raise. exact Hstep.
      * exists (inl e), e1, 1%nat. split; [|exact Hr].
        apply steps_for_each_raise. exact Hstep.
    + destruct Hruns as [[_ [e He]] | Hr]; [discriminate|].
      destruct (IH (h ++ e1)) as (r & e2 & n & Hrest & Hr2).
      exists r, (e1 ++ e2), (S n). split.
      * eapply steps_for_each_cons; eassumption.
      * rewrite runs_app, Hr, Hr2. reflexivity.
Qed.

(** The runs of [do_terminate_tunnels] on any system. *)
Lemma terminate_runs_any (loopback_ip : option str) (loopback_port : pyval)
  (h : list event) :
  exists r evs,
    steps (do_terminate_tunnels os debug_enabled loopback_ip loopback_port) h r evs
    /\ (runs evs = [ps_argv]
        \/ exists table n,
             os_run os (h ++ debug_events debug_enabled
                               (lit "Executing command: " ++ lit "ps -ef")) ps_argv
             = Exited 0 table
             /\ runs evs
                = ps_argv :: sudo_validate_argv
                  :: map kill_argv
                       (keys (firstn n (selected loopback_ip loopback_port table)))).
Proof.
  set (e0 := run_events debug_enabled (lit "ps -ef") ps_argv (Some 30%nat) true).
  destruct (os_run os (h ++ debug_events debug_enabled
                              (lit "Executing command: " ++ lit "ps -ef")) ps_argv)
    as [rc table|] eqn:Hps.
  - pose proof (steps_run_cli os debug_enabled (lit "ps -ef") ps_argv (Some 30%nat)
                  true true h rc table validate_ps Hps) as Hrun.
    simpl andb in Hrun. destruct (Z.eqb rc 0) eqn:Hrc; simpl negb in Hrun;
      cbv iota in Hrun.
    + apply Z.eqb_eq in Hrc. subst rc.
      destruct (selected loopback_ip loopback_port table) as [|x l] eqn:Hsel.
      * exists (inr PNone). eexists. split.
        -- unfold do_terminate_tunnels. eapply steps_bind; [exact Hrun|].
           simpl stdout. fold (selected loopback_ip loopback_port table).
           rewrite Hsel.
           eapply steps_bind; [apply steps_print|].
           eapply steps_bind; [apply steps_notify | apply steps_ret].
        -- left. rewrite runs_app. unfold e0. rewrite runs_run_events. reflexivity.
      * destruct (steps_sudo_any (h ++ e0)) as [[e | v] Hsudo].
        -- exists (inl e). eexists. split.
           ++ unfold do_terminate_tunnels. eapply steps_bind; [exact Hrun|].
              simpl stdout. fold (selected loopback_ip loopback_port table).
              rewrite Hsel. apply steps_bind_raise. exact Hsudo.
           ++ right. exists table, 0%nat. split; [reflexivity|].
              rewrite runs_app. unfold e0. rewrite !runs_run_events. reflexivity.
        -- destruct (kill_loop_any (x :: l)
                       ((h ++ e0) ++ run_events debug_enabled sudo_validate_cmd
                                        sudo_validate_argv None false))
             as (r & evs & n & Hloop & Hruns).
           destruct r as [e | []].
           ++ exists (inl e). eexists. split.
              ** unfold do_terminate_tunnels. eapply steps_bind; [exact Hrun|].
                 simpl stdout. fold (selected loopback_ip loopback_port table).
                 rewrite Hsel. eapply steps_bind; [exact Hsudo|].
                 apply steps_bind_raise. exact Hloop.
              ** right. exists table, n. split; [reflexivity|].
                 rewrite !runs_app. unfold e0. rewrite !runs_run_events, Hruns, Hsel.
                 reflexivity.
           ++ exists (inr PNone). eexists. split.
              ** unfold do_terminate_tunnels. eapply steps_bind; [exact Hrun|].
                 simpl stdout. fold (selected loopback_ip loopback_port table).
                 rewrite Hsel. eapply steps_bind; [exact Hsudo|].
                 eapply steps_bind; [exact Hloop|].
                 eapply steps_bind; [apply steps_notify | apply steps_ret].
              ** right. exists table, n. split; [reflexivity|].
                 rewrite !runs_app. unfold e0. rewrite !runs_run_events, Hruns, Hsel.
                 simpl. rewrite app_nil_r. reflexivity.
    + exists (inl (CalledProcessError rc ps_argv)), e0. split.
      * unfold do_terminate_tunnels. apply steps_bind_raise. exact Hrun.
      * left. unfold e0. apply runs_run_events.
  - exists (inl (TimeoutExpired ps_argv)), e0. split.
    + unfold do_terminate_tunnels. apply steps_bind_raise.
      apply (steps_run_cli_timed_out (lit "ps -ef") ps_argv (Some 30%nat) true true h
               validate_ps Hps).
    + left. unfold e0. apply runs_run_events.
Qed.


(** X6.  When the sudo validation fails, [do_terminate_tunnels] ends with
    its [CalledProcessError] and no process is killed. *)
Theorem terminate_tunnels_needs_sudo (loopback_ip : option str)
  (loopback_port : pyval) (table : str) (rc : Z) (h : list event) :
  yields os ps_argv table ->
  selected loopback_ip loopback_port table <> [] ->
  exits_with os sudo_validate_argv rc ->
  rc <> 0%Z ->
  exists evs,
    steps (do_terminate_tunnels os debug_enabled loopback_ip loopback_port) h
      (inl (CalledProcessError rc sudo_validate_argv)) evs
    /\ runs evs = [ps_argv; sudo_validate_argv].
Proof.
  intros Hps Hne Hsudo Hrc.
  set (e0 := run_events debug_enabled (lit "ps -ef") ps_argv (Some 30%nat) true).
  destruct (Hsudo ((h ++ e0) ++ debug_events debug_enabled
                                  (lit "Executing command: " ++ sudo_validate_cmd)))
    as [out Hout].
  pose proof (steps_run_cli os debug_enabled sudo_validate_cmd sudo_validate_argv
                None true false (h ++ e0) rc out validate_sudo Hout) as Hrun.
  apply Z.eqb_neq in Hrc. simpl andb in Hrun. rewrite Hrc in Hrun.
  simpl negb in Hrun. cbv iota in Hrun.
  eexists. split.
  - unfold do_terminate_tunnels.
    eapply steps_bind.
    { apply (steps_run_cli_ok os debug_enabled (lit "ps -ef") ps_argv (Some 30%nat)
               true h table validate_ps Hps). }
    simpl stdout. fold (selected loopback_ip loopback_port table).
    destruct (selected loopback_ip loopback_port table) as [|x l]; [congruence|].
    apply steps_bind_raise. unfold do_prompt_for_sudo.
    apply steps_bind_raise. exact Hrun.
  - rewrite runs_app. unfold e0. rewrite !runs_run_events. reflexivity.
Qed.

End TerminateAnySystem.

(** ** The search for an existing alias *)

Lemma word_not_dot (c : ascii) : isword c = true -> is_dot c = false.
Proof. ascii_cases c. Qed.

Lemma last_default {A : Type} (l : list A) (d d' : A) :
  l <> [] -> last l d = last l d'.
Proof.
  destruct l as [|x l]; [congruence|]. intros _. rewrite !last_cons. reflexivity.
Qed.

Lemma dot_similar_refl (s : str) : dot_similar s s.
Proof.
  unfold dot_similar. induction s as [|c s IH]; constructor; [|exact IH].
  destruct (is_dot c) eqn:Hd; [apply dot_not_newline; exact Hd | reflexivity].
Qed.

(** The pattern built from an address matches every text that differs
    from the address at its dots only. *)
Lemma atoms_match_similar (address text : str) :
  dot_similar address text ->
  forall atoms prev after,
    atoms_of address = Some atoms ->
    atoms_match atoms prev (text ++ after)
    = boundary (last (map Some text) prev) (hd_error after).
Proof.
  induction 1 as [|a c address text Hac _ IH]; intros atoms prev after H.
  - injection H as <-. reflexivity.
  - simpl in H. unfold atom_of_char in H.
    destruct (isword a) eqn:Hw.
    + destruct (atoms_of address) as [l|] eqn:Hl; [|discriminate].
      injection H as <-. rewrite (word_not_dot a Hw) in Hac. subst c.
      simpl app. simpl atoms_match. rewrite ascii_eqb_refl. simpl andb.
      rewrite (IH l (Some a) after eq_refl). simpl map. rewrite last_cons.
      reflexivity.
    + destruct (is_dot a) eqn:Hd; [|discriminate].
      destruct (atoms_of address) as [l|] eqn:Hl; [|discriminate].
      injection H as <-. simpl app. simpl atoms_match. rewrite Hac. simpl andb.
      rewrite (IH l (Some c) after eq_refl). simpl map. rewrite last_cons.
      reflexivity.
Qed.

(** The search finds a text like the address that stands between two
    characters that are not word characters. *)
Lemma loopback_search_similar (address text before after : str) (atoms : list atom) :
  atoms_of address = Some atoms ->
  dot_similar address text ->
  wordb (hd_error text) = true ->
  wordb (last (map Some text) None) = true ->
  wordb (last (map Some before) None) = false ->
  wordb (hd_error after) = false ->
  loopback_search atoms None (before ++ text ++ after) = true.
Proof.
  intros Hatoms Hsim Hhd Hlast Hb Ha.
  apply loopback_search_found. unfold loopback_match_at.
  rewrite (atoms_match_similar address text Hsim atoms _ after Hatoms).
  destruct text as [|c text]; [discriminate|].
  rewrite (last_default (map Some (c :: text)) _ None) by discriminate.
  unfold boundary. rewrite Hlast, Ha, Hb. simpl hd_error in *. simpl wordb in *.
  rewrite Hhd. reflexivity.
Qed.

Section ExistingAlias.

Variable os : OS.
Variable debug_enabled : bool.

(** What [do_verify_loopback_address] does when its search finds the
    address. *)
Lemma steps_verify_found (loopback_ip : str) (allow_all_loopback_ips : bool)
  (atoms : list atom) (text : str) (h : list event) :
  loopback_prefix_match loopback_ip = true ->
  (allow_all_loopback_ips = false -> loopback_ip <> lit "127.0.0.1") ->
  atoms_of (strip loopback_ip) = Some atoms ->
  yields os ifconfig_argv text ->
  loopback_search atoms None text = true ->
  exists evs,
    steps (do_verify_loopback_address os debug_enabled loopback_ip
             allow_all_loopback_ips) h (inr PNone) evs
    /\ commands evs = [lit "ifconfig -a"]
    /\ runs evs = [ifconfig_argv].
Proof.
  intros Hprefix Hallow Hatoms Hifc Hfound.
  exists (run_events debug_enabled (lit "ifconfig -a") ifconfig_argv (Some 30%nat) true
          ++ debug_events debug_enabled
               (lit "Existing loopback alias " ++ strip loopback_ip ++ lit " found")
          ++ []).
  split; [|split].
  - apply (verify_after_checks os debug_enabled loopback_ip allow_all_loopback_ips
             text h Hprefix Hallow Hifc).
    rewrite Hatoms, Hfound.
    eapply steps_bind; [apply steps_print_debug | apply steps_ret].
  - rewrite commands_app, commands_run_events, commands_app, commands_debug.
    reflexivity.
  - rewrite runs_app, runs_run_events, runs_app, runs_debug. reflexivity.
Qed.

(** X7.  The address is used as a regular expression: a dot of the
    address stands for any character but a newline.  When the interface
    listing has, as a word of its own, a text that differs from the
    address at its dots only, the alias is taken to exist: the call
    returns normally and starts no alias creation. *)
Theorem verify_loopback_dots_match_any_character (loopback_ip : str)
  (allow_all_loopback_ips : bool) (atoms : list atom)
  (similar before after : str) (h : list event) :
  loopback_prefix_match loopback_ip = true ->
  (allow_all_loopback_ips = false -> loopback_ip <> lit "127.0.0.1") ->
  atoms_of (strip loopback_ip) = Some atoms ->
  dot_similar (strip loopback_ip) similar ->
  wordb (last (map Some similar) None) = true ->
  wordb (last (map Some before) None) = false ->
  wordb (hd_error after) = false ->
  yields os ifconfig_argv (before ++ similar ++ after) ->
  exists evs,
    steps (do_verify_loopback_address os debug_enabled loopback_ip
             allow_all_loopback_ips) h (inr PNone) evs
    /\ commands evs = [lit "ifconfig -a"]
    /\ runs evs = [ifconfig_argv].
Proof.
  intros Hprefix Hallow Hatoms Hsim Hlast Hb Ha Hifc.
  apply (steps_verify_found loopback_ip allow_all_loopback_ips atoms
           (before ++ similar ++ after) h Hprefix Hallow Hatoms Hifc).
  apply (loopback_search_similar (strip loopback_ip)); try assumption.
  destruct (strip_loopback_head loopback_ip Hprefix) as [t Ht].
  rewrite Ht in Hsim. inversion Hsim as [|a c ? ? Hac _]; subst.
  simpl in Hac. subst c. reflexivity.
Qed.

(** X8.  The check against 127.0.0.1 is made before the address is
    trimmed: with whitespace after it, 127.0.0.1 passes the check without
    the override, is then looked up as 127.0.0.1, and when the listing has
    it the call returns normally. *)
Theorem verify_loopback_trailing_whitespace (w text : str) (h : list event) :
  all_chars isspace w -> w <> [] ->
  yields os ifconfig_argv text ->
  occurs_as_word (lit "127.0.0.1") text ->
  strip (lit "127.0.0.1" ++ w) = lit "127.0.0.1"
  /\ exists evs,
       steps (do_verify_loopback_address os debug_enabled (lit "127.0.0.1" ++ w) false)
         h (inr PNone) evs
       /\ commands evs = [lit "ifconfig -a"].
Proof.
  intros Hw Hne Hifc (before & after & -> & Hb & Ha).
  assert (Hstrip : strip (lit "127.0.0.1" ++ w) = lit "127.0.0.1").
  { apply (strip_trailing (ascii_of_N 49) (lit "27.0.0.") (ascii_of_N 49) w);
      [reflexivity | reflexivity | exact Hw]. }
  split; [exact Hstrip|].
  destruct (steps_verify_found (lit "127.0.0.1" ++ w) false
              [Lit (ascii_of_N 49); Lit (ascii_of_N 50); Lit (ascii_of_N 55); AnyChar;
               Lit (ascii_of_N 48); AnyChar; Lit (ascii_of_N 48); AnyChar;
               Lit (ascii_of_N 49)]
              (before ++ lit "127.0.0.1" ++ after) h) as (evs & Hs & Hc & _).
  - reflexivity.
  - intros _ E. apply (f_equal (@length ascii)) in E.
    rewrite length_app in E. destruct w; [congruence|]. simpl in E. lia.
  - rewrite Hstrip. reflexivity.
  - exact Hifc.
  - apply (loopback_search_similar (lit "127.0.0.1")); try assumption.
    + reflexivity.
    + apply dot_similar_refl.
    + reflexivity.
    + reflexivity.
  - exists evs. split; assumption.
Qed.

End ExistingAlias.

(** ** Establishing a tunnel *)

Section EstablishTunnel.

Variable os : OS.
Variable debug_enabled : bool.
Variable variables : UserVariables.

(** [do_terminate_tunnels] when every command succeeds. *)
Lemma steps_terminate_ok (loopback_ip : option str) (loopback_port : pyval)
  (table : str) (h : list event) :
  yields os ps_argv table ->
  succeeds os sudo_validate_argv ->
  Forall (fun e => extractable (snd e) = true)
    (selected loopback_ip loopback_port table) ->
  Forall (fun e => succeeds os (kill_argv (fst e)))
    (selected loopback_ip loopback_port table) ->
  exists evs,
    steps (do_terminate_tunnels os debug_enabled loopback_ip loopback_port) h
      (inr PNone) evs
    /\ runs evs = termination_runs (selected loopback_ip loopback_port table).
Proof.
  intros Hps Hsudo Hx Hk.
  destruct (selected loopback_ip loopback_port table) as [|x l] eqn:Hsel.
  - eexists. split.
    + unfold do_terminate_tunnels. eapply steps_bind.
      { apply (steps_run_cli_ok os debug_enabled (lit "ps -ef") ps_argv (Some 30%nat)
                 true h table validate_ps Hps). }
      simpl stdout. fold (selected loopback_ip loopback_port table). rewrite Hsel.
      eapply steps_bind; [apply steps_print|].
      eapply steps_bind; [apply steps_notify | apply steps_ret].
    + rewrite runs_app, runs_run_events. reflexivity.
  - rewrite <- Hsel in Hx, Hk.
    destruct (terminate_tunnels_kills_every_selected os debug_enabled loopback_ip
                loopback_port table h Hps) as (evs & Hs & Hr);
      try assumption; [rewrite Hsel; discriminate|].
    exists evs. split; [exact Hs|]. rewrite Hr, Hsel. reflexivity.
Qed.

(** [do_execute_ssh_tunnel] on a valid configuration whose loopback
    address exists: what it does before the [ssh] command, and that the
    call then ends as its last three statements end. *)
Lemma steps_ssh_tunnel_prefix (config_dict : tunnel_config) (atoms : list atom)
  (interfaces table : str) (h : list event) :
  let local_address := fmt_opt (get_local_address config_dict) in
  let entries := selected (Some local_address) (local_port_of config_dict) table in
  required_present config_dict = true ->
  negb (py_eq (ssh_server_port_of config_dict) (PInt 22))
  || negb (loopback_prefix_match (fmt_opt (get_ssh_server config_dict))) = true ->
  succeeds os sudo_validate_argv ->
  loopback_prefix_match local_address = true ->
  local_address <> lit "127.0.0.1" ->
  atoms_of (strip local_address) = Some atoms ->
  yields os ifconfig_argv interfaces ->
  loopback_search atoms None interfaces = true ->
  yields os ps_argv table ->
  Forall (fun e => extractable (snd e) = true) entries ->
  Forall (fun e => succeeds os (kill_argv (fst e))) entries ->
  exists pre,
    runs pre = [sudo_validate_argv; ifconfig_argv] ++ termination_runs entries
    /\ forall (r : exn + pyval) (e4 : list event),
         steps (bind (_run_cli_command os debug_enabled
                        (ssh_command_for variables config_dict)
                        (Some 60%nat) true false)
                  (fun _ => bind (print (NL ++ lit "SSH tunnel complete" ++ NL ++ NL))
                              (fun _ => ret PNone))) (h ++ pre) r e4 ->
         steps (do_execute_ssh_tunnel os debug_enabled variables config_dict) h r
           (pre ++ e4).
Proof.
  intros local_address entries Hreq Hguard Hsudo Hprefix Hnot Hatoms Hifc Hfound
         Hps Hx Hk.
  unfold required_present in Hreq.
  repeat (apply andb_true_iff in Hreq as [Hreq ?]).
  pose proof (steps_sudo os debug_enabled h Hsudo) as Ss0.
  set (e0 := run_events debug_enabled sudo_validate_cmd sudo_validate_argv None false)
    in *.
  destruct (steps_verify_found os debug_enabled local_address false atoms interfaces
              (h ++ e0) Hprefix (fun _ => Hnot) Hatoms Hifc Hfound)
    as (e1 & Ss1 & _ & Hr1).
  set (line := Print (lit "Checking for existing tunnels " ++ local_address ++ lit ":"
                      ++ fmt (local_port_of config_dict) ++ lit "...")).
  destruct (steps_terminate_ok (Some local_address)
              (local_port_of config_dict) table
              (((h ++ e0) ++ e1) ++ [line]) Hps Hsudo Hx Hk) as (e2 & Ss2 & Hr2).
  fold entries in Hr2.
  set (p1 := Print (lit "Redirecting for " ++ fmt_opt (get_name config_dict) ++ NL)).
  set (p2 := Print (lit "From Local:" ++ NL ++ TAB ++ local_address ++ lit ":"
                    ++ fmt (local_port_of config_dict) ++ NL)).
  set (p3 := Print (lit "To Remote:" ++ NL ++ TAB
                    ++ fmt_opt (get_remote_ip config_dict) ++ lit ":"
                    ++ fmt (get_remote_port config_dict) ++ NL ++ NL)).
  set (p4 := Print (lit "Executing command:" ++ NL ++ NL ++ lit "    "
                    ++ ssh_command_for variables config_dict ++ NL)).
  exists (e0 ++ e1 ++ ([line] ++ e2 ++ []) ++ [p1] ++ [p2] ++ [p3] ++ [p4]).
  split.
  - unfold e0.
    repeat rewrite ?runs_app, ?runs_run_events, ?Hr1, ?Hr2; simpl;
      rewrite ?app_nil_r; reflexivity.
  - intros r e4 Htail.
    replace ((e0 ++ e1 ++ ([line] ++ e2 ++ []) ++ [p1] ++ [p2] ++ [p3] ++ [p4]) ++ e4)
      with (e0 ++ e1 ++ ([line] ++ e2 ++ []) ++ [p1] ++ [p2] ++ [p3] ++ [p4] ++ e4)
      by (rewrite <- !app_assoc; reflexivity).
    unfold do_execute_ssh_tunnel. cbv zeta.
    eapply steps_bind; [exact Ss0|].
    repeat match goal with
           | Hc : ?c = true |- context [assert ?c _] => rewrite Hc
           end.
    rewrite ?Hguard.
    do 7 (eapply steps_bind_silent; [apply steps_assert_true|]).
    eapply steps_bind; [exact Ss1|].
    eapply steps_bind.
    { unfold do_verify_ssh_tunnel_available.
      eapply steps_bind; [apply steps_print|].
      eapply steps_bind; [exact Ss2 | apply steps_ret]. }
    eapply steps_bind; [apply steps_print|].
    eapply steps_bind; [apply steps_print|].
    eapply steps_bind; [apply steps_print|].
    eapply steps_bind; [apply steps_print|].
    unfold steps in *. rewrite <- !app_assoc in *. exact Htail.
Qed.

(** [do_execute_ssh_tunnel] on a valid configuration whose loopback
    address exists, up to the [ssh] command: the result of the call is
    decided by how [_run_cli_command] ends on that command. *)
Lemma steps_ssh_tunnel (config_dict : tunnel_config) (atoms : list atom)
  (interfaces table : str) (r3 : exn + CompletedProcess) (e3 : list event)
  (h : list event) :
  let local_address := fmt_opt (get_local_address config_dict) in
  let entries := selected (Some local_address) (local_port_of config_dict) table in
  required_present config_dict = true ->
  negb (py_eq (ssh_server_port_of config_dict) (PInt 22))
  || negb (loopback_prefix_match (fmt_opt (get_ssh_server config_dict))) = true ->
  succeeds os sudo_validate_argv ->
  loopback_prefix_match local_address = true ->
  local_address <> lit "127.0.0.1" ->
  atoms_of (strip local_address) = Some atoms ->
  yields os ifconfig_argv interfaces ->
  loopback_search atoms None interfaces = true ->
  yields os ps_argv table ->
  Forall (fun e => extractable (snd e) = true) entries ->
  Forall (fun e => succeeds os (kill_argv (fst e))) entries ->
  (forall h',
      steps (_run_cli_command os debug_enabled (ssh_command_for variables config_dict)
               (Some 60%nat) true false) h' r3 e3) ->
  exists evs,
    steps (do_execute_ssh_tunnel os debug_enabled variables config_dict) h
      (match r3 with inl e => inl e | inr _ => inr PNone end) evs
    /\ runs evs
       = [sudo_validate_argv; ifconfig_argv] ++ termination_runs entries ++ runs e3.
Proof.
  intros local_address entries Hreq Hguard Hsudo Hprefix Hnot Hatoms Hifc Hfound
         Hps Hx Hk Hssh.
  destruct (steps_ssh_tunnel_prefix config_dict atoms interfaces table h Hreq Hguard
              Hsudo Hprefix Hnot Hatoms Hifc Hfound Hps Hx Hk)
    as (pre & Hruns & Htail).
  fold local_address entries in Hruns.
  destruct r3 as [e | cp].
  - exists (pre ++ e3). split.
    + apply Htail. apply steps_bind_raise. apply Hssh.
    + rewrite runs_app, Hruns, <- app_assoc. reflexivity.
  - exists (pre ++ e3 ++ [Print (NL ++ lit "SSH tunnel complete" ++ NL ++ NL)] ++ []).
    split.
    + apply Htail. eapply steps_bind; [apply Hssh|].
      eapply steps_bind; [apply steps_print | apply steps_ret].
    + rewrite !runs_app, Hruns, <- app_assoc. simpl. rewrite ?app_nil_r. reflexivity.
Qed.

(** The [ssh] command, valid and exiting with the status [rc]. *)
Lemma steps_ssh_run (cmd : str) (ssh_argv : list str) (rc : Z) :
  _validate_command cmd = inr ssh_argv ->
  exits_with os ssh_argv rc ->
  forall h',
    steps (_run_cli_command os debug_enabled cmd (Some 60%nat) true false) h'
      (if Z.eqb rc 0
       then inr {| args := ssh_argv; returncode := rc; stdout := [] |}
       else inl (CalledProcessError rc ssh_argv))
      (run_events debug_enabled cmd ssh_argv (Some 60%nat) false).
Proof.
  intros Hv Hrc h'.
  destruct (Hrc (h' ++ debug_events debug_enabled (lit "Executing command: " ++ cmd)))
    as [out Hout].
  pose proof (steps_run_cli os debug_enabled cmd ssh_argv (Some 60%nat) true false h'
                rc out Hv Hout) as Hrun.
  simpl andb in Hrun. destruct (Z.eqb rc 0); exact Hrun.
Qed.

(** X9.  On a valid configuration whose loopback address exists and with
    every earlier command succeeding, [do_execute_ssh_tunnel] runs, in this
    order: the sudo validation, [ifconfig -a], [ps -ef], the sudo
    validation and a kill for each tunnel already bound to the local
    endpoint, and the [ssh] command.  When [ssh] exits with a non-zero
    status the call ends with [CalledProcessError]: the earlier tunnels
    have been killed by then and nothing brings them back. *)
Theorem ssh_tunnel_command_sequence (config_dict : tunnel_config)
  (atoms : list atom) (interfaces table : str) (ssh_argv : list str) (rc : Z)
  (h : list event) :
  let local_address := fmt_opt (get_local_address config_dict) in
  let entries := selected (Some local_address) (local_port_of config_dict) table in
  required_present config_dict = true ->
  negb (py_eq (ssh_server_port_of config_dict) (PInt 22))
  || negb (loopback_prefix_match (fmt_opt (get_ssh_server config_dict))) = true ->
  succeeds os sudo_validate_argv ->
  loopback_prefix_match local_address = true ->
  local_address <> lit "127.0.0.1" ->
  atoms_of (strip local_address) = Some atoms ->
  yields os ifconfig_argv interfaces ->
  loopback_search atoms None interfaces = true ->
  yields os ps_argv table ->
  Forall (fun e => extractable (snd e) = true) entries ->
  Forall (fun e => succeeds os (kill_argv (fst e))) entries ->
  _validate_command (ssh_command_for variables config_dict) = inr ssh_argv ->
  exits_with os ssh_argv rc ->
  exists evs,
    steps (do_execute_ssh_tunnel os debug_enabled variables config_dict) h
      (if Z.eqb rc 0 then inr PNone else inl (CalledProcessError rc ssh_argv)) evs
    /\ runs evs
       = [sudo_validate_argv; ifconfig_argv] ++ termination_runs entries ++ [ssh_argv].
Proof.
  intros local_address entries Hreq Hguard Hsudo Hprefix Hnot Hatoms Hifc Hfound
         Hps Hx Hk Hv Hrc.
  pose proof (steps_ssh_run (ssh_command_for variables config_dict) ssh_argv rc Hv Hrc)
    as Hssh.
  destruct (steps_ssh_tunnel config_dict atoms interfaces table _ _ h Hreq Hguard
              Hsudo Hprefix Hnot Hatoms Hifc Hfound Hps Hx Hk Hssh)
    as (evs & Hs & Hr).
  exists evs. split.
  - destruct (Z.eqb rc 0); exact Hs.
  - rewrite Hr, runs_run_events. reflexivity.
Qed.

Lemma pipe_in_ssh_command (config_dict : tunnel_config) :
  contains (lit "|") (ssh_options_of config_dict) = true ->
  contains (lit "|") (ssh_command_for variables config_dict) = true.
Proof.
  change (lit "|") with [pipe]. rewrite !contains_char_in. intros Hin.
  unfold ssh_command_for, ssh_command_of.
  apply in_or_app. right. apply in_or_app. left.
  unfold compose_ssh_options.
  destruct (str_eqb (ssh_options_of config_dict) []) eqn:E.
  - apply str_eqb_eq in E. rewrite E in Hin. contradiction.
  - destruct (negb (contains (lit "-i") (ssh_options_of config_dict)));
      [|exact Hin].
    apply in_or_app. right. apply in_or_app. right. apply in_or_app. right.
    exact Hin.
Qed.

(** X10.  With a pipe character in [ssh_options] the [ssh] command is
    never started: [_validate_command] refuses it with a [ValueError], but
    only after the tunnels already bound to the local endpoint have been
    killed. *)
Theorem ssh_tunnel_pipe_in_options (config_dict : tunnel_config)
  (atoms : list atom) (interfaces table : str) (h : list event) :
  let local_address := fmt_opt (get_local_address config_dict) in
  let entries := selected (Some local_address) (local_port_of config_dict) table in
  required_present config_dict = true ->
  negb (py_eq (ssh_server_port_of config_dict) (PInt 22))
  || negb (loopback_prefix_match (fmt_opt (get_ssh_server config_dict))) = true ->
  succeeds os sudo_validate_argv ->
  loopback_prefix_match local_address = true ->
  local_address <> lit "127.0.0.1" ->
  atoms_of (strip local_address) = Some atoms ->
  yields os ifconfig_argv interfaces ->
  loopback_search atoms None interfaces = true ->
  yields os ps_argv table ->
  Forall (fun e => extractable (snd e) = true) entries ->
  Forall (fun e => succeeds os (kill_argv (fst e))) entries ->
  contains (lit "|") (ssh_options_of config_dict) = true ->
  exists evs,
    steps (do_execute_ssh_tunnel os debug_enabled variables config_dict) h
      (inl (ValueError (lit "Pipe commands not supported at this time"))) evs
    /\ runs evs = [sudo_validate_argv; ifconfig_argv] ++ termination_runs entries.
Proof.
  intros local_address entries Hreq Hguard Hsudo Hprefix Hnot Hatoms Hifc Hfound
         Hps Hx Hk Hpipe.
  apply pipe_in_ssh_command in Hpipe.
  set (cmd := ssh_command_for variables config_dict) in *.
  assert (Hssh : forall h',
             steps (_run_cli_command os debug_enabled cmd (Some 60%nat) true false) h'
               (inl (ValueError (lit "Pipe commands not supported at this time")))
               (debug_events debug_enabled (lit "Executing command: " ++ cmd) ++ [])).
  { intros h'. unfold _run_cli_command.
    eapply steps_bind; [apply steps_print_debug|].
    rewrite (validate_pipe cmd Hpipe). apply steps_raise. }
  destruct (steps_ssh_tunnel config_dict atoms interfaces table _ _ h Hreq Hguard
              Hsudo Hprefix Hnot Hatoms Hifc Hfound Hps Hx Hk Hssh)
    as (evs & Hs & Hr).
  exists evs. split; [exact Hs|].
  rewrite Hr, app_nil_r, runs_debug, app_nil_r. reflexivity.
Qed.

(** X11.  The check of the loopback SSH server compares the port with
    the integer 22.  A port given as text, as every value read from the
    configuration file is, never equals it: with the text 22 and a server
    at 127.x.y.z the configuration is accepted and the [ssh] command to
    that server and port is started. *)
Theorem ssh_tunnel_text_port_passes_loopback_check (config_dict : tunnel_config)
  (ssh_port : str) (atoms : list atom) (interfaces table : str)
  (ssh_argv : list str) (h : list event) :
  let local_address := fmt_opt (get_local_address config_dict) in
  let entries := selected (Some local_address) (local_port_of config_dict) table in
  get_ssh_port config_dict = PStr ssh_port ->
  ssh_port <> [] ->
  required_present config_dict = true ->
  succeeds os sudo_validate_argv ->
  loopback_prefix_match local_address = true ->
  local_address <> lit "127.0.0.1" ->
  atoms_of (strip local_address) = Some atoms ->
  yields os ifconfig_argv interfaces ->
  loopback_search atoms None interfaces = true ->
  yields os ps_argv table ->
  Forall (fun e => extractable (snd e) = true) entries ->
  Forall (fun e => succeeds os (kill_argv (fst e))) entries ->
  _validate_command (ssh_command_for variables config_dict) = inr ssh_argv ->
  succeeds os ssh_argv ->
  exists evs,
    steps (do_execute_ssh_tunnel os debug_enabled variables config_dict) h
      (inr PNone) evs
    /\ runs evs
       = [sudo_validate_argv; ifconfig_argv] ++ termination_runs entries ++ [ssh_argv]
    /\ exists before,
         ssh_command_for variables config_dict
         = before ++ lit "@" ++ fmt_opt (get_ssh_server config_dict) ++ lit " -p "
           ++ ssh_port.
Proof.
  intros local_address entries Hport Hne Hreq Hsudo Hprefix Hnot Hatoms Hifc Hfound
         Hps Hx Hk Hv Hssh.
  assert (Hguard : negb (py_eq (ssh_server_port_of config_dict) (PInt 22))
                   || negb (loopback_prefix_match
                              (fmt_opt (get_ssh_server config_dict))) = true).
  { unfold ssh_server_port_of. rewrite Hport. unfold py_or. simpl truthy.
    destruct ssh_port; [congruence | reflexivity]. }
  pose proof (steps_ssh_run (ssh_command_for variables config_dict) ssh_argv 0 Hv Hssh)
    as Hrun.
  destruct (steps_ssh_tunnel config_dict atoms interfaces table _ _ h Hreq Hguard
              Hsudo Hprefix Hnot Hatoms Hifc Hfound Hps Hx Hk Hrun)
    as (evs & Hs & Hr).
  exists evs. split; [exact Hs|].
  split; [rewrite Hr, runs_run_events; reflexivity|].
  unfold ssh_command_for, ssh_command_of, ssh_server_port_of.
  rewrite Hport. unfold py_or. simpl truthy.
  destruct ssh_port as [|c s]; [congruence|]. simpl negb. cbv iota. simpl fmt.
  eexists. rewrite !app_assoc. reflexivity.
Qed.


End EstablishTunnel.

(** ** The options of the [ssh] command *)




(** ** The further properties on the sample inputs *)

Lemma blank_command_is_refused_witness :
  _validate_command (lit "   ") = inl (ValueError (lit "No command provided"))
  /\ exists evs,
       steps (_run_cli_command (sample_os ps_none [] []) true (lit "   ")
                (Some 30%nat) true true) []
         (inl (ValueError (lit "No command provided"))) evs
       /\ commands evs = [].
Proof.
  apply (blank_command_is_refused (sample_os ps_none [] []) true (lit "   ")
           (Some 30%nat) true true []).
  repeat constructor.
Defined.

Lemma pipe_command_is_refused_witness :
  _validate_command (lit "ps -ef | grep ssh")
  = inl (ValueError (lit "Pipe commands not supported at this time"))
  /\ exists evs,
       steps (_run_cli_command (sample_os ps_none [] []) true (lit "ps -ef | grep ssh")
                (Some 30%nat) true true) []
         (inl (ValueError (lit "Pipe commands not supported at this time"))) evs
       /\ commands evs = [].
Proof.
  apply (pipe_command_is_refused (sample_os ps_none [] []) true
           (lit "ps -ef | grep ssh") (Some 30%nat) true true []).
  vm_compute. reflexivity.
Defined.

Lemma validate_command_words_witness :
  _validate_command (join (lit " ") [lit "sudo"; lit "pfctl"; lit "-f"; lit "/etc/pf.conf"])
  = inr [lit "sudo"; lit "pfctl"; lit "-f"; lit "/etc/pf.conf"].
Proof.
  apply (validate_command_words [lit "sudo"; lit "pfctl"; lit "-f"; lit "/etc/pf.conf"]).
  - discriminate.
  - repeat (constructor; [split; [vm_compute; repeat constructor | discriminate] |]).
    constructor.
Defined.

Lemma terminate_tunnels_needs_sudo_witness :
  exists evs,
    steps (do_terminate_tunnels (sudo_refusing_os ps_three []) false None PNone) []
      (inl (CalledProcessError 1 sudo_validate_argv)) evs
    /\ runs evs = [ps_argv; sudo_validate_argv].
Proof.
  apply (terminate_tunnels_needs_sudo (sudo_refusing_os ps_three []) false None PNone
           ps_three 1 []).
  - intros h. reflexivity.
  - vm_compute. discriminate.
  - intros h. eexists. reflexivity.
  - discriminate.
Defined.

Lemma verify_loopback_dots_match_any_character_witness :
  let text := (TAB ++ lit "inet ") ++ lit "127x0y0z2" ++ lit " netmask 0xff000000" in
  exists evs,
    steps (do_verify_loopback_address (sample_os ps_none text []) false
             (lit "127.0.0.2") false) [] (inr PNone) evs
    /\ commands evs = [lit "ifconfig -a"]
    /\ runs evs = [ifconfig_argv].
Proof.
  eapply (verify_loopback_dots_match_any_character
            (sample_os ps_none ((TAB ++ lit "inet ") ++ lit "127x0y0z2"
                                ++ lit " netmask 0xff000000") [])
            false (lit "127.0.0.2") false _ (lit "127x0y0z2") (TAB ++ lit "inet ")
            (lit " netmask 0xff000000") []).
  - vm_compute. reflexivity.
  - intros _ H. vm_compute in H. discriminate H.
  - reflexivity.
  - vm_compute. repeat constructor.
  - vm_compute. reflexivity.
  - vm_compute. reflexivity.
  - vm_compute. reflexivity.
  - intros h. reflexivity.
Defined.

Lemma verify_loopback_trailing_whitespace_witness :
  strip (lit "127.0.0.1" ++ lit " ") = lit "127.0.0.1"
  /\ exists evs,
       steps (do_verify_loopback_address (sample_os ps_none ifconfig_with_alias [])
                false (lit "127.0.0.1" ++ lit " ") false) [] (inr PNone) evs
       /\ commands evs = [lit "ifconfig -a"].
Proof.
  apply (verify_loopback_trailing_whitespace (sample_os ps_none ifconfig_with_alias [])
           false (lit " ") ifconfig_with_alias []).
  - repeat constructor.
  - discriminate.
  - intros h. reflexivity.
  - exists (lit "lo0: flags=8049<UP,LOOPBACK,RUNNING,MULTICAST> mtu 16384" ++ NL
            ++ TAB ++ lit "inet ").
    exists (lit " netmask 0xff000000" ++ NL
            ++ TAB ++ lit "inet 127.0.0.2 netmask 0xff000000" ++ NL).
    vm_compute. repeat split.
Defined.

Lemma ssh_tunnel_command_sequence_witness :
  let os := ssh_failing_os ps_three ifconfig_with_alias in
  exists evs,
    steps (do_execute_ssh_tunnel os false sample_variables db_config) []
      (if Z.eqb 255 0 then inr PNone else inl (CalledProcessError 255 db_ssh_argv)) evs
    /\ runs evs
       = [sudo_validate_argv; ifconfig_argv]
         ++ termination_runs (selected (Some (fmt_opt (get_local_address db_config)))
                                (local_port_of db_config) ps_three)
         ++ [db_ssh_argv].
Proof.
  eapply (ssh_tunnel_command_sequence (ssh_failing_os ps_three ifconfig_with_alias)
            false sample_variables db_config _ ifconfig_with_alias ps_three
            db_ssh_argv 255 []).
  - vm_compute. reflexivity.
  - vm_compute. reflexivity.
  - intros h. eexists. reflexivity.
  - vm_compute. reflexivity.
  - intros H. vm_compute in H. discriminate H.
  - reflexivity.
  - intros h. reflexivity.
  - vm_compute. reflexivity.
  - intros h. reflexivity.
  - sample_entries.
  - sample_entries.
  - vm_compute. reflexivity.
  - intros h. eexists. reflexivity.
Defined.

Lemma ssh_tunnel_pipe_in_options_witness :
  let os := sample_os ps_three ifconfig_with_alias [] in
  exists evs,
    steps (do_execute_ssh_tunnel os false sample_variables pipe_config) []
      (inl (ValueError (lit "Pipe commands not supported at this time"))) evs
    /\ runs evs
       = [sudo_validate_argv; ifconfig_argv]
         ++ termination_runs (selected (Some (fmt_opt (get_local_address pipe_config)))
                                (local_port_of pipe_config) ps_three).
Proof.
  eapply (ssh_tunnel_pipe_in_options (sample_os ps_three ifconfig_with_alias [])
            false sample_variables pipe_config _ ifconfig_with_alias ps_three []).
  - vm_compute. reflexivity.
  - vm_compute. reflexivity.
  - intros h. eexists. reflexivity.
  - vm_compute. reflexivity.
  - intros H. vm_compute in H. discriminate H.
  - reflexivity.
  - intros h. reflexivity.
  - vm_compute. reflexivity.
  - intros h. reflexivity.
  - sample_entries.
  - sample_entries.
  - vm_compute. reflexivity.
Defined.

Lemma ssh_tunnel_text_port_passes_loopback_check_witness :
  let os := sample_os ps_none ifconfig_with_alias [] in
  exists evs,
    steps (do_execute_ssh_tunnel os false sample_variables text_port_config) []
      (inr PNone) evs
    /\ runs evs
       = [sudo_validate_argv; ifconfig_argv]
         ++ termination_runs
              (selected (Some (fmt_opt (get_local_address text_port_config)))
                 (local_port_of text_port_config) ps_none)
         ++ [text_port_ssh_argv]
    /\ exists before,
         ssh_command_for sample_variables text_port_config
         = before ++ lit "@" ++ fmt_opt (get_ssh_server text_port_config) ++ lit " -p "
           ++ lit "22".
Proof.
  eapply (ssh_tunnel_text_port_passes_loopback_check
            (sample_os ps_none ifconfig_with_alias []) false sample_variables
            text_port_config (lit "22") _ ifconfig_with_alias ps_none
            text_port_ssh_argv []).
  - reflexivity.
  - discriminate.
  - vm_compute. reflexivity.
  - intros h. eexists. reflexivity.
  - vm_compute. reflexivity.
  - intros H. vm_compute in H. discriminate H.
  - reflexivity.
  - intros h. reflexivity.
  - vm_compute. reflexivity.
  - intros h. reflexivity.
  - sample_entries.
  - sample_entries.
  - vm_compute. reflexivity.
  - intros h. eexists. reflexivity.
Defined.


(** * Properties of the actions *)

(** ** Computations of the actions *)

Lemma acts_ret {A : Type} (a : A) (h : list event) : acts (act_ret a) h (inr a) [].
Proof. unfold acts, act_ret. rewrite app_nil_r. reflexivity. Qed.

Lemma acts_halt {A : Type} (x : halt) (h : list event) :
  acts (@halt_with A x) h (inl x) [].
Proof. unfold acts, halt_with. rewrite app_nil_r. reflexivity. Qed.

Lemma acts_bind {A B : Type} (m : Act A) (k : A -> Act B) (h : list event) (a : A)
  (e1 : list event) (r : halt + B) (e2 : list event) :
  acts m h (inr a) e1 -> acts (k a) (h ++ e1) r e2 ->
  acts (act_bind m k) h r (e1 ++ e2).
Proof.
  unfold acts, act_bind. intros -> ->. rewrite app_assoc. reflexivity.
Qed.

(** A first step that adds nothing to the history. *)
Lemma acts_bind_silent {A B : Type} (m : Act A) (k : A -> Act B) (h : list event)
  (a : A) (r : halt + B) (e2 : list event) :
  acts m h (inr a) [] -> acts (k a) h r e2 -> acts (act_bind m k) h r e2.
Proof.
  unfold acts, act_bind. rewrite app_nil_r. intros -> ->. reflexivity.
Qed.

Lemma acts_bind_halt {A B : Type} (m : Act A) (k : A -> Act B) (h : list event)
  (x : halt) (e1 : list event) :
  acts m h (inl x) e1 -> acts (act_bind m k) h (inl x) e1.
Proof. unfold acts, act_bind. intros ->. reflexivity. Qed.

Lemma acts_lift {A : Type} (m : M A) (h : list event) (a : A) (evs : list event) :
  steps m h (inr a) evs -> acts (lift m) h (inr a) evs.
Proof. unfold steps, acts, lift. intros ->. reflexivity. Qed.

Lemma acts_lift_raise {A : Type} (m : M A) (h : list event) (e : exn)
  (evs : list event) :
  steps m h (inl e) evs -> acts (lift m) h (inl (Raised e)) evs.
Proof. unfold steps, acts, lift. intros ->. reflexivity. Qed.

Lemma acts_print (text : str) (h : list event) :
  acts (lift (print text)) h (inr tt) [Print text].
Proof. apply acts_lift, steps_print. Qed.

(** [displayNotificationError] never returns. *)
Lemma acts_error (content : str) (print_stderr : bool) (h : list event) :
  acts (displayNotificationError content None print_stderr) h
    (inl (SystemExit (Some 1%Z))) (error_events content print_stderr).
Proof.
  unfold displayNotificationError, error_events.
  change (?x :: ?l) with ([x] ++ l).
  eapply acts_bind; [apply acts_lift, steps_emit|].
  eapply acts_bind.
  { destruct print_stderr; [apply acts_print | apply acts_ret]. }
  destruct print_stderr.
  - change [Popen ?c] with ([Popen c] ++ []).
    eapply acts_bind; [apply acts_lift, steps_notify | apply acts_halt].
  - change [Popen ?c] with ([Popen c] ++ []).
    eapply acts_bind; [apply acts_lift, steps_notify | apply acts_halt].
Qed.

Lemma validate_pfctl : _validate_command pfctl_reset_cmd = inr pfctl_reset_argv.
Proof. vm_compute. reflexivity. Qed.

Section TerminateAll.

Variable os : OS.
Variable debug_enabled : bool.

(** [do_terminate_port_redirection] when the reset succeeds. *)
Lemma steps_reset_ok (h : list event) :
  succeeds os pfctl_reset_argv ->
  exists evs,
    steps (do_terminate_port_redirection os debug_enabled) h (inr PNone) evs
    /\ runs evs = [pfctl_reset_argv].
Proof.
  intros Hs.
  destruct (Hs ((h ++ [Print (lit "Resetting port forwarding/redirection...")])
                ++ debug_events debug_enabled
                     (lit "Executing command: " ++ pfctl_reset_cmd))) as [out Hout].
  eexists. split.
  - unfold do_terminate_port_redirection.
    eapply steps_bind; [apply steps_print|].
    eapply steps_bind.
    { apply (steps_run_cli os debug_enabled pfctl_reset_cmd pfctl_reset_argv
               (Some 30%nat) true true _ 0 out validate_pfctl Hout). }
    eapply steps_bind; [apply steps_print|].
    eapply steps_bind; [apply steps_notify | apply steps_ret].
  - rewrite !runs_app, runs_run_events. reflexivity.
Qed.

(** X13.  When every command succeeds, [action_terminate_all] validates
    sudo, runs the commands of [do_terminate_tunnels] (the process table,
    and with tunnels selected a second sudo validation and their kills),
    then resets the port redirection with [sudo pfctl -f /etc/pf.conf],
    and ends the program with [sys.exit()]: it never returns to its
    caller. *)
Theorem terminate_all_command_sequence (table : str) (h : list event) :
  succeeds os sudo_validate_argv ->
  yields os ps_argv table ->
  Forall (fun e => extractable (snd e) = true) (selected None PNone table) ->
  Forall (fun e => succeeds os (kill_argv (fst e))) (selected None PNone table) ->
  succeeds os pfctl_reset_argv ->
  exists evs,
    acts (action_terminate_all os debug_enabled) h (inl (SystemExit None)) evs
    /\ runs evs
       = sudo_validate_argv
         :: termination_runs (selected None PNone table) ++ [pfctl_reset_argv].
Proof.
  intros Hsudo Hps Hx Hk Hpf.
  set (s0 := run_events debug_enabled sudo_validate_cmd sudo_validate_argv None false).
  set (p1 := [Print (NL ++ lit "Terminating all SSH tunnels tunnels..." ++ NL)]).
  destruct (steps_terminate_ok os debug_enabled None PNone table ((h ++ s0) ++ p1)
              Hps Hsudo Hx Hk) as (e1 & Hterm & Hr1).
  set (p2 := [Print (NL ++ lit "Terminating port redirection..." ++ NL)]).
  destruct (steps_reset_ok ((((h ++ s0) ++ p1) ++ e1) ++ p2) Hpf)
    as (e2 & Hreset & Hr2).
  exists (s0 ++ p1 ++ e1 ++ p2 ++ e2
          ++ [Print (NL ++ lit "Terminating all loopback aliases..." ++ NL)]
          ++ ([Print (lit "Feature not yet enabled")] ++ [])
          ++ [Print (NL ++ lit "Done. You may close the terminal." ++ NL)] ++ []).
  split.
  - unfold action_terminate_all.
    eapply acts_bind; [apply acts_lift, steps_sudo, Hsudo|].
    eapply acts_bind; [apply acts_print|].
    eapply acts_bind; [apply acts_lift; exact Hterm|].
    eapply acts_bind; [apply acts_print|].
    eapply acts_bind; [apply acts_lift; exact Hreset|].
    eapply acts_bind; [apply acts_print|].
    eapply acts_bind.
    { apply acts_lift. unfold do_terminate_loopback_aliases.
      eapply steps_bind; [apply steps_print | apply steps_ret]. }
    eapply acts_bind; [apply acts_print|].
    apply acts_halt.
  - unfold s0.
    rewrite !runs_app, runs_run_events, Hr1, Hr2. simpl. reflexivity.
Qed.

(** The commands [do_terminate_tunnels] starts are of three kinds only. *)
Lemma terminate_runs_kinds (loopback_ip : option str) (loopback_port : pyval)
  (h : list event) (r : exn + pyval) (evs : list event) :
  steps (do_terminate_tunnels os debug_enabled loopback_ip loopback_port) h r evs ->
  Forall (fun argv => argv = ps_argv \/ argv = sudo_validate_argv
                      \/ exists PID, argv = kill_argv PID) (runs evs).
Proof.
  intros Hs.
  destruct (terminate_runs_any os debug_enabled loopback_ip loopback_port h)
    as (r' & evs' & Hs' & Hruns).
  destruct (steps_fun _ _ _ _ _ _ Hs Hs') as [_ ->].
  destruct Hruns as [-> | (table & n & _ & ->)].
  - constructor; [left; reflexivity | constructor].
  - constructor; [left; reflexivity|].
    constructor; [right; left; reflexivity|].
    apply Forall_forall. intros argv Hin. apply in_map_iff in Hin.
    destruct Hin as (PID & <- & _). right. right. exists PID. reflexivity.
Qed.

(** X14.  [action_terminate_all] does not go on after a failure: when
    [do_terminate_tunnels] raises an exception, the action ends with that
    exception and the port redirection is not reset ([pfctl] is never
    started). *)
Theorem terminate_all_stops_at_tunnel_failure (e : exn) (h evs : list event) :
  succeeds os sudo_validate_argv ->
  steps (do_terminate_tunnels os debug_enabled None PNone)
    (h ++ terminate_all_prelude debug_enabled) (inl e) evs ->
  acts (action_terminate_all os debug_enabled) h (inl (Raised e))
    (terminate_all_prelude debug_enabled ++ evs)
  /\ ~ In pfctl_reset_argv (runs (terminate_all_prelude debug_enabled ++ evs)).
Proof.
  intros Hsudo Hterm. split.
  - unfold terminate_all_prelude in *. rewrite app_assoc in Hterm.
    rewrite <- app_assoc. unfold action_terminate_all.
    eapply acts_bind; [apply acts_lift, steps_sudo, Hsudo|].
    eapply acts_bind; [apply acts_print|].
    apply acts_bind_halt. apply acts_lift_raise. exact Hterm.
  - pose proof (terminate_runs_kinds _ _ _ _ _ Hterm) as Hk.
    unfold terminate_all_prelude.
    rewrite !runs_app, runs_run_events. simpl. intros [Heq | Hin].
    + discriminate Heq.
    + rewrite Forall_forall in Hk. destruct (Hk _ Hin) as [Hp | [Hp | [PID Hp]]];
        discriminate Hp.
Qed.

End TerminateAll.

(** ** The custom actions *)

Lemma startswith_app (p v : str) : startswith p (p ++ v) = true.
Proof.
  induction p as [|c p IH]; [reflexivity|].
  simpl. rewrite ascii_eqb_refl. exact IH.
Qed.

Lemma remove_prefix_app (p v : str) : remove_prefix p (p ++ v) = v.
Proof.
  unfold remove_prefix. rewrite startswith_app.
  induction p as [|c p IH]; [reflexivity | exact IH].
Qed.

Lemma net_get_in (cfg : networking) (k : str) (v : net_value) :
  NoDup (names cfg) -> In (k, v) cfg -> net_get k cfg = Some v.
Proof.
  induction cfg as [|[k' v'] rest IH]; intros Hnd Hin; [contradiction|].
  simpl in Hnd. inversion Hnd as [|x l Hnotin Hnd']. subst.
  simpl. destruct Hin as [Heq | Hin].
  - injection Heq as -> ->. rewrite str_eqb_refl. reflexivity.
  - destruct (str_eqb k' k) eqn:Hk.
    + apply str_eqb_eq in Hk. subst k'. exfalso. apply Hnotin.
      apply in_map_iff. exists (k, v). split; [reflexivity | exact Hin].
    + apply IH; assumption.
Qed.

(** The entries [check_for_custom_networking_configs] appends. *)
Lemma check_ssh_entries (cfg : networking) (name : option str) (action_id : str) :
  In (name, action_id) (fst (check_for_custom_networking_configs cfg))
  <-> exists _var d,
        In (_var, Section_ d) cfg
        /\ sec_get (lit "type") d = Some (lit "ssh")
        /\ name = sec_get (lit "name") d
        /\ action_id = ssh_prefix ++ _var.
Proof.
  induction cfg as [|[k v] rest IH].
  - simpl. split; [contradiction | intros (? & ? & [] & _)].
  - cbn [check_for_custom_networking_configs].
    destruct (check_for_custom_networking_configs rest) as [ssh red].
    cbn [fst] in IH.
    assert (Hrest : In (name, action_id) ssh ->
                    exists _var d, In (_var, Section_ d) ((k, v) :: rest)
                      /\ sec_get (lit "type") d = Some (lit "ssh")
                      /\ name = sec_get (lit "name") d
                      /\ action_id = ssh_prefix ++ _var).
    { intros Hin. apply IH in Hin. destruct Hin as (x & d & Hin & H).
      exists x, d. split; [right; exact Hin | exact H]. }
    assert (Hback : forall _var d, In (_var, Section_ d) rest ->
                    sec_get (lit "type") d = Some (lit "ssh") ->
                    name = sec_get (lit "name") d ->
                    action_id = ssh_prefix ++ _var -> In (name, action_id) ssh).
    { intros x d Hin Ht Hn Hid. apply IH. exists x, d. auto. }
    destruct v as [s | d].
    + cbn [fst]. split; [exact Hrest|].
      intros (x & d & [Heq | Hin] & Ht & Hn & Hid); [discriminate | eauto].
    + destruct (sec_get (lit "type") d) as [t|] eqn:Ht.
      * destruct (str_eqb t (lit "ssh")) eqn:Hssh.
        -- apply str_eqb_eq in Hssh. subst t. cbn [fst]. split.
           ++ intros [Heq | Hin]; [|auto].
              injection Heq as <- <-. exists k, d. split; [left; reflexivity | auto].
           ++ intros (x & d' & [Heq | Hin] & Ht' & Hn & Hid).
              ** injection Heq as <- <-. left. subst. reflexivity.
              ** right. eauto.
        -- assert (Hno : forall x d', (k, Section_ d) = (x, Section_ d') ->
                          sec_get (lit "type") d' = Some (lit "ssh") -> False).
           { intros x d' Heq Ht'. injection Heq as <- <-. rewrite Ht in Ht'.
             injection Ht' as ->. rewrite str_eqb_refl in Hssh. discriminate. }
           destruct (str_eqb t (lit "redirect")); cbn [fst]; (split; [exact Hrest|]);
             intros (x & d' & [Heq | Hin] & Ht' & Hn & Hid);
             solve [exfalso; eauto | eauto].
      * cbn [fst]. split; [exact Hrest|].
        intros (x & d' & [Heq | Hin] & Ht' & Hn & Hid); [|eauto].
        injection Heq as <- <-. congruence.
Qed.

Lemma check_redirect_entries (cfg : networking) (name : option str)
  (action_id : str) :
  In (name, action_id) (snd (check_for_custom_networking_configs cfg))
  <-> exists _var d,
        In (_var, Section_ d) cfg
        /\ sec_get (lit "type") d = Some (lit "redirect")
        /\ name = sec_get (lit "name") d
        /\ action_id = redirect_prefix ++ _var.
Proof.
  induction cfg as [|[k v] rest IH].
  - simpl. split; [contradiction | intros (? & ? & [] & _)].
  - cbn [check_for_custom_networking_configs].
    destruct (check_for_custom_networking_configs rest) as [ssh red].
    cbn [snd] in IH.
    assert (Hrest : In (name, action_id) red ->
                    exists _var d, In (_var, Section_ d) ((k, v) :: rest)
                      /\ sec_get (lit "type") d = Some (lit "redirect")
                      /\ name = sec_get (lit "name") d
                      /\ action_id = redirect_prefix ++ _var).
    { intros Hin. apply IH in Hin. destruct Hin as (x & d & Hin & H).
      exists x, d. split; [right; exact Hin | exact H]. }
    assert (Hback : forall _var d, In (_var, Section_ d) rest ->
                    sec_get (lit "type") d = Some (lit "redirect") ->
                    name = sec_get (lit "name") d ->
                    action_id = redirect_prefix ++ _var -> In (name, action_id) red).
    { intros x d Hin Ht Hn Hid. apply IH. exists x, d. auto. }
    destruct v as [s | d].
    + cbn [snd]. split; [exact Hrest|].
      intros (x & d & [Heq | Hin] & Ht & Hn & Hid); [discriminate | eauto].
    + destruct (sec_get (lit "type") d) as [t|] eqn:Ht.
      * destruct (str_eqb t (lit "ssh")) eqn:Hssh.
        -- apply str_eqb_eq in Hssh. subst t. cbn [snd]. split; [exact Hrest|].
           intros (x & d' & [Heq | Hin] & Ht' & Hn & Hid); [|eauto].
           injection Heq as <- <-. rewrite Ht in Ht'. discriminate.
        -- destruct (str_eqb t (lit "redirect")) eqn:Hred.
           ++ apply str_eqb_eq in Hred. subst t. cbn [snd]. split.
              ** intros [Heq | Hin]; [|auto].
                 injection Heq as <- <-. exists k, d. split; [left; reflexivity | auto].
              ** intros (x & d' & [Heq | Hin] & Ht' & Hn & Hid).
                 --- injection Heq as <- <-. left. subst. reflexivity.
                 --- right. eauto.
           ++ cbn [snd]. split; [exact Hrest|].
              intros (x & d' & [Heq | Hin] & Ht' & Hn & Hid); [|eauto].
              injection Heq as <- <-. rewrite Ht in Ht'. injection Ht' as ->.
              rewrite str_eqb_refl in Hred. discriminate.
      * cbn [snd]. split; [exact Hrest|].
        intros (x & d' & [Heq | Hin] & Ht' & Hn & Hid); [|eauto].
        injection Heq as <- <-. congruence.
Qed.

(** X15.  [check_for_custom_networking_configs] appends an entry to
    [ssh_tunnel_configs] exactly for the subsections of [BitBar.networking]
    whose type is [ssh], and to [port_redirect_configs] exactly for those
    whose type is [redirect]: the entry is the name of the subsection (or
    [None]) with the action identifier made of the prefix and the key of
    the subsection.  Plain values and subsections of another type or
    without a type give no entry. *)
Theorem custom_configs_registered (cfg : networking) (name : option str)
  (action_id : str) :
  (In (name, action_id) (fst (check_for_custom_networking_configs cfg))
   <-> exists _var d,
         In (_var, Section_ d) cfg
         /\ sec_get (lit "type") d = Some (lit "ssh")
         /\ name = sec_get (lit "name") d
         /\ action_id = lit "ssh_tunnel_custom_" ++ _var)
  /\ (In (name, action_id) (snd (check_for_custom_networking_configs cfg))
      <-> exists _var d,
            In (_var, Section_ d) cfg
            /\ sec_get (lit "type") d = Some (lit "redirect")
            /\ name = sec_get (lit "name") d
            /\ action_id = lit "port_redirect_custom_" ++ _var).
Proof.
  split; [apply check_ssh_entries | apply check_redirect_entries].
Qed.

Lemma typed_section_nonempty (d : section) (t : str) :
  sec_get (lit "type") d = Some t -> net_truthy (Some (Section_ d)) = true.
Proof. destruct d; [discriminate | reflexivity]. Qed.

Section CustomActions.

Variable os : OS.
Variable debug_enabled : bool.
Variable variables : UserVariables.

(** X16.  Round trip of the tunnel actions: with the identifier of an
    entry of [ssh_tunnel_configs] as [sys.argv[1]], [ssh_tunnel_custom]
    finds the subsection the entry was made from and does what
    [do_execute_ssh_tunnel] does on that subsection. *)
Theorem registered_tunnel_action_runs_its_section (cfg : networking)
  (name : option str) (action_id : str) :
  NoDup (names cfg) ->
  In (name, action_id) (fst (check_for_custom_networking_configs cfg)) ->
  exists _var d,
    In (_var, Section_ d) cfg
    /\ sec_get (lit "type") d = Some (lit "ssh")
    /\ name = sec_get (lit "name") d
    /\ forall h,
         ssh_tunnel_custom os debug_enabled variables action_id cfg h
         = lift (do_execute_ssh_tunnel os debug_enabled variables
                   (tunnel_config_of d)) h.
Proof.
  intros Hnd Hin. apply check_ssh_entries in Hin.
  destruct Hin as (x & d & Hin & Ht & Hn & ->).
  exists x, d. repeat split; try assumption.
  intros h. unfold ssh_tunnel_custom.
  change (lit "ssh_tunnel_custom_") with ssh_prefix.
  rewrite remove_prefix_app, (net_get_in cfg x (Section_ d) Hnd Hin).
  rewrite (typed_section_nonempty d _ Ht). reflexivity.
Qed.

(** X17.  Round trip of the redirect actions: removing the prefix from the
    identifier of an entry of [port_redirect_configs] and looking the rest up
    in [BitBar.networking], as [port_redirect_custom] does, gives the
    subsection the entry was made from. *)
Theorem registered_redirect_action_finds_its_section (cfg : networking)
  (name : option str) (action_id : str) :
  NoDup (names cfg) ->
  In (name, action_id) (snd (check_for_custom_networking_configs cfg)) ->
  exists d,
    net_get (remove_prefix (lit "port_redirect_custom_") action_id) cfg
    = Some (Section_ d)
    /\ sec_get (lit "type") d = Some (lit "redirect")
    /\ name = sec_get (lit "name") d.
Proof.
  intros Hnd Hin. apply check_redirect_entries in Hin.
  destruct Hin as (x & d & Hin & Ht & Hn & ->).
  exists d. repeat split; try assumption.
  change (lit "port_redirect_custom_") with redirect_prefix.
  rewrite remove_prefix_app. apply net_get_in; assumption.
Qed.

(** X18.  When [BitBar.networking] has nothing (or an empty value) under
    the name left of the identifier, [ssh_tunnel_custom] beeps, prints and
    notifies that the SSH tunnel config is not found and ends the program
    with the status 1; no command is run, not even the sudo validation. *)
Theorem ssh_tunnel_custom_unknown_config (argv1 : str) (cfg : networking)
  (h : list event) :
  net_truthy (net_get (remove_prefix (lit "ssh_tunnel_custom_") argv1) cfg) = false ->
  acts (ssh_tunnel_custom os debug_enabled variables argv1 cfg) h
    (inl (SystemExit (Some 1%Z)))
    (error_events (lit "SSH tunnel config ["
                   ++ remove_prefix (lit "ssh_tunnel_custom_") argv1
                   ++ lit "] not found") true).
Proof.
  intros Hf. unfold ssh_tunnel_custom. rewrite Hf. apply acts_bind_halt, acts_error.
Qed.

(** X19.  When [BitBar.networking] has nothing (or an empty value) under
    the name left of the identifier, [port_redirect_custom] beeps, prints
    and notifies that the port redirect config is not found and ends the
    program with the status 1; no command is run. *)
Theorem port_redirect_custom_unknown_config (argv1 : str) (cfg : networking)
  (h : list event) :
  net_truthy (net_get (remove_prefix (lit "port_redirect_custom_") argv1) cfg)
  = false ->
  acts (port_redirect_custom os debug_enabled argv1 cfg) h
    (inl (SystemExit (Some 1%Z)))
    (error_events (lit "Port redirect config ["
                   ++ remove_prefix (lit "port_redirect_custom_") argv1
                   ++ lit "] not found") true).
Proof.
  intros Hf. unfold port_redirect_custom. rewrite Hf. apply acts_bind_halt, acts_error.
Qed.

Lemma acts_get_var (d : section) (var_name : str) (h : list event) :
  var_of d var_name <> [] ->
  acts (get_var d var_name) h (inr (var_of d var_name)) [].
Proof.
  intros Hne. unfold get_var. fold (var_of d var_name).
  destruct (str_eqb (var_of d var_name) []) eqn:He.
  - apply str_eqb_eq in He. contradiction.
  - change (@nil event) with (@nil event ++ []).
    eapply acts_bind; apply acts_ret.
Qed.

Lemma acts_get_var_blank (d : section) (var_name : str) (h : list event) :
  var_of d var_name = [] ->
  acts (get_var d var_name) h (inl (SystemExit (Some 1%Z)))
    (error_events (lit "variable " ++ var_name ++ lit " not found in redirect config")
       true).
Proof.
  intros He. unfold get_var. fold (var_of d var_name). rewrite He.
  apply acts_bind_halt, acts_error.
Qed.

(** X20.  When one of [source_address], [source_port], [target_address]
    and [target_port] is missing from the subsection or blank,
    [port_redirect_custom] reports the first such variable, in that order,
    and ends the program with the status 1: there is no sudo validation
    and no redirect. *)
Theorem port_redirect_custom_missing_variable (argv1 : str) (cfg : networking)
  (d : section) (var_name : str) (h : list event) :
  net_get (remove_prefix (lit "port_redirect_custom_") argv1) cfg
  = Some (Section_ d) ->
  d <> [] ->
  first_blank d = Some var_name ->
  acts (port_redirect_custom os debug_enabled argv1 cfg) h
    (inl (SystemExit (Some 1%Z)))
    (error_events (lit "variable " ++ var_name ++ lit " not found in redirect config")
       true).
Proof.
  intros Hget Hne Hblank. unfold port_redirect_custom. rewrite Hget.
  assert (Ht : net_truthy (Some (Section_ d)) = true)
    by (destruct d; [congruence | reflexivity]).
  rewrite Ht. cbn [negb].
  change (error_events ?c true) with ([] ++ error_events c true).
  eapply acts_bind; [apply acts_ret|].
  unfold first_blank, redirect_vars in Hblank. cbn [find] in Hblank.
  destruct (str_eqb (var_of d (lit "source_address")) []) eqn:H1.
  { injection Hblank as <-. apply str_eqb_eq in H1.
    apply acts_bind_halt, acts_get_var_blank, H1. }
  change (error_events ?c true) with ([] ++ error_events c true).
  eapply acts_bind.
  { apply acts_get_var. intros E. rewrite E in H1. discriminate. }
  destruct (str_eqb (var_of d (lit "source_port")) []) eqn:H2.
  { injection Hblank as <-. apply str_eqb_eq in H2.
    apply acts_bind_halt, acts_get_var_blank, H2. }
  change (error_events ?c true) with ([] ++ error_events c true).
  eapply acts_bind.
  { apply acts_get_var. intros E. rewrite E in H2. discriminate. }
  destruct (str_eqb (var_of d (lit "target_address")) []) eqn:H3.
  { injection Hblank as <-. apply str_eqb_eq in H3.
    apply acts_bind_halt, acts_get_var_blank, H3. }
  change (error_events ?c true) with ([] ++ error_events c true).
  eapply acts_bind.
  { apply acts_get_var. intros E. rewrite E in H3. discriminate. }
  destruct (str_eqb (var_of d (lit "target_port")) []) eqn:H4.
  { injection Hblank as <-. apply str_eqb_eq in H4.
    apply acts_bind_halt, acts_get_var_blank, H4. }
  discriminate.
Qed.

End CustomActions.

(** ** Trimmed text *)

Lemma dropwhile_head (p : ascii -> bool) (s : str) :
  dropwhile p s = [] \/ exists c t, dropwhile p s = c :: t /\ p c = false.
Proof.
  induction s as [|c s IH]; simpl; [left; reflexivity|].
  destruct (p c) eqn:Hc; [exact IH|]. right. exists c, s. split; [reflexivity | exact Hc].
Qed.

(** What [strip] returns neither starts nor ends with whitespace. *)
Lemma strip_shape (s : str) :
  strip s = []
  \/ (exists c, strip s = [c] /\ isspace c = false)
  \/ (exists c mid d,
        strip s = c :: mid ++ [d] /\ isspace c = false /\ isspace d = false).
Proof.
  unfold strip, lstrip, rstrip.
  destruct (dropwhile_head isspace s) as [-> | (c & t & -> & Hc)];
    [left; reflexivity|].
  right. simpl rev. rewrite dropwhile_app_last by exact Hc.
  rewrite rev_app_distr. simpl.
  destruct (dropwhile_head isspace (rev t)) as [-> | (d & m & -> & Hd)].
  - left. exists c. split; [reflexivity | exact Hc].
  - right. exists c, (rev m), d. simpl. repeat split; assumption.
Qed.

Lemma strip_idem (s : str) : strip (strip s) = strip s.
Proof.
  destruct (strip_shape s) as [-> | [(c & -> & Hc) | (c & mid & d & -> & Hc & Hd)]].
  - reflexivity.
  - apply strip_single, Hc.
  - apply strip_id; assumption.
Qed.

Lemma strip_no_trailing_space (s x : str) (c : ascii) :
  strip s = x ++ [c] -> isspace c = false.
Proof.
  destruct (strip_shape s) as [-> | [(a & -> & Ha) | (a & mid & d & -> & Ha & Hd)]].
  - intros E. destruct x; discriminate E.
  - intros E. change [a] with ([] ++ [a]) in E. apply app_inj_tail in E.
    destruct E as [_ <-]. exact Ha.
  - intros E. change (a :: mid ++ [d]) with ((a :: mid) ++ [d]) in E.
    apply app_inj_tail in E. destruct E as [_ <-]. exact Hd.
Qed.

Lemma commands_count (evs : list event) :
  (length (runs evs) + length (shell_commands evs) <= length (commands evs))%nat.
Proof.
  induction evs as [|e evs IH]; simpl; [lia|].
  destruct e; simpl; lia.
Qed.

Lemma shell_commands_none (evs : list event) :
  length (commands evs) = length (runs evs) -> shell_commands evs = [].
Proof.
  intros H. pose proof (commands_count evs) as Hc.
  destruct (shell_commands evs); [reflexivity | simpl in Hc; lia].
Qed.

Section RedirectAction.

Variable os : OS.
Variable debug_enabled : bool.

(** X21.  With its four variables present and the loopback alias of the
    source address in place, [port_redirect_custom] validates sudo, lists
    the interfaces and gives the shell one command: the redirect rule made
    of the four values with the whitespace around them removed.  It
    returns normally. *)
Theorem port_redirect_custom_trimmed_rule (argv1 : str) (cfg : networking)
  (d : section) (name : str) (atoms : list atom) (text : str) (h : list event) :
  let source_address := var_of d (lit "source_address") in
  let source_port := var_of d (lit "source_port") in
  let target_address := var_of d (lit "target_address") in
  let target_port := var_of d (lit "target_port") in
  net_get (remove_prefix (lit "port_redirect_custom_") argv1) cfg
  = Some (Section_ d) ->
  first_blank d = None ->
  sec_get (lit "name") d = Some name ->
  succeeds os sudo_validate_argv ->
  loopback_prefix_match source_address = true ->
  source_address <> lit "127.0.0.1" ->
  atoms_of source_address = Some atoms ->
  yields os ifconfig_argv text ->
  loopback_search atoms None text = true ->
  exists evs,
    acts (port_redirect_custom os debug_enabled argv1 cfg) h (inr PNone) evs
    /\ runs evs = [sudo_validate_argv; ifconfig_argv]
    /\ shell_commands evs
       = [redirect_cmd source_address source_port target_address target_port].
Proof.
  intros sa sp ta tp Hget Hblank Hname Hsudo Hprefix Hnot Hatoms Hifc Hfound.
  unfold first_blank, redirect_vars in Hblank. cbn [find] in Hblank.
  fold sa sp ta tp in Hblank.
  destruct (str_eqb sa []) eqn:H1; [discriminate|].
  destruct (str_eqb sp []) eqn:H2; [discriminate|].
  destruct (str_eqb ta []) eqn:H3; [discriminate|].
  destruct (str_eqb tp []) eqn:H4; [discriminate|].
  assert (Hv : forall x, str_eqb x [] = false -> x <> []).
  { intros x Hx E. rewrite E in Hx. discriminate. }
  set (s0 := run_events debug_enabled sudo_validate_cmd sudo_validate_argv None false).
  set (p1 := [Print (NL ++ lit "Setting up redirection for config " ++ quoted name
                     ++ lit "..." ++ NL)]).
  assert (Hatoms' : atoms_of (strip sa) = Some atoms).
  { unfold sa, var_of. rewrite strip_idem. exact Hatoms. }
  destruct (steps_verify_found os debug_enabled sa false atoms text
              ((h ++ s0) ++ p1) Hprefix (fun _ => Hnot) Hatoms' Hifc Hfound)
    as (ev1 & Hverify & Hc1 & Hr1).
  destruct (steps_port_redirect os debug_enabled sa sp ta tp ((h ++ s0) ++ p1) ev1
              Hverify) as (ev2 & Hredirect & Hsh2 & Hr2).
  set (msg := sec_get (lit "optional_exit_message") d).
  set (p3 := if truthy_opt msg
             then [Print (replace (lit "\t") TAB (replace (lit "\n") NL (fmt_opt msg)))]
             else []).
  exists (s0 ++ p1 ++ (ev1 ++ ev2)
          ++ [Print (lit "Done. You may close the terminal." ++ NL)] ++ p3 ++ []).
  split; [|split].
  - unfold port_redirect_custom. rewrite Hget.
    assert (Ht : net_truthy (Some (Section_ d)) = true)
      by (destruct d; [discriminate | reflexivity]).
    rewrite Ht. cbn [negb].
    eapply acts_bind_silent; [apply acts_ret|].
    eapply acts_bind_silent; [apply acts_get_var, Hv, H1|].
    eapply acts_bind_silent; [apply acts_get_var, Hv, H2|].
    eapply acts_bind_silent; [apply acts_get_var, Hv, H3|].
    eapply acts_bind_silent; [apply acts_get_var, Hv, H4|].
    eapply acts_bind; [apply acts_lift, steps_sudo, Hsudo|].
    rewrite Hname.
    eapply acts_bind; [apply acts_print|].
    eapply acts_bind; [apply acts_lift; exact Hredirect|].
    eapply acts_bind; [apply acts_print|].
    eapply acts_bind; [|apply acts_ret].
    fold msg. unfold p3. destruct (truthy_opt msg); [apply acts_print | apply acts_ret].
  - unfold s0, p3.
    rewrite !runs_app, runs_run_events, Hr1, Hr2.
    destruct (truthy_opt msg); reflexivity.
  - unfold s0, p3.
    rewrite !shell_commands_app, shell_commands_run_events, Hsh2.
    rewrite (shell_commands_none ev1) by (rewrite Hc1, Hr1; reflexivity).
    destruct (truthy_opt msg); reflexivity.
Qed.

End RedirectAction.

(** ** The upgrade command *)

Lemma span_all (p : ascii -> bool) (s : str) : all_chars p (fst (span p s)).
Proof.
  unfold all_chars. induction s as [|c s IH]; simpl; [constructor|].
  destruct (p c) eqn:Hc; simpl; [|constructor].
  destruct (span p s) as [a b]. simpl in *. constructor; assumption.
Qed.

Lemma is_dot_eq (c : ascii) : is_dot c = true -> c = ascii_of_N 46.
Proof. intros H. apply ascii_eqb_eq in H. exact H. Qed.

(** The versions [make_upgrade_command] accepts. *)
Lemma upgrade_version_match_inv (version : str) :
  upgrade_version_match version = true ->
  exists major minor tail,
    version = major ++ lit "." ++ minor ++ tail
    /\ all_chars isdigit major /\ all_chars isdigit minor
    /\ (2 <= length major)%nat /\ (1 <= length minor)%nat
    /\ (tail = [] \/ tail = NL).
Proof.
  unfold upgrade_version_match.
  pose proof (span_eq isdigit version) as E1.
  pose proof (span_all isdigit version) as A1.
  destruct (span isdigit version) as [major r1]. simpl in E1, A1.
  destruct r1 as [|c r2]; [discriminate|].
  pose proof (span_eq isdigit r2) as E2.
  pose proof (span_all isdigit r2) as A2.
  destruct (span isdigit r2) as [minor r3]. simpl in E2, A2.
  intros H. apply andb_prop in H. destruct H as [H Htail].
  apply andb_prop in H. destruct H as [H Hminor].
  apply andb_prop in H. destruct H as [Hmajor Hdot].
  apply is_dot_eq in Hdot. subst c.
  exists major, minor, r3. repeat split.
  - rewrite <- E1, <- E2. reflexivity.
  - exact A1.
  - exact A2.
  - apply Nat.leb_le. exact Hmajor.
  - apply Nat.leb_le. exact Hminor.
  - apply orb_prop in Htail. destruct Htail as [Ht | Ht]; apply str_eqb_eq in Ht; auto.
Qed.

(** X22.  Whatever non-empty text it is given, [make_upgrade_command]
    either returns the installer command for a version made of two or more
    digits, a dot and one or more digits (the text without its letters [m]
    and the whitespace around it), changing nothing, or it notifies
    [Invalid LogicHub version] and ends the program with the status 1.
    No other character ever reaches the command. *)
Theorem upgrade_command_only_digits (version : str) (h : list event) :
  version <> [] ->
  (exists major minor,
      all_chars isdigit major /\ all_chars isdigit minor
      /\ (2 <= length major)%nat /\ (1 <= length minor)%nat
      /\ strip (replace (lit "m") [] version) = major ++ lit "." ++ minor
      /\ make_upgrade_command (Some version) h
         = (inr (upgrade_command_for (major ++ lit "." ++ minor)), h))
  \/ acts (make_upgrade_command (Some version)) h (inl (SystemExit (Some 1%Z)))
       (error_events (lit "Invalid LogicHub version") false).
Proof.
  intros Hne. unfold make_upgrade_command.
  assert (Ht : truthy_opt (Some version) = true).
  { destruct version; [congruence | reflexivity]. }
  rewrite Ht. cbn [negb fmt_opt].
  set (v := strip (replace (lit "m") [] version)).
  destruct (str_eqb (strip v) [] || negb (upgrade_version_match v)) eqn:Hbad.
  - right. apply acts_bind_halt, acts_error.
  - left. apply orb_false_elim in Hbad. destruct Hbad as [_ Hm].
    apply negb_false_iff in Hm.
    destruct (upgrade_version_match_inv v Hm)
      as (major & minor & tail & Ev & A1 & A2 & L1 & L2 & Htail).
    assert (tail = []) as ->.
    { destruct Htail as [-> | ->]; [reflexivity|]. exfalso.
      assert (Hs : isspace newline = false).
      { apply (strip_no_trailing_space (replace (lit "m") [] version)
                 (major ++ lit "." ++ minor)).
        fold v. rewrite Ev, <- !app_assoc. reflexivity. }
      discriminate Hs. }
    rewrite app_nil_r in Ev.
    exists major, minor. repeat split; try assumption.
    rewrite Ev. reflexivity.
Qed.

Lemma replace_em (s : str) :
  replace (lit "m") [] s = filter (fun c => negb (ascii_eqb em c)) s.
Proof.
  unfold replace. induction s as [|c s IH]; [reflexivity|].
  cbn [replace_from filter]. change (lit "m") with [em] in *.
  cbn [startswith length pred]. rewrite andb_true_r.
  destruct (ascii_eqb em c); cbn [negb app]; rewrite IH; reflexivity.
Qed.

Lemma replace_em_absent (s : str) :
  all_chars (fun c => negb (ascii_eqb em c)) s -> replace (lit "m") [] s = s.
Proof.
  intros H. rewrite replace_em. induction H as [|c s Hc _ IH]; [reflexivity|].
  simpl. rewrite Hc, IH. reflexivity.
Qed.

Lemma space_not_em (c : ascii) : isspace c = true -> negb (ascii_eqb em c) = true.
Proof. ascii_cases c. Qed.

Lemma digit_not_em (c : ascii) : isdigit c = true -> negb (ascii_eqb em c) = true.
Proof. ascii_cases c. Qed.

Lemma all_chars_app (p : ascii -> bool) (a b : str) :
  all_chars p a -> all_chars p b -> all_chars p (a ++ b).
Proof. unfold all_chars. intros Ha Hb. apply Forall_app. split; assumption. Qed.

Lemma all_chars_impl (p q : ascii -> bool) (s : str) :
  (forall c, p c = true -> q c = true) -> all_chars p s -> all_chars q s.
Proof. unfold all_chars. intros H. apply Forall_impl. exact H. Qed.

(** A version between digits keeps its text when trimmed. *)
Lemma strip_version (ws1 ws2 major minor : str) :
  all_chars isspace ws1 -> all_chars isspace ws2 ->
  all_chars isdigit major -> all_chars isdigit minor ->
  major <> [] -> minor <> [] ->
  strip (ws1 ++ (major ++ lit "." ++ minor) ++ ws2) = major ++ lit "." ++ minor.
Proof.
  intros W1 W2 D1 D2 N1 N2.
  destruct major as [|c major']; [congruence|].
  destruct (nonempty_last minor N2) as (minor' & d & ->).
  assert (Hc : isspace c = false).
  { apply digit_not_space. inversion D1. assumption. }
  assert (Hd : isspace d = false).
  { apply digit_not_space. unfold all_chars in D2. rewrite Forall_app in D2.
    destruct D2 as [_ D2]. inversion D2. assumption. }
  assert (E : (c :: major') ++ lit "." ++ minor' ++ [d]
              = c :: (major' ++ lit "." ++ minor') ++ [d]).
  { simpl. rewrite <- !app_assoc. reflexivity. }
  rewrite E.
  transitivity (strip ((c :: (major' ++ lit "." ++ minor') ++ [d]) ++ ws2)).
  - unfold strip, lstrip. f_equal. apply dropwhile_all. exact W1.
  - apply strip_trailing; assumption.
Qed.

(** X23.  A version of two or more digits, a dot and one or more digits is
    accepted with or without the letter [m] before it and with whitespace
    around it: [make_upgrade_command] returns the installer command of that
    version and does nothing else. *)
Theorem upgrade_command_accepts_milestone (ws1 ws2 major minor : str)
  (with_em : bool) (h : list event) :
  all_chars isspace ws1 -> all_chars isspace ws2 ->
  all_chars isdigit major -> all_chars isdigit minor ->
  (2 <= length major)%nat -> (1 <= length minor)%nat ->
  make_upgrade_command
    (Some (ws1 ++ ((if with_em then lit "m" else []) ++ major ++ lit "." ++ minor)
           ++ ws2)) h
  = (inr (upgrade_command_for (major ++ lit "." ++ minor)), h).
Proof.
  intros W1 W2 D1 D2 L1 L2.
  assert (N1 : major <> []) by (destruct major; simpl in L1; [lia | congruence]).
  assert (N2 : minor <> []) by (destruct minor; simpl in L2; [lia | congruence]).
  set (core := major ++ lit "." ++ minor).
  assert (Hrep : replace (lit "m") []
                   (ws1 ++ ((if with_em then lit "m" else []) ++ core) ++ ws2)
                 = ws1 ++ core ++ ws2).
  { rewrite replace_em, !filter_app.
    assert (Hid : forall s, all_chars (fun c => negb (ascii_eqb em c)) s ->
                            filter (fun c => negb (ascii_eqb em c)) s = s).
    { intros s Hs. rewrite <- replace_em. apply replace_em_absent. exact Hs. }
    rewrite (Hid ws1) by (eapply all_chars_impl; [apply space_not_em | exact W1]).
    rewrite (Hid ws2) by (eapply all_chars_impl; [apply space_not_em | exact W2]).
    rewrite (Hid core).
    - destruct with_em; reflexivity.
    - unfold core. apply all_chars_app;
        [eapply all_chars_impl; [apply digit_not_em | exact D1]|].
      apply all_chars_app; [constructor; [reflexivity | constructor]|].
      eapply all_chars_impl; [apply digit_not_em | exact D2]. }
  unfold make_upgrade_command.
  assert (Ht : truthy_opt (Some (ws1 ++ ((if with_em then lit "m" else []) ++ core)
                                 ++ ws2)) = true).
  { destruct major as [|c major']; [congruence|].
    destruct ws1; destruct with_em; reflexivity. }
  rewrite Ht. cbn [negb fmt_opt]. rewrite Hrep.
  unfold core. rewrite strip_version by assumption. fold core.
  assert (Hs : strip core = core).
  { pose proof (strip_version [] [] major minor (Forall_nil _) (Forall_nil _)
                  D1 D2 N1 N2) as Hs.
    rewrite app_nil_r in Hs. exact Hs. }
  assert (Hm : upgrade_version_match core = true).
  { unfold upgrade_version_match, core.
    rewrite (span_app isdigit major (lit "." ++ minor) D1) by reflexivity.
    cbn [app lit list_ascii_of_string].
    rewrite <- (app_nil_r minor) at 1.
    rewrite (span_app isdigit minor [] D2) by exact I.
    apply Nat.leb_le in L1, L2. rewrite L1, L2. reflexivity. }
  rewrite Hs, Hm.
  assert (Hc : str_eqb core [] = false).
  { unfold core. destruct major; [congruence | reflexivity]. }
  rewrite Hc. reflexivity.
Qed.

(** ** The properties of the actions on the sample inputs *)

Lemma terminate_all_command_sequence_witness :
  exists evs,
    acts (action_terminate_all (sample_os ps_three ifconfig_with_alias []) false) []
      (inl (SystemExit None)) evs
    /\ runs evs
       = sudo_validate_argv
         :: termination_runs (selected None PNone ps_three) ++ [pfctl_reset_argv].
Proof.
  apply (terminate_all_command_sequence (sample_os ps_three ifconfig_with_alias [])
           false ps_three []).
  - intros h. eexists. reflexivity.
  - intros h. reflexivity.
  - sample_entries.
  - sample_entries.
  - intros h. eexists. reflexivity.
Defined.

Lemma terminate_all_stops_at_tunnel_failure_witness :
  let os := sample_os ps_three ifconfig_with_alias [222] in
  let evs := added (do_terminate_tunnels os false None PNone)
               ([] ++ terminate_all_prelude false) in
  acts (action_terminate_all os false) []
    (inl (Raised (CalledProcessError 1 (kill_argv 222))))
    (terminate_all_prelude false ++ evs)
  /\ ~ In pfctl_reset_argv (runs (terminate_all_prelude false ++ evs)).
Proof.
  apply (terminate_all_stops_at_tunnel_failure
           (sample_os ps_three ifconfig_with_alias [222]) false
           (CalledProcessError 1 (kill_argv 222)) []).
  - intros h. eexists. reflexivity.
  - vm_compute. reflexivity.
Defined.

Lemma registered_tunnel_action_runs_its_section_witness :
  exists _var d,
    In (_var, Section_ d) sample_networking
    /\ sec_get (lit "type") d = Some (lit "ssh")
    /\ Some (lit "db") = sec_get (lit "name") d
    /\ forall h,
         ssh_tunnel_custom (sample_os ps_none ifconfig_with_alias []) false
           sample_variables (lit "ssh_tunnel_custom_db") sample_networking h
         = lift (do_execute_ssh_tunnel (sample_os ps_none ifconfig_with_alias [])
                   false sample_variables (tunnel_config_of d)) h.
Proof.
  apply (registered_tunnel_action_runs_its_section
           (sample_os ps_none ifconfig_with_alias []) false sample_variables
           sample_networking (Some (lit "db")) (lit "ssh_tunnel_custom_db")).
  - distinct_names.
  - vm_compute. left. reflexivity.
Defined.

Lemma registered_redirect_action_finds_its_section_witness :
  exists d,
    net_get (remove_prefix (lit "port_redirect_custom_")
               (lit "port_redirect_custom_web")) sample_networking
    = Some (Section_ d)
    /\ sec_get (lit "type") d = Some (lit "redirect")
    /\ Some (lit "web") = sec_get (lit "name") d.
Proof.
  apply (registered_redirect_action_finds_its_section sample_networking
           (Some (lit "web")) (lit "port_redirect_custom_web")).
  - distinct_names.
  - vm_compute. right. left. reflexivity.
Defined.

Lemma ssh_tunnel_custom_unknown_config_witness :
  acts (ssh_tunnel_custom (sample_os ps_none ifconfig_with_alias []) false
          sample_variables (lit "ssh_tunnel_custom_gone") sample_networking) []
    (inl (SystemExit (Some 1%Z)))
    (error_events (lit "SSH tunnel config ["
                   ++ remove_prefix (lit "ssh_tunnel_custom_")
                        (lit "ssh_tunnel_custom_gone")
                   ++ lit "] not found") true).
Proof.
  apply (ssh_tunnel_custom_unknown_config (sample_os ps_none ifconfig_with_alias [])
           false sample_variables (lit "ssh_tunnel_custom_gone") sample_networking []).
  vm_compute. reflexivity.
Defined.

Lemma port_redirect_custom_unknown_config_witness :
  acts (port_redirect_custom (sample_os ps_none ifconfig_with_alias []) false
          (lit "gone") sample_networking) []
    (inl (SystemExit (Some 1%Z)))
    (error_events (lit "Port redirect config ["
                   ++ remove_prefix (lit "port_redirect_custom_") (lit "gone")
                   ++ lit "] not found") true).
Proof.
  apply (port_redirect_custom_unknown_config
           (sample_os ps_none ifconfig_with_alias []) false (lit "gone")
           sample_networking []).
  vm_compute. reflexivity.
Defined.

Lemma port_redirect_custom_missing_variable_witness :
  acts (port_redirect_custom (sample_os ps_none ifconfig_with_alias []) false
          (lit "port_redirect_custom_broken") sample_networking) []
    (inl (SystemExit (Some 1%Z)))
    (error_events (lit "variable " ++ lit "target_address"
                   ++ lit " not found in redirect config") true).
Proof.
  apply (port_redirect_custom_missing_variable
           (sample_os ps_none ifconfig_with_alias []) false
           (lit "port_redirect_custom_broken") sample_networking broken_section
           (lit "target_address") []).
  - vm_compute. reflexivity.
  - discriminate.
  - vm_compute. reflexivity.
Defined.

Lemma port_redirect_custom_trimmed_rule_witness :
  exists evs,
    acts (port_redirect_custom (sample_os ps_none ifconfig_with_alias []) false
            (lit "port_redirect_custom_web") sample_networking) [] (inr PNone) evs
    /\ runs evs = [sudo_validate_argv; ifconfig_argv]
    /\ shell_commands evs
       = [redirect_cmd (var_of web_section (lit "source_address"))
            (var_of web_section (lit "source_port"))
            (var_of web_section (lit "target_address"))
            (var_of web_section (lit "target_port"))].
Proof.
  eapply (port_redirect_custom_trimmed_rule
            (sample_os ps_none ifconfig_with_alias []) false
            (lit "port_redirect_custom_web") sample_networking web_section
            (lit "web") _ ifconfig_with_alias []).
  - vm_compute. reflexivity.
  - vm_compute. reflexivity.
  - vm_compute. reflexivity.
  - intros h. eexists. reflexivity.
  - vm_compute. reflexivity.
  - intros H. vm_compute in H. discriminate H.
  - vm_compute. reflexivity.
  - intros h. reflexivity.
  - vm_compute. reflexivity.
Defined.

Lemma upgrade_command_only_digits_witness :
  (exists major minor,
      all_chars isdigit major /\ all_chars isdigit minor
      /\ (2 <= length major)%nat /\ (1 <= length minor)%nat
      /\ strip (replace (lit "m") [] (lit "m63.1; reboot")) = major ++ lit "." ++ minor
      /\ make_upgrade_command (Some (lit "m63.1; reboot")) []
         = (inr (upgrade_command_for (major ++ lit "." ++ minor)), []))
  \/ acts (make_upgrade_command (Some (lit "m63.1; reboot"))) []
       (inl (SystemExit (Some 1%Z)))
       (error_events (lit "Invalid LogicHub version") false).
Proof.
  apply (upgrade_command_only_digits (lit "m63.1; reboot") []).
  discriminate.
Defined.

Lemma upgrade_command_accepts_milestone_witness :
  make_upgrade_command
    (Some (lit " " ++ ((if true then lit "m" else []) ++ lit "63" ++ lit "." ++ lit "1")
           ++ NL)) []
  = (inr (upgrade_command_for (lit "63" ++ lit "." ++ lit "1")), []).
Proof.
  apply (upgrade_command_accepts_milestone (lit " ") NL (lit "63") (lit "1") true []).
  - repeat constructor.
  - repeat constructor.
  - repeat constructor.
  - repeat constructor.
  - simpl. lia.
  - simpl. lia.
Defined.

(** * Properties of the menu and of the configuration *)

(** ** The menu *)

Lemma join_cons (sep p : str) (rest : list str) :
  join sep (p :: rest) = p ++ flat_map (fun m => sep ++ m) rest.
Proof.
  revert p. induction rest as [|q rest IH]; intros p.
  - simpl. rewrite app_nil_r. reflexivity.
  - change (join sep (p :: q :: rest)) with (p ++ sep ++ join sep (q :: rest)).
    rewrite IH. simpl. rewrite <- !app_assoc. reflexivity.
Qed.

Lemma get_set_item {V : Type} (d : list (str * V)) (k : str) (v : V) :
  get_item (set_item d k v) k = Some v.
Proof.
  induction d as [|[k' v'] rest IH]; simpl.
  - rewrite str_eqb_refl. reflexivity.
  - destruct (str_eqb k' k) eqn:E; simpl.
    + rewrite str_eqb_refl. reflexivity.
    + rewrite E. exact IH.
Qed.

Lemma get_set_item_other {V : Type} (d : list (str * V)) (k k' : str) (v : V) :
  k' <> k -> get_item (set_item d k v) k' = get_item d k'.
Proof.
  intros Hne. induction d as [|[k0 v0] rest IH]; simpl.
  - destruct (str_eqb k k') eqn:E; [|reflexivity].
    apply str_eqb_eq in E. congruence.
  - destruct (str_eqb k0 k) eqn:E; simpl.
    + apply str_eqb_eq in E. subst k0.
      destruct (str_eqb k k') eqn:E'; [|reflexivity].
      apply str_eqb_eq in E'. congruence.
    + rewrite IH. reflexivity.
Qed.

Lemma underscore_word : isword underscore = true.
Proof. reflexivity. Qed.

Lemma sub_nonword_words (name : str) : all_chars isword (sub_nonword name).
Proof.
  unfold all_chars, sub_nonword. apply Forall_forall. intros c Hin.
  apply in_map_iff in Hin. destruct Hin as (x & <- & _).
  destruct (isword x) eqn:Hx; [exact Hx | exact underscore_word].
Qed.

Lemma sub_nonword_same (name1 name2 : str) :
  same_words name1 name2 -> sub_nonword name1 = sub_nonword name2.
Proof.
  induction 1 as [|c1 c2 l1 l2 Hc _ IH]; [reflexivity|].
  simpl. rewrite IH. destruct Hc as [-> | [-> ->]]; reflexivity.
Qed.

Section MenuProperties.

Variable callable : Type.

Lemma print_after_text (msgs : list str) :
  forall self : BitBar callable,
    bitbar_menu_output self <> [] ->
    bitbar_menu_output (fold_left print_in_bitbar_menu msgs self)
    = bitbar_menu_output self ++ flat_map (fun m => NL ++ m) msgs.
Proof.
  induction msgs as [|m rest IH]; intros self Hne; simpl.
  - rewrite app_nil_r. reflexivity.
  - rewrite IH.
    + unfold print_in_bitbar_menu. simpl.
      destruct (str_eqb (bitbar_menu_output self) []) eqn:E.
      * apply str_eqb_eq in E. contradiction.
      * simpl. rewrite <- !app_assoc. reflexivity.
    + unfold print_in_bitbar_menu. simpl.
      destruct (str_eqb (bitbar_menu_output self) []) eqn:E.
      * apply str_eqb_eq in E. contradiction.
      * simpl. intros H. apply app_eq_nil in H. destruct H as [H _].
        apply app_eq_nil in H. destruct H as [_ H]. discriminate H.
Qed.

(** X24.  Printed into an empty menu, messages give the text of the
    messages joined by newlines, without the empty messages printed first:
    as long as the menu is empty an empty message leaves no line at all,
    while a later one gives an empty line. *)
Theorem menu_output_joins_lines (self : BitBar callable) (msgs : list str) :
  bitbar_menu_output self = [] ->
  bitbar_menu_output (fold_left print_in_bitbar_menu msgs self)
  = join NL (skip_empty msgs).
Proof.
  revert self. induction msgs as [|m rest IH]; intros self He.
  - exact He.
  - destruct m as [|c m].
    + simpl. apply IH. unfold print_in_bitbar_menu. simpl. rewrite He. reflexivity.
    + cbn [skip_empty fold_left]. rewrite join_cons, print_after_text.
      * unfold print_in_bitbar_menu. simpl. rewrite He. reflexivity.
      * unfold print_in_bitbar_menu. simpl. rewrite He. discriminate.
Qed.

(** [make_action] for an action with a name. *)
Lemma make_action_named (self : BitBar callable) (name : str) (action : callable)
  (action_id : option str) (menu_depth : nat) (alternate terminal : bool) :
  let _var := Action.make (identifier_of name action_id) (Some name) action in
  exists self',
    make_action self (Some name) (Some action) action_id menu_depth alternate terminal
    = inr (self', Some _var)
    /\ action_list self'
       = set_item (action_list self) (identifier_of name action_id) _var.
Proof.
  intros _var. unfold make_action, identifier_of in *.
  destruct menu_depth; destruct (truthy_opt action_id) eqn:Hid;
    (eexists; split; reflexivity).
Qed.

Lemma set_item_present_length {V : Type} (d : list (str * V)) (k : str) (v v0 : V) :
  get_item d k = Some v0 -> length (set_item d k v) = length d.
Proof.
  induction d as [|[k' v'] rest IH]; simpl; [discriminate|].
  destruct (str_eqb k' k); simpl; [reflexivity|].
  intros H. rewrite IH by exact H. reflexivity.
Qed.

(** X25.  [make_action] with a name and an action always succeeds and
    registers the action under the identifier given or, without one, under
    the name with [_] in place of each character that is not a word
    character: [action_list] then has the new entry under that identifier,
    its other identifiers keep their entries, and an identifier made from
    the name has word characters only. *)
Theorem make_action_registers (self : BitBar callable) (name : str)
  (action : callable) (action_id : option str) (menu_depth : nat)
  (alternate terminal : bool) :
  let _var := Action.make (identifier_of name action_id) (Some name) action in
  exists self',
    make_action self (Some name) (Some action) action_id menu_depth alternate terminal
    = inr (self', Some _var)
    /\ get_item (action_list self') (identifier_of name action_id) = Some _var
    /\ (forall k, k <> identifier_of name action_id ->
                  get_item (action_list self') k = get_item (action_list self) k)
    /\ (truthy_opt action_id = false ->
        all_chars isword (identifier_of name action_id)).
Proof.
  intros _var.
  destruct (make_action_named self name action action_id menu_depth alternate
              terminal) as (self' & Hm & Hl).
  exists self'. split; [exact Hm|]. rewrite Hl. split; [|split].
  - apply get_set_item.
  - intros k Hk. apply get_set_item_other. exact Hk.
  - intros Hid. unfold identifier_of. rewrite Hid. apply sub_nonword_words.
Qed.

(** X26.  Two names that differ only in characters that are not word
    characters get the same identifier: when both are registered without
    an identifier of their own, the second entry takes the place of the
    first in [action_list], which does not grow, and the identifier of
    the first menu line then runs the second action. *)
Theorem make_action_same_identifier (self : BitBar callable) (name1 name2 : str)
  (action1 action2 : callable) (menu_depth1 menu_depth2 : nat)
  (alternate1 alternate2 terminal1 terminal2 : bool) :
  same_words name1 name2 ->
  exists self1 _var1 self2 _var2,
    make_action self (Some name1) (Some action1) None menu_depth1 alternate1 terminal1
    = inr (self1, Some _var1)
    /\ make_action self1 (Some name2) (Some action2) None menu_depth2 alternate2
         terminal2
       = inr (self2, Some _var2)
    /\ Action.id _var1 = Action.id _var2
    /\ Action.action _var2 = action2
    /\ get_item (action_list self2) (Action.id _var1) = Some _var2
    /\ length (action_list self2) = length (action_list self1).
Proof.
  intros Hsame. apply sub_nonword_same in Hsame.
  destruct (make_action_named self name1 action1 None menu_depth1 alternate1
              terminal1) as (self1 & H1 & Hl1).
  destruct (make_action_named self1 name2 action2 None menu_depth2 alternate2
              terminal2) as (self2 & H2 & Hl2).
  unfold identifier_of in *. cbn [truthy_opt] in *.
  do 4 eexists. split; [exact H1|]. split; [exact H2|].
  cbn [Action.id Action.action]. rewrite Hl2, <- Hsame.
  repeat split.
  - apply get_set_item.
  - eapply set_item_present_length. rewrite Hl1. apply get_set_item.
Qed.

End MenuProperties.

(** ** Sorting the configuration *)

Lemma str_ltb_asym (a b : str) : str_ltb a b = true -> str_ltb b a = false.
Proof.
  revert b. induction a as [|x a IH]; intros [|y b]; simpl; try congruence.
  intros H. apply orb_true_iff in H. apply orb_false_iff.
  destruct H as [H | H].
  - apply N.ltb_lt in H. split.
    + apply N.ltb_ge. lia.
    + apply andb_false_iff. left. apply N.eqb_neq. lia.
  - apply andb_true_iff in H. destruct H as [He Hl]. apply N.eqb_eq in He.
    split.
    + apply N.ltb_ge. lia.
    + apply andb_false_iff. right. apply IH. exact Hl.
Qed.

Lemma insert_sorted_perm (k : str) (l : list str) :
  Permutation (k :: l) (insert_sorted k l).
Proof.
  induction l as [|x rest IH]; simpl; [apply Permutation_refl|].
  destruct (str_ltb x k); [|apply Permutation_refl].
  eapply Permutation_trans; [apply perm_swap|]. apply perm_skip. exact IH.
Qed.

Lemma sorted_perm (l : list str) : Permutation l (sorted l).
Proof.
  induction l as [|k l IH]; simpl; [constructor|].
  eapply Permutation_trans; [apply perm_skip; exact IH|].
  apply insert_sorted_perm.
Qed.

Lemma insert_sorted_ascending (k : str) (l : list str) :
  ascending l -> ascending (insert_sorted k l).
Proof.
  unfold ascending. induction 1 as [|x rest Hs IH Hhd]; simpl.
  - repeat constructor.
  - destruct (str_ltb x k) eqn:Hx.
    + constructor; [exact IH|].
      destruct rest as [|y rest']; simpl.
      * constructor. unfold str_leb. rewrite (str_ltb_asym _ _ Hx). reflexivity.
      * destruct (str_ltb y k).
        -- inversion Hhd. constructor. assumption.
        -- constructor. unfold str_leb. rewrite (str_ltb_asym _ _ Hx). reflexivity.
    + constructor; [constructor; assumption|].
      constructor. unfold str_leb. rewrite Hx. reflexivity.
Qed.

Lemma sorted_ascending (l : list str) : ascending (sorted l).
Proof.
  induction l as [|k l IH]; simpl; [constructor|].
  apply insert_sorted_ascending. exact IH.
Qed.

Lemma get_item_none {V : Type} (d : list (str * V)) (k : str) :
  get_item d k = None <-> ~ In k (map fst d).
Proof.
  induction d as [|[k' v] rest IH]; simpl; [tauto|].
  destruct (str_eqb k' k) eqn:E.
  - apply str_eqb_eq in E. split; [discriminate | intros H; exfalso; auto].
  - rewrite IH. split.
    + intros H [Heq | Hin]; [|auto]. subst. rewrite str_eqb_refl in E. discriminate.
    + intros H Hin. auto.
Qed.

Lemma set_item_absent {V : Type} (d : list (str * V)) (k : str) (v : V) :
  ~ In k (map fst d) -> set_item d k v = d ++ [(k, v)].
Proof.
  induction d as [|[k' v'] rest IH]; simpl; [reflexivity|].
  intros H. destruct (str_eqb k' k) eqn:E.
  - apply str_eqb_eq in E. exfalso. auto.
  - rewrite IH by auto. reflexivity.
Qed.

(** A dict built key by key from keys that are all different. *)
Lemma fold_set_item {V : Type} (g : str -> V) (ks : list str) :
  forall acc : list (str * V),
    NoDup ks -> (forall k, In k ks -> ~ In k (map fst acc)) ->
    fold_left (fun new_dict _key => set_item new_dict _key (g _key)) ks acc
    = acc ++ map (fun k => (k, g k)) ks.
Proof.
  induction ks as [|k ks IH]; intros acc Hnd Hdis; simpl.
  - rewrite app_nil_r. reflexivity.
  - inversion Hnd as [|x l Hnotin Hnd']. subst.
    rewrite set_item_absent by (apply Hdis; left; reflexivity).
    rewrite IH.
    + rewrite <- app_assoc. reflexivity.
    + exact Hnd'.
    + intros k' Hin. rewrite map_app, in_app_iff. simpl.
      intros [H | [H | []]].
      * apply (Hdis k'); [right; exact Hin | exact H].
      * subst. contradiction.
Qed.

Lemma get_item_table {V : Type} (g : str -> V) (ks : list str) (k : str) :
  In k ks -> get_item (map (fun k => (k, g k)) ks) k = Some (g k).
Proof.
  induction ks as [|k' ks IH]; simpl; [contradiction|].
  intros [-> | Hin].
  - rewrite str_eqb_refl. reflexivity.
  - destruct (str_eqb k' k) eqn:E; [|exact (IH Hin)].
    apply str_eqb_eq in E. subst. reflexivity.
Qed.

Lemma get_item_map {V W : Type} (f : V -> W) (d : list (str * V)) (k : str) :
  get_item (map (fun kv => (fst kv, f (snd kv))) d) k = option_map f (get_item d k).
Proof.
  induction d as [|[k' v] rest IH]; simpl; [reflexivity|].
  destruct (str_eqb k' k); [reflexivity | exact IH].
Qed.

Lemma sort_dict_dict (d : list (str * json)) :
  sort_dict (JDict d)
  = JDict (fold_left
             (fun new_dict _key =>
                set_item new_dict _key
                  (item JNull (map (fun kv => (fst kv, sort_dict (snd kv))) d) _key))
             (sorted (map fst d)) []).
Proof.
  cbn [sort_dict].
  match goal with
  | |- context [item JNull ?t] =>
      replace t with (map (fun kv => (fst kv, sort_dict (snd kv))) d);
      [reflexivity|]
  end.
  induction d as [|[k v] rest IH]; [reflexivity|].
  simpl. f_equal. exact IH.
Qed.

(** X27.  On a dict whose keys are all different, [sort_dict] returns a
    dict with the same keys in ascending order, and under each key the
    result of [sort_dict] on the value the key had. *)
Theorem sort_dict_sorts_keys (d : list (str * json)) :
  NoDup (map fst d) ->
  exists d',
    sort_dict (JDict d) = JDict d'
    /\ ascending (map fst d')
    /\ Permutation (map fst d) (map fst d')
    /\ forall k, get_item d' k = option_map sort_dict (get_item d k).
Proof.
  intros Hnd.
  set (values := map (fun kv => (fst kv, sort_dict (snd kv))) d).
  exists (map (fun k => (k, item JNull values k)) (sorted (map fst d))).
  assert (Hkeys : map fst (map (fun k => (k, item JNull values k)) (sorted (map fst d)))
                  = sorted (map fst d)).
  { rewrite map_map. simpl. apply map_id. }
  split; [|split; [|split]].
  - rewrite sort_dict_dict. fold values. f_equal.
    rewrite fold_set_item; [reflexivity | | intros k _ []].
    eapply Permutation_NoDup; [apply sorted_perm | exact Hnd].
  - rewrite Hkeys. apply sorted_ascending.
  - rewrite Hkeys. apply sorted_perm.
  - intros k. destruct (get_item d k) as [v|] eqn:Hget.
    + assert (Hin : In k (sorted (map fst d))).
      { eapply Permutation_in; [apply sorted_perm|].
        destruct (in_dec (list_eq_dec ascii_dec) k (map fst d)) as [H | H];
          [exact H|].
        apply get_item_none in H. congruence. }
      rewrite (get_item_table _ _ _ Hin). unfold item, values.
      rewrite get_item_map, Hget. reflexivity.
    + simpl. apply get_item_none. rewrite Hkeys. intros Hin.
      apply get_item_none in Hget. apply Hget.
      eapply Permutation_in; [apply Permutation_sym, sorted_perm | exact Hin].
Qed.

Lemma distinct_keys_dict (d : list (str * json)) :
  distinct_keys (JDict d)
  <-> NoDup (map fst d) /\ Forall (fun kv => distinct_keys (snd kv)) d.
Proof.
  cbn [distinct_keys]. apply and_iff_compat_l.
  induction d as [|[k v] rest IH].
  - split; constructor.
  - split.
    + intros [Hv Hrest]. constructor; [exact Hv | apply IH; exact Hrest].
    + intros H. inversion H as [|x l Hv Hrest]. subst.
      split; [exact Hv | apply IH; exact Hrest].
Qed.

(** Induction on a value through the values of its dicts. *)
Lemma json_dict_ind (P : json -> Prop) :
  P JNull -> (forall b, P (JBool b)) -> (forall z, P (JInt z)) ->
  (forall s, P (JStr s)) -> (forall l, P (JList l)) ->
  (forall d, Forall (fun kv => P (snd kv)) d -> P (JDict d)) ->
  forall v, P v.
Proof.
  intros Hnull Hbool Hint Hstr Hlist Hdict.
  fix IH 1. intros [| b | z | s | l | d].
  - exact Hnull.
  - apply Hbool.
  - apply Hint.
  - apply Hstr.
  - apply Hlist.
  - apply Hdict. induction d as [|[k v] rest IHd]; constructor.
    + apply IH.
    + exact IHd.
Qed.

Lemma convert_boolean_idem (v : json) :
  convert_boolean (convert_boolean v) = convert_boolean v.
Proof.
  destruct v as [| b | z | s | l | d]; try reflexivity.
  cbn [convert_boolean].
  destruct (str_eqb (lower (strip s)) (lit "yes") || str_eqb (lower (strip s)) (lit "true"))
    eqn:E1; [reflexivity|].
  destruct (str_eqb (lower (strip s)) (lit "no") || str_eqb (lower (strip s)) (lit "false"))
    eqn:E2; [reflexivity|].
  cbn [convert_boolean]. rewrite E1, E2. reflexivity.
Qed.

Lemma insert_sorted_least (k : str) (l : list str) :
  ascending (k :: l) -> insert_sorted k l = k :: l.
Proof.
  intros H. destruct l as [|x rest]; [reflexivity|].
  inversion H as [|a b _ Hhd]. subst. inversion Hhd as [|y m Hle]. subst.
  simpl. unfold str_leb in Hle. apply negb_true_iff in Hle. rewrite Hle. reflexivity.
Qed.

Lemma sorted_id (l : list str) : ascending l -> sorted l = l.
Proof.
  induction l as [|k l IH]; intros H; [reflexivity|].
  simpl. rewrite IH by (inversion H; assumption).
  apply insert_sorted_least. exact H.
Qed.

(** X28.  [sort_dict] is idempotent: on a value whose dicts have no key
    twice, a second pass changes nothing. *)
Theorem sort_dict_idempotent (v : json) :
  distinct_keys v -> sort_dict (sort_dict v) = sort_dict v.
Proof.
  induction v as [| b | z | s | l | d IH] using json_dict_ind; intros Hwf;
    try reflexivity.
  - change (sort_dict (JStr s)) with (convert_boolean (JStr s)).
    pose proof (convert_boolean_idem (JStr s)) as Hc.
    destruct (convert_boolean (JStr s)) as [| b | z | s' | l | d] eqn:E;
      try reflexivity; try exact Hc.
    cbn [convert_boolean] in E.
    destruct (_ || _) in E; [discriminate|].
    destruct (_ || _) in E; discriminate.
  - apply distinct_keys_dict in Hwf. destruct Hwf as [Hnd Hall].
    set (values := map (fun kv => (fst kv, sort_dict (snd kv))) d).
    set (d' := map (fun k => (k, item JNull values k)) (sorted (map fst d))).
    assert (Hkeys : map fst d' = sorted (map fst d)).
    { unfold d'. rewrite map_map. simpl. apply map_id. }
    assert (Hnd' : NoDup (sorted (map fst d))).
    { eapply Permutation_NoDup; [apply sorted_perm | exact Hnd]. }
    assert (H1 : sort_dict (JDict d) = JDict d').
    { rewrite sort_dict_dict. fold values. f_equal.
      rewrite fold_set_item; [reflexivity | exact Hnd' | intros k _ []]. }
    rewrite H1, sort_dict_dict, Hkeys.
    rewrite (sorted_id (sorted (map fst d))) by apply sorted_ascending.
    rewrite fold_set_item; [|exact Hnd' | intros k _ []].
    f_equal. simpl. unfold d' at 2. apply map_ext_in. intros k Hin. f_equal.
    unfold item at 1. rewrite get_item_map.
    unfold d'. rewrite (get_item_table _ _ _ Hin). simpl.
    assert (Hk : In k (map fst d)).
    { eapply Permutation_in; [apply Permutation_sym, sorted_perm | exact Hin]. }
    unfold item, values. rewrite get_item_map.
    destruct (get_item d k) as [x|] eqn:Hget.
    + simpl.
      assert (Hin' : exists k', In (k', x) d).
      { clear -Hget. induction d as [|[k0 v0] rest IHd]; simpl in *; [discriminate|].
        destruct (str_eqb k0 k).
        - injection Hget as ->. exists k0. left. reflexivity.
        - destruct (IHd Hget) as [k' H]. exists k'. right. exact H. }
      destruct Hin' as [k' Hin'].
      rewrite Forall_forall in IH, Hall.
      apply (IH (k', x) Hin'). apply (Hall (k', x) Hin').
    + apply get_item_none in Hget. contradiction.
Qed.

(** ** On the sample inputs *)

Lemma menu_output_joins_lines_witness :
  bitbar_menu_output
    (fold_left print_in_bitbar_menu [[]; lit "LHUB"; lit "---"; []; lit "Reset"]
       empty_menu)
  = join NL (skip_empty [[]; lit "LHUB"; lit "---"; []; lit "Reset"]).
Proof.
  apply (menu_output_joins_lines nat empty_menu
           [[]; lit "LHUB"; lit "---"; []; lit "Reset"]).
  reflexivity.
Defined.

Lemma make_action_same_identifier_witness :
  exists self1 _var1 self2 _var2,
    make_action empty_menu (Some (lit "SQL New (from table)")) (Some 1%nat) None 1
      false false
    = inr (self1, Some _var1)
    /\ make_action self1 (Some (lit "SQL New [from table]")) (Some 2%nat) None 1
         true false
       = inr (self2, Some _var2)
    /\ Action.id _var1 = Action.id _var2
    /\ Action.action _var2 = 2%nat
    /\ get_item (action_list self2) (Action.id _var1) = Some _var2
    /\ length (action_list self2) = length (action_list self1).
Proof.
  apply (make_action_same_identifier nat empty_menu (lit "SQL New (from table)")
           (lit "SQL New [from table]") 1%nat 2%nat 1 1 false true false false).
  unfold same_words.
  repeat (constructor; [first [left; reflexivity | right; split; reflexivity]|]).
  constructor.
Defined.

Lemma sort_dict_sorts_keys_witness :
  exists d',
    sort_dict (JDict sample_config_items) = JDict d'
    /\ ascending (map fst d')
    /\ Permutation (map fst sample_config_items) (map fst d')
    /\ forall k, get_item d' k = option_map sort_dict (get_item sample_config_items k).
Proof.
  apply (sort_dict_sorts_keys sample_config_items).
  distinct_names.
Defined.

Lemma sort_dict_idempotent_witness :
  sort_dict (sort_dict sample_config) = sort_dict sample_config.
Proof.
  apply (sort_dict_idempotent sample_config).
  repeat match goal with
         | |- distinct_keys _ => cbn [distinct_keys sample_config]
         | |- _ /\ _ => split
         | |- NoDup _ => distinct_names
         | |- True => exact I
         end.
Defined.

(** * Properties of what the actions report *)

(** ** Resetting the port redirection *)

Section ResetRedirection.

Variable os : OS.
Variable debug_enabled : bool.

(** A tested command returns exactly when its process exits with 0. *)
Lemma steps_run_cli_answer (cmd : str) (argv : list str) (t : option nat)
  (cap : bool) (h : list event) :
  _validate_command cmd = inr argv ->
  exists r,
    steps (_run_cli_command os debug_enabled cmd t true cap) h r
      (run_events debug_enabled cmd argv t cap)
    /\ ((exists cp, r = inr cp)
        <-> exited_ok (os_run os (h ++ debug_events debug_enabled
                                          (lit "Executing command: " ++ cmd)) argv)
            = true).
Proof.
  intros Hv.
  destruct (os_run os (h ++ debug_events debug_enabled
                              (lit "Executing command: " ++ cmd)) argv)
    as [rc out|] eqn:Hos.
  - pose proof (steps_run_cli os debug_enabled cmd argv t true cap h rc out Hv Hos)
      as Hrun.
    simpl andb in Hrun. simpl exited_ok. destruct (Z.eqb rc 0); simpl negb in Hrun;
      cbv iota in Hrun; eexists; (split; [exact Hrun|]).
    + split; [reflexivity | intros _; eexists; reflexivity].
    + split; [intros [cp H]; discriminate H | discriminate].
  - eexists. split.
    + apply (steps_run_cli_timed_out os debug_enabled cmd argv t true cap h Hv Hos).
    + simpl. split; [intros [cp H]; discriminate H | discriminate].
Qed.

(** [do_terminate_port_redirection] on any system. *)
Lemma reset_any (h : list event) :
  exists r evs,
    steps (do_terminate_port_redirection os debug_enabled) h r evs
    /\ runs evs = [pfctl_reset_argv]
    /\ (r = inr PNone
        <-> exited_ok
              (os_run os
                 ((h ++ [Print (lit "Resetting port forwarding/redirection...")])
                  ++ debug_events debug_enabled
                       (lit "Executing command: " ++ pfctl_reset_cmd))
                 pfctl_reset_argv) = true)
    /\ (In reset_notification evs <-> r = inr PNone).
Proof.
  set (p0 := [Print (lit "Resetting port forwarding/redirection...")]).
  set (e1 := run_events debug_enabled pfctl_reset_cmd pfctl_reset_argv (Some 30%nat)
               true).
  assert (Hno : ~ In reset_notification (p0 ++ e1)).
  { unfold p0, e1, run_events, debug_events. intros Hin.
    apply in_app_iff in Hin. destruct Hin as [[H | []] | Hin]; [discriminate H|].
    apply in_app_iff in Hin. destruct Hin as [Hin | [H | []]]; [|discriminate H].
    destruct debug_enabled; [destruct Hin as [H | []]; discriminate H | exact Hin]. }
  destruct (steps_run_cli_answer pfctl_reset_cmd pfctl_reset_argv (Some 30%nat) true
              (h ++ p0) validate_pfctl) as (r & Hrun & Hok).
  fold p0. destruct r as [e | cp].
  - exists (inl e), (p0 ++ e1). split; [|split; [|split]].
    + unfold do_terminate_port_redirection.
      eapply steps_bind; [apply steps_print|].
      apply steps_bind_raise. exact Hrun.
    + unfold p0, e1. rewrite runs_app, runs_run_events. reflexivity.
    + rewrite <- Hok. split; [discriminate | intros [cp H]; discriminate H].
    + split; [intros H; contradiction | discriminate].
  - exists (inr PNone),
      (p0 ++ e1 ++ [Print (lit "Port redirection terminated")]
       ++ [reset_notification] ++ []).
    split; [|split; [|split]].
    + unfold do_terminate_port_redirection.
      eapply steps_bind; [apply steps_print|].
      eapply steps_bind; [exact Hrun|].
      eapply steps_bind; [apply steps_print|].
      eapply steps_bind; [apply steps_notify | apply steps_ret].
    + unfold p0, e1. rewrite !runs_app, runs_run_events. reflexivity.
    + rewrite <- Hok. split; [intros _; exists cp; reflexivity | reflexivity].
    + split; [reflexivity|]. intros _.
      apply in_app_iff. right. apply in_app_iff. right. right. left. reflexivity.
Qed.

(** X29.  On any system, [action_terminate_port_redirection] validates
    sudo first and starts [sudo pfctl -f /etc/pf.conf] exactly when the
    sudo validation has exited with the status 0; it starts no other
    command.  It returns normally exactly when both commands have exited
    with 0, and the notification that the port redirection is terminated
    is sent then and only then: never after a sudo validation or a reset
    that failed or did not end. *)
Theorem reset_after_sudo_only (h : list event) :
  exists r evs,
    steps (action_terminate_port_redirection os debug_enabled) h r evs
    /\ runs evs
       = (if exited_ok (sudo_answer os debug_enabled h)
          then [sudo_validate_argv; pfctl_reset_argv]
          else [sudo_validate_argv])
    /\ (r = inr PNone
        <-> exited_ok (sudo_answer os debug_enabled h)
            && exited_ok (reset_answer os debug_enabled h) = true)
    /\ (In reset_notification evs <-> r = inr PNone).
Proof.
  set (s0 := run_events debug_enabled sudo_validate_cmd sudo_validate_argv None false).
  assert (Hno : ~ In reset_notification s0).
  { unfold s0, run_events, debug_events. intros Hin.
    apply in_app_iff in Hin. destruct Hin as [Hin | [H | []]]; [|discriminate H].
    destruct debug_enabled; [destruct Hin as [H | []]; discriminate H | exact Hin]. }
  destruct (steps_run_cli_answer sudo_validate_cmd sudo_validate_argv None false h
              validate_sudo) as (r0 & Hrun & Hok).
  fold (sudo_answer os debug_enabled h) in Hok. fold s0 in Hrun.
  destruct r0 as [e | cp].
  - assert (Hs : exited_ok (sudo_answer os debug_enabled h) = false).
    { destruct (exited_ok (sudo_answer os debug_enabled h)); [|reflexivity].
      destruct (proj2 Hok eq_refl) as [cp H]. discriminate H. }
    exists (inl e), s0. rewrite Hs. split; [|split; [|split]].
    + unfold action_terminate_port_redirection, do_prompt_for_sudo.
      apply steps_bind_raise. apply steps_bind_raise. exact Hrun.
    + apply runs_run_events.
    + split; discriminate.
    + split; [intros H; contradiction | discriminate].
  - assert (Hs : exited_ok (sudo_answer os debug_enabled h) = true).
    { apply Hok. exists cp. reflexivity. }
    destruct (reset_any (h ++ s0)) as (r & evs & Hreset & Hruns & Hret & Hnote).
    fold (reset_answer os debug_enabled h) in Hret.
    exists r, (s0 ++ evs). rewrite Hs. split; [|split; [|split]].
    + unfold action_terminate_port_redirection, do_prompt_for_sudo.
      eapply steps_bind; [|exact Hreset].
      rewrite <- (app_nil_r s0).
      eapply steps_bind; [exact Hrun | apply steps_ret].
    + unfold s0. rewrite runs_app, runs_run_events, Hruns. reflexivity.
    + exact Hret.
    + rewrite in_app_iff, <- Hnote. split; [intros [H | H]; [contradiction | exact H]|].
      intros H. right. exact H.
Qed.

End ResetRedirection.

(** ** What a redirect reports *)

Section RedirectReport.

Variable os : OS.
Variable debug_enabled : bool.

(** X30.  [do_execute_port_redirect] does not look at how its shell
    command ends: once the source address is verified, whatever the shell
    answers (be it an error message of [sudo] or [pfctl]), the call prints
    each line of the answer after five spaces, prints and notifies
    [Port Redirection Enabled] with the two endpoints, and returns
    normally. *)
Theorem port_redirect_reports_enabled
  (source_address source_port target_address target_port output : str)
  (h ev1 : list event) :
  (forall h', os_getoutput os h'
                (redirect_cmd source_address source_port target_address target_port)
              = output) ->
  steps (do_verify_loopback_address os debug_enabled source_address false) h
    (inr PNone) ev1 ->
  exists ev2,
    steps (do_execute_port_redirect os debug_enabled source_address source_port
             target_address target_port) h (inr PNone) (ev1 ++ ev2)
    /\ Forall (fun line => In (Print (lit "     " ++ line)) ev2)
         (str_split newline output)
    /\ In (Print (NL ++ redirect_result source_address source_port target_address
                           target_port ++ NL)) ev2
    /\ In (Popen (notification_cmd
                    (replace_char dquote [backslash; dquote]
                       (redirect_result source_address source_port target_address
                          target_port))
                    title_default)) ev2.
Proof.
  intros Hout Hverify.
  set (cmd := redirect_cmd source_address source_port target_address target_port).
  set (dbg1 := debug_events debug_enabled
                 (lit "Making alias to redirect " ++ source_address ++ lit ":"
                  ++ source_port ++ lit " --> " ++ target_address ++ lit ":"
                  ++ target_port)).
  set (dbg2 := debug_events debug_enabled (lit "Executing command: " ++ cmd)).
  set (result := redirect_result source_address source_port target_address
                   target_port).
  set (lines := map (fun l => Print (repeat_str 5 (lit " ") ++ l))
                  (str_split newline output)).
  set (note := Popen (notification_cmd
                        (replace_char dquote [backslash; dquote] result)
                        title_default)).
  exists (dbg1 ++ [Print []]
          ++ ((dbg2 ++ [GetOutput cmd] ++ lines ++ [])
              ++ [Print (NL ++ result ++ NL)] ++ [note] ++ [])).
  split; [|split; [|split]].
  - unfold do_execute_port_redirect.
    eapply steps_bind; [exact Hverify|].
    eapply steps_bind; [apply steps_print_debug|].
    eapply steps_bind; [apply steps_print|].
    eapply steps_bind.
    { unfold _run_shell_command_with_pipes.
      eapply steps_bind; [apply steps_print_debug|].
      eapply steps_bind; [unfold steps; rewrite (Hout _); reflexivity|].
      eapply steps_bind; [apply steps_print_lines|].
      apply steps_ret. }
    eapply steps_bind; [apply steps_print|].
    eapply steps_bind; [apply steps_notify|].
    apply steps_ret.
  - apply Forall_forall. intros line Hin.
    rewrite !in_app_iff. right. right. left. right. right. left.
    unfold lines. apply in_map_iff. exists line. split; [reflexivity | exact Hin].
  - rewrite !in_app_iff. right. right. right. left. left. reflexivity.
  - rewrite !in_app_iff. right. right. right. right. left. left. reflexivity.
Qed.

End RedirectReport.

(** ** On a sample system *)

Lemma port_redirect_reports_enabled_witness :
  let os := refusing_shell_os ps_none ifconfig_with_alias in
  let ev1 := [Run (lit "ifconfig -a") ifconfig_argv (Some 30%nat) true] in
  exists ev2,
    steps (do_execute_port_redirect os false (lit "127.0.0.2") (lit "443")
             (lit "10.0.0.5") (lit "8443")) [] (inr PNone) (ev1 ++ ev2)
    /\ Forall (fun line => In (Print (lit "     " ++ line)) ev2)
         (str_split newline (lit "sudo: 3 incorrect password attempts"))
    /\ In (Print (NL ++ redirect_result (lit "127.0.0.2") (lit "443")
                          (lit "10.0.0.5") (lit "8443") ++ NL)) ev2
    /\ In (Popen (notification_cmd
                    (replace_char dquote [backslash; dquote]
                       (redirect_result (lit "127.0.0.2") (lit "443")
                          (lit "10.0.0.5") (lit "8443")))
                    title_default)) ev2.
Proof.
  apply (port_redirect_reports_enabled (refusing_shell_os ps_none ifconfig_with_alias)
           false (lit "127.0.0.2") (lit "443") (lit "10.0.0.5") (lit "8443")
           (lit "sudo: 3 incorrect password attempts") []
           [Run (lit "ifconfig -a") ifconfig_argv (Some 30%nat) true]).
  - intros h'. reflexivity.
  - vm_compute. reflexivity.
Defined.
